(** * Bank statement extractor: text parsing and classification

    A shallow embedding of [src/pdf-extractor.js] (class
    [BankStatementExtractor]) together with the ECMAScript string and
    regular-expression built-ins it relies on.  The reading of the PDF
    file ([extractTextFromPDF]) and the three helpers that nothing calls
    ([isDateLine], [startNewTransaction], [addToTransaction]) are left
    out; calls to [console.log] have no effect on the results and are
    dropped. *)

From Stdlib Require Import String Ascii.
From Stdlib Require Import List NArith Bool Arith Lia.
Import ListNotations.

(* ================================================================= *)
(** * ECMAScript strings *)

(** A string value is a sequence of UTF-16 code units. *)
Definition jsstring := list N.

(** Literal of the source written with Basic Latin characters only. *)
Definition js (s : string) : jsstring :=
  map N_of_ascii (list_ascii_of_string s).

Module Str.

Fixpoint eqb (a b : jsstring) : bool :=
  match a, b with
  | [], [] => true
  | c :: a', d :: b' => N.eqb c d && eqb a' b'
  | _, _ => false
  end.

(** [s.startsWith(k)] *)
Fixpoint startsWith (s k : jsstring) {struct k} : bool :=
  match k, s with
  | [], _ => true
  | c :: k', d :: s' => N.eqb d c && startsWith s' k'
  | _ :: _, [] => false
  end.

(** [s.includes(k)] *)
Fixpoint includes (s k : jsstring) : bool :=
  startsWith s k ||
  match s with
  | [] => false
  | _ :: s' => includes s' k
  end.

(** [s.substring(0, n)] *)
Definition substring0 (n : nat) (s : jsstring) : jsstring := firstn n s.

(** White space and line terminators: the characters removed by [trim]
    and matched by the class escape [\s]. *)
Definition isWhiteSpace (c : N) : bool :=
  ((9 <=? c) && (c <=? 13) || (c =? 32) || (c =? 160) || (c =? 5760)
   || ((8192 <=? c) && (c <=? 8202)) || (c =? 8232) || (c =? 8233)
   || (c =? 8239) || (c =? 8287) || (c =? 12288) || (c =? 65279))%N.

Fixpoint trimStart (s : jsstring) : jsstring :=
  match s with
  | c :: s' => if isWhiteSpace c then trimStart s' else s
  | [] => []
  end.

Definition trimEnd (s : jsstring) : jsstring := rev (trimStart (rev s)).

(** [s.trim()] *)
Definition trim (s : jsstring) : jsstring := trimEnd (trimStart s).

(** [s.split('\n')] and, for any one-character separator, [s.split(sep)] *)
Fixpoint splitChar (sep : N) (s : jsstring) : list jsstring :=
  match s with
  | [] => [[]]
  | c :: s' =>
      if N.eqb c sep then [] :: splitChar sep s'
      else match splitChar sep s' with
           | l :: ls => (c :: l) :: ls
           | [] => [[c]]
           end
  end.

(** [ws.join(' ')] *)
Fixpoint join (sep : jsstring) (ws : list jsstring) : jsstring :=
  match ws with
  | [] => []
  | [w] => w
  | w :: ws' => w ++ sep ++ join sep ws'
  end.

(** [s.replace(k, '')] with a string pattern [k]: the first occurrence of
    [k] is removed. *)
Fixpoint removeFirst (s k : jsstring) : jsstring :=
  if startsWith s k then skipn (length k) s
  else match s with
       | [] => []
       | c :: s' => c :: removeFirst s' k
       end.

(** Upper-casing of one code unit of the Basic Latin and Latin-1 blocks. *)
Definition upperUnit (c : N) : jsstring :=
  (if (97 <=? c) && (c <=? 122) then [c - 32]
   else if c =? 181 then [924]
   else if c =? 223 then [83; 83]
   else if (224 <=? c) && (c <=? 254) && negb (c =? 247) then [c - 32]
   else if c =? 255 then [376]
   else [c])%N.

(** [s.toUpperCase()] on strings of the Basic Latin and Latin-1 blocks.
    Code units beyond U+00FF are left as they are: the Unicode case tables
    are not reproduced here, and the extractor below takes the upper-casing
    function as a parameter. *)
Definition toUpperCaseLatin1 (s : jsstring) : jsstring := flat_map upperUnit s.

End Str.

(* ================================================================= *)
(** * ECMAScript regular expressions *)

Module Re.

(** Patterns.  A [Class] stands for any pattern that consumes exactly one
    code unit: a literal character, [.], a class escape or a bracketed
    class; [Quant] covers [*], [+], [?], [{n}], [{n,m}] and their lazy
    forms. *)
Inductive regex : Type :=
| Empty
| Class (p : N -> bool)
| Seq (r1 r2 : regex)
| Alt (r1 r2 : regex)
| Quant (min : nat) (max : option nat) (greedy : bool) (r : regex)
| Group (n : nat) (r : regex)
| Bol
| Eol.

(** Matcher state: index reached in the input, the input that remains
    from there on, and the captures made so far (latest first). *)
Record state := mkState {
  endIndex : nat;
  rest : jsstring;
  captures : list (nat * jsstring)
}.

(** Backtracking is rendered by the list of all ways a pattern can match
    from a state, in the order in which the matcher of the language
    standard tries them; the head of the list is the match it returns.
    The standard clears, at each iteration of a quantifier, the captures
    of the groups inside it; this is not rendered, and no pattern of the
    source reads such a capture. *)

(** RepeatMatcher.  An iteration that consumes nothing once [min] is
    reached is rejected, so [min] plus the length of the remaining input
    bounds the number of iterations; [fuel] is started at that bound. *)
Fixpoint repeatMatcher (m : state -> list state) (fuel min : nat)
    (max : option nat) (greedy : bool) (x : state) : list state :=
  match max with
  | Some 0 => [x]
  | _ =>
    match fuel with
    | 0 => [x]
    | S fuel' =>
        let iter :=
          flat_map (fun y =>
            if (min =? 0) && (endIndex y =? endIndex x) then []
            else repeatMatcher m fuel' (pred min) (option_map pred max) greedy y)
            (m x) in
        if negb (min =? 0) then iter
        else if greedy then iter ++ [x]
        else x :: iter
    end
  end.

Fixpoint run (r : regex) (x : state) : list state :=
  match r with
  | Empty => [x]
  | Class p =>
      match rest x with
      | c :: s => if p c then [mkState (S (endIndex x)) s (captures x)] else []
      | [] => []
      end
  | Seq r1 r2 => flat_map (run r2) (run r1 x)
  | Alt r1 r2 => run r1 x ++ run r2 x
  | Quant min max greedy r1 =>
      repeatMatcher (run r1) (min + length (rest x)) min max greedy x
  | Group n r1 =>
      map (fun y => mkState (endIndex y) (rest y)
                      ((n, firstn (endIndex y - endIndex x) (rest x)) :: captures y))
          (run r1 x)
  | Bol => if endIndex x =? 0 then [x] else []
  | Eol => match rest x with [] => [x] | _ :: _ => [] end
  end.

(** The array returned by a successful match: [index], element 0
    ([matched]), the captures, and the input after the match. *)
Record matchResult := mkMatch {
  index : nat;
  matched : jsstring;
  groups : list (nat * jsstring);
  lastIndex : nat;
  following : jsstring
}.

Fixpoint assoc (n : nat) (l : list (nat * jsstring)) : option jsstring :=
  match l with
  | [] => None
  | (k, v) :: l' => if k =? n then Some v else assoc n l'
  end.

(** [m[n]] for [n >= 1]; [None] is [undefined]. *)
Definition group (n : nat) (m : matchResult) : option jsstring :=
  assoc n (groups m).

(** One attempt at index [idx], where [s] is the input from [idx] on. *)
Definition matchAt (r : regex) (idx : nat) (s : jsstring) : option matchResult :=
  match run r (mkState idx s []) with
  | y :: _ => Some (mkMatch idx (firstn (endIndex y - idx) s) (captures y)
                            (endIndex y) (rest y))
  | [] => None
  end.

(** Leftmost match at or after [idx]. *)
Fixpoint search (r : regex) (idx : nat) (s : jsstring) : option matchResult :=
  match matchAt r idx s with
  | Some m => Some m
  | None => match s with
            | [] => None
            | _ :: s' => search r (S idx) s'
            end
  end.

(** [r.exec(s)] for a pattern without the global flag. *)
Definition exec (r : regex) (s : jsstring) : option matchResult := search r 0 s.

(** [r.test(s)] *)
Definition test (r : regex) (s : jsstring) : bool :=
  match exec r s with Some _ => true | None => false end.

(** Successive matches of a global pattern, as [match], [replace] and a
    loop over [exec] enumerate them: each search resumes where the last
    match ended, one code unit further when that match was empty.  [skip]
    counts the code units still covered by the last match. *)
Fixpoint scan (r : regex) (idx : nat) (s : jsstring) (skip : nat) : list matchResult :=
  match skip with
  | S k => match s with
           | [] => []
           | _ :: s' => scan r (S idx) s' k
           end
  | 0 =>
      match matchAt r idx s with
      | Some m =>
          m :: match s with
               | [] => []
               | _ :: s' => scan r (S idx) s' (pred (lastIndex m - idx))
               end
      | None => match s with
                | [] => []
                | _ :: s' => scan r (S idx) s' 0
                end
      end
  end.

Definition matchAll (r : regex) (s : jsstring) : list matchResult := scan r 0 s 0.

(** [s.match(r)] for a global pattern: the matched substrings, [None]
    (that is [null]) when there is none. *)
Definition matchG (r : regex) (s : jsstring) : option (list jsstring) :=
  match matchAll r s with
  | [] => None
  | ms => Some (map matched ms)
  end.

(** The pieces of [s] (the input from index [pos] on) that lie between
    the matches [ms]. *)
Fixpoint pieces (pos : nat) (s : jsstring) (ms : list matchResult) : list jsstring :=
  match ms with
  | [] => [s]
  | m :: ms' =>
      firstn (index m - pos) s :: pieces (lastIndex m) (skipn (lastIndex m - pos) s) ms'
  end.

(** [s.replace(r, by)] for a global pattern and a replacement without [$]. *)
Definition replaceG (r : regex) (by_ : jsstring) (s : jsstring) : jsstring :=
  Str.join by_ (pieces 0 s (matchAll r s)).

(** [s.replace(r, by)] for a pattern without the global flag. *)
Definition replace (r : regex) (by_ : jsstring) (s : jsstring) : jsstring :=
  match exec r s with
  | Some m => firstn (index m) s ++ by_ ++ following m
  | None => s
  end.

(** [s.split(r)] for a pattern that matches no empty string. *)
Definition split (r : regex) (s : jsstring) : list jsstring :=
  pieces 0 s (matchAll r s).

(** ** Pattern syntax *)

Definition chr (c : N) : regex := Class (N.eqb c).

(** Basic Latin upper-casing of one code unit. *)
Definition upperAscii (c : N) : N :=
  if ((97 <=? c) && (c <=? 122))%N then (c - 32)%N else c.

(** A Basic Latin pattern character under the [i] flag: the canonical
    form of a code unit outside Basic Latin is never inside it, so the
    input code unit matches when its Basic Latin upper-casing is that of
    the pattern character. *)
Definition chrI (c : N) : regex := Class (fun d => N.eqb (upperAscii d) (upperAscii c)).

Fixpoint litI (s : jsstring) : regex :=
  match s with
  | [] => Empty
  | [c] => chrI c
  | c :: s' => Seq (chrI c) (litI s')
  end.

Definition isDigit (c : N) : bool := ((48 <=? c) && (c <=? 57))%N.
Definition isLineTerminator (c : N) : bool :=
  ((c =? 10) || (c =? 13) || (c =? 8232) || (c =? 8233))%N.

Definition digit : regex := Class isDigit.                              (* \d *)
Definition space : regex := Class Str.isWhiteSpace.                     (* \s *)
Definition dot : regex := Class (fun c => negb (isLineTerminator c)).   (* .  *)

Definition star (r : regex) : regex := Quant 0 None true r.             (* r*  *)
Definition plus (r : regex) : regex := Quant 1 None true r.             (* r+  *)
Definition plusLazy (r : regex) : regex := Quant 1 None false r.        (* r+? *)
Definition opt (r : regex) : regex := Quant 0 (Some 1) true r.          (* r?  *)
Definition times (n : nat) (r : regex) : regex := Quant n (Some n) true r.     (* r{n} *)
Definition range (n m : nat) (r : regex) : regex := Quant n (Some m) true r.   (* r{n,m} *)

Fixpoint seqs (rs : list regex) : regex :=
  match rs with
  | [] => Empty
  | [r] => r
  | r :: rs' => Seq r (seqs rs')
  end.

Fixpoint alts (rs : list regex) : regex :=
  match rs with
  | [] => Empty
  | [r] => r
  | r :: rs' => Alt r (alts rs')
  end.

(** [new RegExp(p, 'i')] for the patterns of the keyword tables, which
    are made of Basic Latin literal characters, [.] and a postfix [*]. *)
Fixpoint compileI (p : jsstring) : regex :=
  let atom c := if N.eqb c 46 then dot else chrI c in
  match p with
  | [] => Empty
  | c :: p' =>
      match p' with
      | 42%N :: p'' => Seq (star (atom c)) (compileI p'')
      | _ => Seq (atom c) (compileI p')
      end
  end.

(** ** What a match consumes *)

(** The number [n] of iterations allowed by the bounds of a quantifier. *)
Definition within (min : nat) (max : option nat) (n : nat) : Prop :=
  match max with
  | Some j => Nat.min min j <= n /\ n <= j
  | None => min <= n
  end.

(** The words a pattern can consume, whatever the order of the attempts;
    the assertions [^] and [$] consume nothing. *)
Fixpoint lang (r : regex) (w : jsstring) : Prop :=
  match r with
  | Empty => w = []
  | Class p => exists c, w = [c] /\ p c = true
  | Seq r1 r2 => exists w1 w2, w = w1 ++ w2 /\ lang r1 w1 /\ lang r2 w2
  | Alt r1 r2 => lang r1 w \/ lang r2 w
  | Quant min max _ r1 =>
      exists ws, w = concat ws /\ Forall (lang r1) ws /\ within min max (length ws)
  | Group _ r1 => lang r1 w
  | Bol => w = []
  | Eol => w = []
  end.

(** [y] is reached from [x] by consuming the word [w]. *)
Definition consumes (x y : state) (w : jsstring) : Prop :=
  rest x = w ++ rest y /\ endIndex y = endIndex x + length w.

(** The state reached from [x] by consuming the word [w]. *)
Definition advance (x : state) (w : jsstring) : state :=
  mkState (length w + endIndex x) (skipn (length w) (rest x)) (captures x).

(** The longest prefix of [s] made of code units of the class [p]. *)
Fixpoint takeWhile (p : N -> bool) (s : jsstring) : jsstring :=
  match s with
  | c :: s' => if p c then c :: takeWhile p s' else []
  | [] => []
  end.

(** A lower bound on the length of the words of a pattern. *)
Fixpoint minLength (r : regex) : nat :=
  match r with
  | Empty => 0
  | Class _ => 1
  | Seq r1 r2 => minLength r1 + minLength r2
  | Alt r1 r2 => Nat.min (minLength r1) (minLength r2)
  | Quant min max _ r1 =>
      match max with Some j => Nat.min min j | None => min end * minLength r1
  | Group _ r1 => minLength r1
  | Bol => 0
  | Eol => 0
  end.

(** Group [n] has a capture in the state. *)
Definition captured (n : nat) (x : state) : Prop := assoc n (captures x) <> None.

(** Group [n] takes part in every match of the pattern. *)
Fixpoint binds (n : nat) (r : regex) : bool :=
  match r with
  | Group k r1 => (k =? n) || binds n r1
  | Seq r1 r2 => binds n r1 || binds n r2
  | Alt r1 r2 => binds n r1 && binds n r2
  | _ => false
  end.

End Re.

(* ================================================================= *)
(** * Completions *)

(** Outcome of running a piece of the source: a value, or an abnormal end
    (an exception such as calling a method on [null] or [undefined], or a
    loop that never ends). *)
Inductive completion (A : Type) : Type :=
| Normal (a : A)
| Abnormal.

Arguments Normal {A} a.
Arguments Abnormal {A}.

Definition bind {A B : Type} (c : completion A) (k : A -> completion B) : completion B :=
  match c with
  | Normal a => k a
  | Abnormal => Abnormal
  end.

Notation "x <- c ;; k" := (bind c (fun x => k))
  (at level 61, c at next level, right associativity).

(** [c] when it is defined; using [undefined] as a string is abnormal. *)
Definition defined {A : Type} (o : option A) : completion A :=
  match o with
  | Some a => Normal a
  | None => Abnormal
  end.

(** [xs.map(f)] with the 0-based index, for an [f] that may throw. *)
Fixpoint mapM {A B : Type} (f : nat -> A -> completion B) (i : nat) (xs : list A)
  : completion (list B) :=
  match xs with
  | [] => Normal []
  | x :: xs' => y <- f i x ;; ys <- mapM f (S i) xs' ;; Normal (y :: ys)
  end.

(** The loop [xs.forEach] or [while] threading a state through a body
    that may end abnormally. *)
Fixpoint foldM {A S : Type} (f : S -> A -> completion S) (xs : list A) (s : S)
  : completion S :=
  match xs with
  | [] => Normal s
  | x :: xs' => s' <- f s x ;; foldM f xs' s'
  end.

(* ================================================================= *)
(** * The extractor: data *)

(** Raw transaction object built by the parser; [None] is [null]. *)
Record transaction := mkTransaction {
  date : jsstring;
  valeur : jsstring;
  nature : jsstring;
  debit : option jsstring;
  credit : option jsstring
}.

Record categorization := mkCategorization {
  category : jsstring;
  confidence : jsstring
}.

(** Expense object built by [processTransactions]. *)
Record expense := mkExpense {
  index : nat;
  expDate : jsstring;
  center : jsstring;
  client : jsstring;
  amountWithTaxes : jsstring;
  amountWithoutTaxes : jsstring;
  worker : jsstring;
  taxes : jsstring;
  typeOfTransaction : jsstring;
  typeOfMovement : jsstring;
  frequency : jsstring;
  typeOfClient : jsstring;
  service : jsstring;
  confidenceLevel : jsstring;
  rawNature : jsstring
}.

(** Truthiness of a value that is [null] or a string. *)
Definition truthy (o : option jsstring) : bool :=
  match o with
  | Some (_ :: _) => true
  | _ => false
  end.

(** [a === b] for [a] that is [null] or a string and [b] a string. *)
Definition strictEq (a : option jsstring) (b : jsstring) : bool :=
  match a with
  | Some s => Str.eqb s b
  | None => false
  end.

(** [this.costCategories] *)
Definition costCategories : list jsstring :=
  [ js "ASSURANCE";
    js "CHARGES SOCIALES";
    js "CREDIT CABINET";
    js "FRAIS BANQUE";
    js "GYM";
    js "INTERNET";
    js "LEASING MOTO";
    js "LEASING VOITURE";
    js "LOGICIEL CABINET";
    js "LOYER CABINET";
    js "MASSE SALARIALE";
    js "MATERIEL CABINET";
    js "MUTUELLE";
    js "MUTUELLE SALARI" ++ [201%N];
    js "PREVOYANCE";
    js "TPE BANQUE";
    js "URSSAF/CHARGES SOCIALES" ].

Definition fuzzyRules : list (jsstring * list jsstring) :=
  [ (js "MASSE SALARIALE",
      [js "VIR INSTANTANE EMIS NET"; js "VIREMENT SALAIRE"; js "PAIE"; js "REMUNERATION"; js "SALAIRE"]);
    (js "FRAIS BANQUE",
      [js "FRAIS"; js "BANCAIRE"; js "COMMISSION"; js "AGIOS"; js "COTISATION CARTE"; js "TENUE COMPTE"]);
    (js "INTERNET",
      [js "ORANGE"; js "SFR"; js "BOUYGUES"; js "FREE"; js "TELECOM"; js "INTERNET"; js "MOBILE"; js "FIBRE"]);
    (js "ASSURANCE",
      [js "ASSURANCE"; js "ASSUR"; js "MAIF"; js "MACIF"; js "AXA"; js "ALLIANZ"; js "GENERALI"]);
    (js "LOYER CABINET",
      [js "LOYER"; js "LOCATION"; js "BAIL"; js "IMMOBILIER"; js "CABINET"; js "LOCAL"]);
    (js "GYM",
      [js "GYM"; js "FITNESS"; js "SPORT"; js "CLUB"; js "SALLE DE SPORT"; js "MUSCULATION"]);
    (js "CHARGES SOCIALES",
      [js "URSSAF"; js "SOCIAL"; js "COTISATION"; js "SECU"; js "RETRAITE"; js "POLE EMPLOI"]);
    (js "LEASING MOTO",
      [js "LEASING.*MOTO"; js "LOCATION.*MOTO"; js "SCOOTER"; js "DEUX ROUES"]);
    (js "LEASING VOITURE",
      [js "LEASING.*VOITURE"; js "LOCATION.*VEHICULE"; js "AUTO"; js "VOITURE"]);
    (js "MUTUELLE",
      [js "MUTUELLE"; js "COMPLEMENTAIRE"; js "SANTE"; js "MEDICAL"]);
    (js "MATERIEL CABINET",
      [js "MATERIEL"; js "EQUIPEMENT"; js "FOURNITURE"; js "MOBILIER"]);
    (js "LOGICIEL CABINET",
      [js "LOGICIEL"; js "SOFTWARE"; js "LICENCE"; js "ABONNEMENT.*INFORMATIQUE"]);
    (js "PREVOYANCE",
      [js "PREVOYANCE"; js "DECES"; js "INVALIDITE"; js "INCAPACITE"]);
    (js "TPE BANQUE",
      [js "TPE"; js "TERMINAL"; js "PAIEMENT"; js "MONETIQUE"]) ].

Definition debitKeywords : list jsstring :=
  [ js "PRELEVEMENT"; js "VIREMENT EMIS"; js "VIR EMIS"; js "VIR INSTANTANE EMIS";
    js "FRAIS"; js "COMMISSION"; js "COTISATION"; js "ABONNEMENT"; js "FACTURE";
    js "PAIEMENT"; js "RETRAIT"; js "CARTE"; js "CB "; js "CHEQUE"; js "ACHAT";
    js "LOCATION"; js "LOYER"; js "ASSURANCE"; js "MUTUELLE"; js "INTERNET";
    js "TELEPHONE"; js "ELECTRICITE"; js "GAZ"; js "EAU"; js "SALAIRE"; js "PAIE";
    js "REMUNERATION"; js "VIREMENT SALAIRE"; js "VIREMENT PAIE"; js "MASSE SALARIALE" ].

Definition creditKeywords : list jsstring :=
  [ js "VIREMENT RECU"; js "VIR RECU"; js "VIR INSTANTANE RECU"; js "REMISE CB";
    js "VERSEMENT RECU"; js "DEPOT ESPECE"; js "ENCAISSEMENT" ].

Definition monthlyKeywords : list jsstring :=
  [ js "LOYER"; js "ABONNEMENT"; js "ASSURANCE"; js "MUTUELLE"; js "INTERNET"; js "TELEPHONE" ].

Definition occasionalKeywords : list jsstring :=
  [ js "ACHAT"; js "FACTURE"; js "REPARATION"; js "MAINTENANCE" ].

(** ** The patterns of the source *)

Module Pat.
Import Re.

Definition slash : regex := chr 47.
Definition comma : regex := chr 44.

(** [\d{2}\/\d{2}\/\d{4}] *)
Definition dmy : regex :=
  seqs [times 2 digit; slash; times 2 digit; slash; times 4 digit].

(** [\d{1,3}(?:\s?\d{3})*,\d{2}|\d+,\d{2}] *)
Definition amountStrict : regex :=
  Alt (seqs [range 1 3 digit; star (Seq (opt space) (times 3 digit)); comma; times 2 digit])
      (seqs [plus digit; comma; times 2 digit]).

(** [\d[\d\s]*,\d{2}] *)
Definition amountLoose : regex :=
  seqs [digit; star (Class (fun c => isDigit c || Str.isWhiteSpace c)); comma; times 2 digit].

(** [(\d{1,3}(?:\s\d{3})*,\d{2}|\d+,\d{2})] *)
Definition amountLine : regex :=
  Group 1
    (Alt (seqs [range 1 3 digit; star (Seq space (times 3 digit)); comma; times 2 digit])
         (seqs [plus digit; comma; times 2 digit])).

(** [(\d{1,3}(?:\s\d{3})*,\d{2}|\d+,\d{2}|\d+)] *)
Definition amountOrNumber : regex :=
  Group 1
    (alts [seqs [range 1 3 digit; star (Seq space (times 3 digit)); comma; times 2 digit];
           seqs [plus digit; comma; times 2 digit];
           plus digit]).

(** The three patterns of [parseTransactions], each with the number of
    its capturing groups ([match.length] is one more). *)
Definition patterns : list (regex * nat) :=
  [ (seqs [Group 1 dmy; plus space; Group 2 dmy; plus space;
           Group 3 (plusLazy dot); plus space; Group 4 amountStrict], 4);
    (seqs [Group 1 dmy; plus space; Group 2 dmy; plus space;
           Group 3 (plusLazy dot); plus space; Group 4 amountLoose], 4);
    (seqs [Group 1 dmy; plus space; Group 2 (plusLazy dot); plus space;
           Group 3 amountStrict], 3) ].

(** The class [[^0-9\n]]. *)
Definition inMarkedName (c : N) : bool := negb (isDigit c || N.eqb c 10).

(** [/POUR:\s*([^0-9\n]+)/i] and [/DE:\s*([^0-9\n]+)/i], which differ by
    their marker only. *)
Definition afterMarker (marker : jsstring) : regex :=
  seqs [litI marker; star space; Group 1 (plus (Class inMarkedName))].
Definition pour : regex := afterMarker (js "POUR:").
Definition de : regex := afterMarker (js "DE:").

(** The five leading patterns removed by [extractClientName]. *)
Definition prefix1 : regex :=
  seqs [Bol; Group 1 (alts [litI (js "PRELEVEMENT"); litI (js "VIREMENT"); litI (js "PAIEMENT")]);
        star space].
Definition prefix2 : regex :=
  seqs [Bol; opt (Group 1 (Seq (litI (js "EUROPEEN")) (star space)));
        litI (js "SEPA"); star space].
Definition prefix3 : regex :=
  seqs [Bol; opt (Group 1 (Seq (litI (js "INSTANTANE")) (star space)));
        litI (js "EMIS"); star space; litI (js "NET"); star space].
Definition prefix4 : regex :=
  seqs [Bol; Group 1 (alts [litI (js "DE"); litI (js "DU"); litI (js "LA"); litI (js "LE");
                            litI (js "LES")]);
        chr 58; star space].
Definition prefix5 : regex :=
  seqs [Bol; Group 1 (alts [litI (js "POUR"); litI (js "PAR")]); chr 58; star space].

(** [/^\d/] *)
Definition leadingDigit : regex := Seq Bol digit.

(** [/^(DE|DU|LA|LE|LES|POUR|PAR|ET|OU|AVEC|SANS|REF|DATE|MOTIF)$/i] *)
Definition stopword : regex :=
  seqs [Bol;
        Group 1 (alts (map litI
          [js "DE"; js "DU"; js "LA"; js "LE"; js "LES"; js "POUR"; js "PAR"; js "ET";
           js "OU"; js "AVEC"; js "SANS"; js "REF"; js "DATE"; js "MOTIF"]));
        Eol].

(** The class [[^a-zA-Z\u00C0-\u00FF0-9\s\-\.]] *)
Definition outsideName (c : N) : bool :=
  negb (((97 <=? c) && (c <=? 122)) || ((65 <=? c) && (c <=? 90))
        || ((192 <=? c) && (c <=? 255)) || isDigit c
        || Str.isWhiteSpace c || (c =? 45) || (c =? 46))%N.

(** [/[^a-zA-Z\u00C0-\u00FF0-9\s\-\.]/] *)
Definition notNameChar : regex := Class outsideName.

End Pat.

(* ================================================================= *)
(** * The extractor: operations *)

Section BankStatementExtractor.

(** [String.prototype.toUpperCase]. *)
Variable toUpperCase : jsstring -> jsstring.

(** [isDebitTransaction(line, nature)] *)
Definition isDebitTransaction (line nature : jsstring) : bool :=
  let upperLine := toUpperCase (line ++ js " " ++ nature) in
  if existsb (fun keyword => Str.includes upperLine keyword) creditKeywords then false
  else if existsb (fun keyword => Str.includes upperLine keyword) debitKeywords then true
  else true.

(** [categorizeTransaction(nature)] *)
Definition categorizeTransaction (nature : jsstring) : categorization :=
  let upperNature := toUpperCase nature in
  match find (fun category => Str.includes upperNature category) costCategories with
  | Some category => mkCategorization category (js "high")
  | None =>
      match find (fun rule =>
                    existsb (fun keyword => Re.test (Re.compileI keyword) upperNature)
                            (snd rule))
                 fuzzyRules with
      | Some rule => mkCategorization (fst rule) (js "medium")
      | None => mkCategorization (js "AUTRES") (js "low")
      end
  end.

(** [s.replace(/\s+/g, ' ')] *)
Definition collapseSpaces (s : jsstring) : jsstring :=
  Re.replaceG (Re.plus Re.space) (js " ") s.

(** The test of the [filter] in [extractClientName]. *)
Definition meaningful (word : jsstring) : bool :=
  (2 <? length word) && negb (Re.test Pat.leadingDigit word)
  && negb (Re.test Pat.stopword word).

(** [extractClientName(nature)] *)
Definition extractClientName (nature : jsstring) : completion jsstring :=
  let general :=
    let cleanNature :=
      Re.replace Pat.prefix5 []
        (Re.replace Pat.prefix4 []
          (Re.replace Pat.prefix3 []
            (Re.replace Pat.prefix2 []
              (Re.replace Pat.prefix1 [] nature)))) in
    let words := Re.split (Re.plus Re.space) cleanNature in
    let meaningfulWords := filter meaningful words in
    let clientName := Str.trim (Str.join (js " ") (firstn 5 meaningfulWords)) in
    match Str.trim (Re.replaceG Pat.notNameChar (js " ") (collapseSpaces clientName)) with
    | [] => Normal (js "Unknown Client")
    | name => Normal name
    end in
  if Str.includes nature (js "VIR INSTANTANE EMIS NET") then
    match Re.exec Pat.pour nature with
    | Some m => g <- defined (Re.group 1 m) ;; Normal (collapseSpaces (Str.trim g))
    | None => Normal (js "Salary Payment")
    end
  else if Str.includes nature (js "PRELEVEMENT EUROPEEN") then
    match Re.exec Pat.de nature with
    | Some m => g <- defined (Re.group 1 m) ;; Normal (collapseSpaces (Str.trim g))
    | None => general
    end
  else general.

(** [determineMovementType(nature)] *)
Definition determineMovementType (nature : jsstring) : jsstring :=
  let upperNature := toUpperCase nature in
  if Str.includes upperNature (js "PRELEVEMENT") then js "direct_debit"
  else if Str.includes upperNature (js "VIREMENT") then js "transfer"
  else if Str.includes upperNature (js "CARTE") || Str.includes upperNature (js "CB")
       then js "card"
  else if Str.includes upperNature (js "CHEQUE") then js "check"
  else js "other".

(** [determineFrequency(nature)] *)
Definition determineFrequency (nature : jsstring) : jsstring :=
  let upperNature := toUpperCase nature in
  if existsb (fun keyword => Str.includes upperNature keyword) monthlyKeywords
  then js "monthly"
  else if existsb (fun keyword => Str.includes upperNature keyword) occasionalKeywords
  then js "occasional"
  else js "unknown".

(** [parseTransactionLine(line)]; [None] is the [null] result. *)
Definition parseTransactionLine (line : jsstring) : option transaction :=
  match Re.matchG (Re.Group 1 Pat.dmy) line with
  | None => None
  | Some dates =>
      match Re.matchG Pat.amountOrNumber line with
      | None => None
      | Some amounts =>
          let date := hd [] dates in
          let valeur := if truthy (nth_error dates 1) then nth 1 dates [] else hd [] dates in
          let nature := fold_left Str.removeFirst amounts (fold_left Str.removeFirst dates line) in
          let nature := collapseSpaces (Str.trim nature) in
          let lastAmount := last amounts [] in
          let isDebit := isDebitTransaction line nature in
          Some (mkTransaction date valeur nature
                  (if isDebit then Some lastAmount else None)
                  (if negb isDebit then Some lastAmount else None))
      end
  end.

(** The results pushed for one line by [parseTransactionsLineByLine]. *)
Definition parsedDebit (line : jsstring) : list transaction :=
  match parseTransactionLine line with
  | Some transaction => if truthy (debit transaction) then [transaction] else []
  | None => []
  end.

Definition startsWithDate (line : jsstring) : bool := Re.test (Re.Seq Re.Bol Pat.dmy) line.

(** The test of the inner [while]: a following line is appended when it
    is not empty and does not start with a date. *)
Definition continues (nextLine : jsstring) : bool :=
  truthy (Some nextLine) && negb (startsWithDate nextLine).

Definition isSectionHeader (line : jsstring) : bool :=
  Str.includes line (js "RELEV" ++ [201%N] ++ js " DES OP" ++ [201%N] ++ js "RATIONS")
  || Str.includes line (js "RELEVE DES OPERATIONS")
  || (Str.includes line (js "Date") && Str.includes line (js "Valeur")).

(** The [for] loop of [parseTransactionsLineByLine] from a given line on:
    [lines] are the lines from index [i] on. *)
Fixpoint lineByLineFrom (inOperationsSection : bool) (lines : list jsstring)
  : list transaction :=
  match lines with
  | [] => []
  | l :: ls =>
      let line := Str.trim l in
      if isSectionHeader line then lineByLineFrom true ls
      else if negb inOperationsSection || (length line =? 0) then
        lineByLineFrom inOperationsSection ls
      else
        let direct :=
          if Re.test Pat.amountLine line && Re.test Pat.dmy line
          then parsedDebit line else [] in
        if startsWithDate line then
          let combined (fullTransaction : jsstring) :=
            if negb (Re.test Pat.amountLine line) then parsedDebit fullTransaction else [] in
          match ls with
          | n1 :: ls1 =>
              if continues (Str.trim n1) then
                let full1 := line ++ js " " ++ Str.trim n1 in
                match ls1 with
                | n2 :: ls2 =>
                    if continues (Str.trim n2) then
                      direct ++ combined (full1 ++ js " " ++ Str.trim n2)
                      ++ lineByLineFrom inOperationsSection ls2
                    else direct ++ combined full1 ++ lineByLineFrom inOperationsSection ls1
                | [] => direct ++ combined full1 ++ lineByLineFrom inOperationsSection ls1
                end
              else direct ++ combined line ++ lineByLineFrom inOperationsSection ls
          | [] => direct ++ combined line ++ lineByLineFrom inOperationsSection ls
          end
        else direct ++ lineByLineFrom inOperationsSection ls
  end.

(** [parseTransactionsLineByLine(lines)] *)
Definition parseTransactionsLineByLine (lines : list jsstring) : list transaction :=
  lineByLineFrom false lines.

(** The duplicate test of the pattern loop, for a candidate with the
    given date, amount and description. *)
Definition isDuplicate (transactions : list transaction)
    (newDate newAmount newNature : jsstring) : bool :=
  existsb (fun t =>
    Str.eqb t.(date) newDate
    && strictEq t.(debit) newAmount
    && (Str.eqb (Str.substring0 30 t.(nature)) (Str.substring0 30 newNature)
        || Str.includes (Str.substring0 30 newNature) (Str.substring0 30 t.(nature))))
    transactions.

(** The duplicate test of the merge with the line-by-line results. *)
Definition isDuplicateMerge (transactions : list transaction) (newTx : transaction) : bool :=
  existsb (fun existingTx =>
    Str.eqb existingTx.(date) newTx.(date)
    && match newTx.(debit) with
       | Some d => strictEq existingTx.(debit) d
       | None => match existingTx.(debit) with None => true | Some _ => false end
       end
    && Str.eqb (Str.substring0 20 existingTx.(nature)) (Str.substring0 20 newTx.(nature)))
    transactions.

(** The destructuring of a match array of a pattern with [n] capturing
    groups into date, value date, description and amount.  The source
    goes on to call [nature.substring], which throws when the
    description is [undefined]; here every capture that is used has to be
    defined. *)
Definition candidate (n : nat) (m : Re.matchResult)
  : completion (jsstring * jsstring * jsstring * jsstring) :=
  if n + 1 =? 5 then
    d <- defined (Re.group 1 m) ;; v <- defined (Re.group 2 m) ;;
    nat_ <- defined (Re.group 3 m) ;; a <- defined (Re.group 4 m) ;;
    Normal (d, v, nat_, a)
  else if n + 1 =? 4 then
    d <- defined (Re.group 1 m) ;; nat_ <- defined (Re.group 2 m) ;;
    a <- defined (Re.group 3 m) ;;
    Normal (d, d, nat_, a)
  else Abnormal.

(** One turn of the [while] loop of [parseTransactions] on the match [m]
    of a pattern with [n] groups.  [exec] leaves [lastIndex] where the
    match ended, so an empty match would be found again for ever. *)
Definition addCandidate (n : nat) (transactions : list transaction) (m : Re.matchResult)
  : completion (list transaction) :=
  if Re.lastIndex m =? Re.index m then Abnormal
  else
    c <- candidate n m ;;
    let '(newDate, newValeur, newNature, amount) := c in
    if isDuplicate transactions newDate amount newNature then Normal transactions
    else if isDebitTransaction (Re.matched m) newNature then
      Normal (transactions ++
              [mkTransaction newDate newValeur (Str.trim newNature) (Some amount) None])
    else
      Normal (transactions ++
              [mkTransaction newDate newValeur (Str.trim newNature) None (Some amount)]).

(** The loop over the three patterns. *)
Definition patternLoop (text : jsstring) : completion (list transaction) :=
  foldM (fun transactions pattern =>
           foldM (addCandidate (snd pattern)) (Re.matchAll (fst pattern) text) transactions)
        Pat.patterns [].

(** One turn of the merge loop. *)
Definition mergeOne (transactions : list transaction) (newTx : transaction)
  : list transaction :=
  if isDuplicateMerge transactions newTx then transactions else transactions ++ [newTx].

(** [parseTransactions(text)] *)
Definition parseTransactions (text : jsstring) : completion (list transaction) :=
  let lines := Str.splitChar 10 text in
  transactions <- patternLoop text ;;
  let lineByLineTransactions := parseTransactionsLineByLine lines in
  let transactions := fold_left mergeOne lineByLineTransactions transactions in
  Normal (filter (fun t => truthy t.(debit)) transactions).

(** The expense built for the transaction at 0-based position [i].  The
    local [amount] of the source, a floating-point number obtained with
    [parseFloat], is computed and never used: it is not part of the
    object. *)
Definition processTransaction (i : nat) (t : transaction) : completion expense :=
  let categorization := categorizeTransaction t.(nature) in
  clientName <- extractClientName t.(nature) ;;
  let movementType := determineMovementType t.(nature) in
  let frequency := determineFrequency t.(nature) in
  d <- defined t.(debit) ;;
  let amountStr := Re.replaceG Re.space [] d in
  Normal (mkExpense (i + 1) t.(date) [] clientName (amountStr ++ [8364%N]) [] [] []
            (js "cost") movementType frequency (js "service")
            categorization.(category) categorization.(confidence) t.(nature)).

(** [processTransactions(transactions)] *)
Definition processTransactions (transactions : list transaction)
  : completion (list expense) :=
  mapM processTransaction 0 transactions.

(** The core pipeline: [processTransactions(parseTransactions(text))]. *)
Definition pipeline (text : jsstring) : completion (list expense) :=
  transactions <- parseTransactions text ;;
  processTransactions transactions.

(** ** The helpers that nothing calls *)

(** [isDateLine(line)] *)
Definition isDateLine (line : jsstring) : bool :=
  Re.test (Re.Seq Re.Bol Pat.dmy) (Str.trim line).

(** [startNewTransaction(line)] *)
Definition startNewTransaction (line : jsstring) : transaction :=
  let dateMatch := Re.exec (Re.Group 1 Pat.dmy) line in
  mkTransaction (match dateMatch with Some m => Re.matched m | None => [] end)
                [] [] None None.

(** The elements 0 and 1 of the array returned by a match of a pattern
    with one group, as [forEach] visits them; an [undefined] element
    would be turned into the string "undefined" by [replace]. *)
Definition matchElements (m : Re.matchResult) : list jsstring :=
  [Re.matched m; match Re.group 1 m with Some g => g | None => js "undefined" end].

(** [addToTransaction(transaction, line)]: the object after the call. *)
Definition addToTransaction (tx : transaction) (line : jsstring) : transaction :=
  let dateMatch := Re.exec (Re.Group 1 Pat.dmy) line in
  let newValeur :=
    match dateMatch with
    | Some m => if negb (truthy (Some tx.(valeur))) then Re.matched m
                else tx.(valeur)
    | None => tx.(valeur)
    end in
  let amountMatch := Re.matchG Pat.amountOrNumber line in
  let columns :=
    match amountMatch with
    | Some amounts =>
        let amount := last amounts [] in
        if isDebitTransaction line tx.(nature)
        then (Some amount, tx.(credit))
        else (tx.(debit), Some amount)
    | None => (tx.(debit), tx.(credit))
    end in
  let cleanLine := line in
  let cleanLine :=
    match dateMatch with
    | Some m => fold_left Str.removeFirst (matchElements m) cleanLine
    | None => cleanLine
    end in
  let cleanLine :=
    match amountMatch with
    | Some amounts => fold_left Str.removeFirst amounts cleanLine
    | None => cleanLine
    end in
  let cleanLine := Str.trim cleanLine in
  let newNature :=
    if truthy (Some cleanLine) && negb (Str.includes tx.(nature) cleanLine)
    then tx.(nature) ++ js " " ++ cleanLine
    else tx.(nature) in
  mkTransaction tx.(date) newValeur newNature (fst columns) (snd columns).

End BankStatementExtractor.

(* ================================================================= *)
(** * Vocabulary of the properties *)

(** [k] occurs in [s]. *)
Definition occursIn (k s : jsstring) : Prop :=
  exists pre post, s = pre ++ k ++ post.

(** The category enumeration of the specification's glossary. *)
Definition glossaryCategories : list jsstring :=
  [ js "MASSE SALARIALE"; js "FRAIS BANQUE"; js "INTERNET"; js "ASSURANCE";
    js "LOYER CABINET"; js "GYM"; js "CHARGES SOCIALES"; js "LEASING MOTO";
    js "LEASING VOITURE"; js "MUTUELLE"; js "MATERIEL CABINET"; js "LOGICIEL CABINET";
    js "PREVOYANCE"; js "TPE BANQUE"; js "AUTRES" ].

Definition confidenceLevels : list jsstring := [js "high"; js "medium"; js "low"].

(** ** Where a transaction comes from *)

Section Provenance.

Variable toUpperCase : jsstring -> jsstring.

(** No credit keyword occurs in the text handed to the debit/credit
    classifier for a line and a description. *)
Definition noCreditKeyword (line description : jsstring) : Prop :=
  forall keyword, In keyword creditKeywords ->
    ~ occursIn keyword (toUpperCase (line ++ js " " ++ description)).

(** [t] is the object built by the pattern loop for a match [m] of one of
    the three patterns on [text]; [line] is the matched text and
    [description] the captured description, as given to the classifier. *)
Definition fromPattern (text : jsstring) (t : transaction) (line description : jsstring)
  : Prop :=
  exists pattern m d v a,
    In pattern Pat.patterns /\ In m (Re.matchAll (fst pattern) text)
    /\ candidate (snd pattern) m = Normal (d, v, description, a)
    /\ line = Re.matched m
    /\ t = mkTransaction d v (Str.trim description)
             (if isDebitTransaction toUpperCase line description then Some a else None)
             (if isDebitTransaction toUpperCase line description then None else Some a).

(** The objects held by the pattern loop all come from matches of the
    patterns on the text. *)
Definition patternBuilt (text : jsstring) (transactions : list transaction) : Prop :=
  Forall (fun t => exists line description, fromPattern text t line description)
         transactions.

(** [t] is the object built by the line scan for [line], which is one
    line of [text], or a line and the one or two lines after it joined by
    spaces, each of them trimmed. *)
Definition fromLines (text : jsstring) (t : transaction) (line description : jsstring)
  : Prop :=
  exists before ls after,
    Str.splitChar 10 text = before ++ ls ++ after
    /\ ls <> [] /\ length ls <= 3
    /\ line = Str.join (js " ") (map Str.trim ls)
    /\ parseTransactionLine toUpperCase line = Some t
    /\ description = t.(nature).

(** What the line scan pushes: the parse of a line, or of a line joined
    with the one or two lines after it, where the first of these lines
    holds a date. *)
Definition pushedFor (ls : list jsstring) (t : transaction) : Prop :=
  ls <> [] /\ length ls <= 3
  /\ In t (parsedDebit toUpperCase (Str.join (js " ") (map Str.trim ls)))
  /\ (Re.test Pat.dmy (Str.trim (hd [] ls)) = true
      \/ startsWithDate (Str.trim (hd [] ls)) = true).

(** What C4 says of a returned transaction: the debit amount is there,
    the credit field is [null], and the transaction was built from a
    candidate in which the classifier saw no credit keyword. *)
Definition debitOnly (text : jsstring) (t : transaction) : Prop :=
  (exists a, t.(debit) = Some a /\ a <> [])
  /\ t.(credit) = None
  /\ exists line description,
       (fromPattern text t line description \/ fromLines text t line description)
       /\ isDebitTransaction toUpperCase line description = true
       /\ noCreditKeyword line description.

End Provenance.

(** ** Dates *)

(** [d] is written DD/MM/YYYY. *)
Definition dateShaped (d : jsstring) : bool :=
  match d with
  | [a; b; s1; c; e; s2; f; g; h; i] =>
      forallb Re.isDigit [a; b; c; e; f; g; h; i] && N.eqb s1 47 && N.eqb s2 47
  | _ => false
  end.

Definition hasDate (text : jsstring) : Prop :=
  exists d, dateShaped d = true /\ occursIn d text.

(** [hasDate], decided by looking at every position. *)
Fixpoint hasDateb (text : jsstring) : bool :=
  dateShaped (firstn 10 text)
  || match text with
     | [] => false
     | _ :: text' => hasDateb text'
     end.

(** ** Inputs of the scenarios *)

(** The line of Scenario 1. *)
Definition scenario1 : jsstring :=
  js "02/01/2025 02/01/2025 VIR INSTANTANE EMIS NET POUR: M. JORGE GOENAGA PEREZ 2 000,00".

(** The transaction found for it by the first pattern. *)
Definition salaryTransfer : transaction :=
  mkTransaction (js "02/01/2025") (js "02/01/2025")
    (js "VIR INSTANTANE EMIS NET POUR: M. JORGE GOENAGA PEREZ") (Some (js "2 000,00")) None.

(** The one found by the third pattern, whose description starts with the
    value date. *)
Definition salaryTransferAgain : transaction :=
  mkTransaction (js "02/01/2025") (js "02/01/2025")
    (js "02/01/2025 VIR INSTANTANE EMIS NET POUR: M. JORGE GOENAGA PEREZ")
    (Some (js "2 000,00")) None.

(** The record built from a transaction of Scenario 1 at position [i]. *)
Definition salaryRecord (i : nat) (t : transaction) : expense :=
  mkExpense i (js "02/01/2025") [] (js "M. JORGE GOENAGA PEREZ") (js "2000,00" ++ [8364%N])
    [] [] [] (js "cost") (js "other") (js "unknown") (js "service")
    (js "MASSE SALARIALE") (js "medium") t.(nature).

(** Every string field of a record. *)
Definition textFields (e : expense) : list jsstring :=
  [ e.(expDate); e.(center); e.(client); e.(amountWithTaxes); e.(amountWithoutTaxes);
    e.(worker); e.(taxes); e.(typeOfTransaction); e.(typeOfMovement); e.(frequency);
    e.(typeOfClient); e.(service); e.(confidenceLevel); e.(rawNature) ].

(** A kept debit of one euro on the first of January, with the given
    description. *)
Definition oneEuro (description : jsstring) : transaction :=
  mkTransaction (js "01/01/2025") (js "01/01/2025") description (Some (js "1,00")) None.

(** ** Splitting and replacing on a class, written directly *)

(** [c] put in front of the first piece. *)
Definition consHead (c : N) (pieces : list jsstring) : list jsstring :=
  match pieces with
  | l :: ls => (c :: l) :: ls
  | [] => [[c]]
  end.

(** The pieces of [s] between the maximal runs of code units of the class
    [p]; [inRun] tells that the code unit before [s] was in a run. *)
Fixpoint splitRuns (p : N -> bool) (inRun : bool) (s : jsstring) : list jsstring :=
  match s with
  | [] => [[]]
  | c :: s' =>
      if p c then (if inRun then splitRuns p true s' else [] :: splitRuns p true s')
      else consHead c (splitRuns p false s')
  end.

(** Every code unit of the class [p] replaced by [by_]. *)
Definition replaceEach (p : N -> bool) (by_ : jsstring) (s : jsstring) : jsstring :=
  flat_map (fun c => if p c then by_ else [c]) s.

(** [cur] put in front of the first piece. *)
Definition prependTo (cur : jsstring) (pieces : list jsstring) : list jsstring :=
  match pieces with
  | l :: ls => (cur ++ l) :: ls
  | [] => [cur]
  end.

(** ** Markers in a description *)

(** The non-empty suffixes of a string. *)
Fixpoint tails (s : jsstring) : list jsstring :=
  match s with
  | [] => []
  | c :: s' => (c :: s') :: tails s'
  end.

(** [w] reads as the upper-case [marker] when the case of Basic Latin
    letters is ignored. *)
Definition readsAs (marker w : jsstring) : bool :=
  Str.eqb (map Re.upperAscii w) marker.

(** No occurrence of [marker] starts inside [pre] when [pre] is followed
    by [mk]. *)
Definition firstOccurrence (marker pre mk : jsstring) : bool :=
  forallb (fun t => negb (readsAs marker (firstn (length marker) (t ++ mk)))) (tails pre).

(** The first occurrence of [marker] in [description] is followed, after
    white space if any, by the code unit [c], which is neither white
    space nor a digit, and then by [rest]. *)
Definition markerFollowed (marker description : jsstring) (c : N) (rest : jsstring) : Prop :=
  exists pre mk ws,
    description = pre ++ mk ++ ws ++ c :: rest
    /\ readsAs marker mk = true
    /\ firstOccurrence marker pre mk = true
    /\ forallb Str.isWhiteSpace ws = true
    /\ Str.isWhiteSpace c = false
    /\ Re.isDigit c = false.

(** ** Names that are already clean *)

(** Letters, accented Latin letters, digits, hyphen and period. *)
Definition nameChar (c : N) : bool :=
  (((97 <=? c) && (c <=? 122)) || ((65 <=? c) && (c <=? 90))
   || ((192 <=? c) && (c <=? 255)) || Re.isDigit c || (c =? 45) || (c =? 46))%N.

(** [s] starts with the upper-case [k] when the case of Basic Latin
    letters is ignored. *)
Definition startsWithI (s k : jsstring) : bool := readsAs k (firstn (length k) s).

(** The leading words that [extractClientName] strips, and the two
    words after which it strips one in a second position. *)
Definition boilerplate : list jsstring :=
  [ js "PRELEVEMENT"; js "VIREMENT"; js "PAIEMENT"; js "EUROPEEN"; js "SEPA";
    js "INSTANTANE"; js "EMIS"; js "DE:"; js "DU:"; js "LA:"; js "LE:"; js "LES:";
    js "POUR:"; js "PAR:" ].

Definition stopwords : list jsstring :=
  [ js "DE"; js "DU"; js "LA"; js "LE"; js "LES"; js "POUR"; js "PAR"; js "ET";
    js "OU"; js "AVEC"; js "SANS"; js "REF"; js "DATE"; js "MOTIF" ].

(** A word that the extractor keeps as it is: three characters or more,
    all of them name characters, the first not a digit, not a stop word. *)
Definition cleanWord (w : jsstring) : bool :=
  (2 <? length w) && forallb nameChar w && negb (Re.isDigit (hd 0%N w))
  && negb (existsb (fun k => readsAs k w) stopwords).

(** A word of the name: not empty and without white space. *)
Definition solid (w : jsstring) : Prop :=
  w <> [] /\ forallb (fun c => negb (Str.isWhiteSpace c)) w = true.

(** A name in clean form: one to five clean words, which joined by single
    spaces do not start with a stripped leading word and contain neither
    of the two wordings that select a marker. *)
Definition cleanName (words : list jsstring) : bool :=
  let name := Str.join (js " ") words in
  (1 <=? length words) && (length words <=? 5) && forallb cleanWord words
  && forallb (fun k => negb (startsWithI name k)) boilerplate
  && negb (Str.includes name (js "VIR INSTANTANE EMIS NET"))
  && negb (Str.includes name (js "PRELEVEMENT EUROPEEN")).

(** ** Vocabulary of the further properties *)

(** The five movement types. *)
Definition movementTypes : list jsstring :=
  [js "direct_debit"; js "transfer"; js "card"; js "check"; js "other"].

(** White space neither at the start nor at the end. *)
Definition edgesTrimmed (s : jsstring) : bool :=
  match s with
  | [] => true
  | c :: _ => negb (Str.isWhiteSpace c) && negb (Str.isWhiteSpace (last s c))
  end.

(** No part of [s] reads as the upper-case [marker] when the case of Basic
    Latin letters is ignored. *)
Definition noMarker (marker s : jsstring) : bool :=
  forallb (fun t => negb (readsAs marker (firstn (length marker) t))) (tails s).

(** [d] is the first date DD/MM/YYYY of [line]. *)
Definition firstDate (line d : jsstring) : Prop :=
  dateShaped d = true
  /\ exists pre post,
       line = pre ++ d ++ post
       /\ forall before after, pre = before ++ after -> after <> [] ->
            dateShaped (firstn 10 (after ++ d ++ post)) = false.

(** ** Shapes of the captured texts *)

(** Every group [n] of the pattern captures a word that satisfies [Q n]. *)
Fixpoint groupsCapture (Q : nat -> jsstring -> Prop) (r : Re.regex) : Prop :=
  match r with
  | Re.Group n r1 => (forall w, Re.lang r1 w -> Q n w) /\ groupsCapture Q r1
  | Re.Seq r1 r2 => groupsCapture Q r1 /\ groupsCapture Q r2
  | Re.Alt r1 r2 => groupsCapture Q r1 /\ groupsCapture Q r2
  | Re.Quant _ _ _ r1 => groupsCapture Q r1
  | _ => True
  end.

(** Every capture held by the state [x] satisfies [Q]. *)
Definition capturesSatisfy (Q : nat -> jsstring -> Prop) (x : Re.state) : Prop :=
  forall n v, Re.assoc n (Re.captures x) = Some v -> Q n v.

(** Every class of the pattern holds only code units that satisfy [P]. *)
Fixpoint classesSatisfy (P : N -> Prop) (r : Re.regex) : Prop :=
  match r with
  | Re.Class p => forall c, p c = true -> P c
  | Re.Seq r1 r2 => classesSatisfy P r1 /\ classesSatisfy P r2
  | Re.Alt r1 r2 => classesSatisfy P r1 /\ classesSatisfy P r2
  | Re.Quant _ _ _ r1 => classesSatisfy P r1
  | Re.Group _ r1 => classesSatisfy P r1
  | _ => True
  end.

(** An amount text: a digit, then digits and white space, then a comma
    and two digits (the grammar [\d[\d\s]*,\d{2}], which contains the
    stricter one). *)
Definition amountShaped (a : jsstring) : bool :=
  match rev a with
  | c2 :: c1 :: 44%N :: body =>
      Re.isDigit c2 && Re.isDigit c1
      && forallb (fun c => Re.isDigit c || Str.isWhiteSpace c) body
      && Re.isDigit (hd 0%N a)
  | _ => false
  end.

(** A number text: it starts with a digit and is made of digits, white
    space and commas. *)
Definition numberText (a : jsstring) : Prop :=
  Re.isDigit (hd 0%N a) = true
  /\ Forall (fun c => Re.isDigit c = true \/ Str.isWhiteSpace c = true \/ c = 44%N) a.

(** A description as captured by the patterns: not empty and on one line. *)
Definition oneLine (w : jsstring) : Prop :=
  w <> [] /\ Forall (fun c => Re.isLineTerminator c = false) w.

(** What the group [k] of a pattern with [n] groups captures. *)
Definition captureShape (n k : nat) (w : jsstring) : Prop :=
  if k =? 1 then dateShaped w = true
  else if k =? n then amountShaped w = true
  else if k =? n - 1 then oneLine w
  else dateShaped w = true.

(** The invariant of the objects built by the pattern loop. *)
Definition wellFormed (t : transaction) : Prop :=
  dateShaped t.(date) = true
  /\ dateShaped t.(valeur) = true
  /\ edgesTrimmed t.(nature) = true
  /\ Forall (fun c => Re.isLineTerminator c = false) t.(nature)
  /\ exists a, amountShaped a = true
       /\ (t.(debit) = Some a /\ t.(credit) = None
           \/ t.(debit) = None /\ t.(credit) = Some a).

(* ================================================================= *)
(** * Facts about the string built-ins *)

Lemma eqb_eq (a b : jsstring) : Str.eqb a b = true <-> a = b.
Proof.
  revert b; induction a as [|c a IH]; intros [|d b]; simpl; split; intros H;
    try reflexivity; try discriminate.
  - apply andb_true_iff in H as [Hc Hr]. apply N.eqb_eq in Hc. apply IH in Hr.
    now subst.
  - injection H as -> ->. rewrite N.eqb_refl. simpl. now apply IH.
Qed.

Lemma eqb_refl (a : jsstring) : Str.eqb a a = true.
Proof. now apply eqb_eq. Qed.

Lemma startsWith_spec (s k : jsstring) :
  Str.startsWith s k = true <-> exists post, s = k ++ post.
Proof.
  revert s; induction k as [|c k IH]; intros s; simpl.
  - split; [intros _; now exists s | reflexivity].
  - destruct s as [|d s].
    + split; [discriminate | intros [post H]; discriminate].
    + rewrite andb_true_iff, N.eqb_eq, IH. split.
      * intros [-> [post ->]]. now exists post.
      * intros [post H]. injection H as -> ->. split; [reflexivity | now exists post].
Qed.

Lemma includes_spec (s k : jsstring) :
  Str.includes s k = true <-> occursIn k s.
Proof.
  unfold occursIn. induction s as [|d s IH]; simpl.
  - rewrite orb_false_r, startsWith_spec. split.
    + intros [post H]. now exists [], post.
    + intros [[|c pre] [post H]]; [now exists post | discriminate].
  - rewrite orb_true_iff, startsWith_spec, IH. split.
    + intros [[post H] | [pre [post H]]].
      * now exists [], post.
      * exists (d :: pre), post. now rewrite H.
    + intros [[|c pre] [post H]].
      * left. now exists post.
      * right. injection H as _ ->. now exists pre, post.
Qed.

Lemma occursIn_part (a k b s : jsstring) :
  occursIn (a ++ k ++ b) s -> occursIn k s.
Proof.
  intros [pre [post ->]]. exists (pre ++ a), (b ++ post).
  now rewrite <- !app_assoc.
Qed.

Lemma existsb_includes (u : jsstring) (keywords : list jsstring) :
  existsb (fun keyword => Str.includes u keyword) keywords = true
  <-> exists keyword, In keyword keywords /\ occursIn keyword u.
Proof.
  rewrite existsb_exists. split; intros [k [Hin H]]; exists k; split; trivial;
    now apply includes_spec.
Qed.

Lemma existsb_includes_false (u : jsstring) (keywords : list jsstring) :
  existsb (fun keyword => Str.includes u keyword) keywords = false
  <-> ~ exists keyword, In keyword keywords /\ occursIn keyword u.
Proof.
  rewrite <- existsb_includes. now destruct (existsb _ keywords).
Qed.

(* ================================================================= *)
(** * The keyword classifiers *)

Section Classifiers.

Variable toUpperCase : jsstring -> jsstring.

(** C3.  The debit/credit classifier works on the upper-cased
    concatenation of the line, a space and the description.  Its answer
    is CREDIT ([false]) exactly when one of the seven credit keywords
    occurs there, whatever debit keywords occur as well; in every other
    case, with a debit keyword or with none, its answer is DEBIT
    ([true]). *)
Theorem isDebitTransaction_first_match (line nature : jsstring) :
  let upperLine := toUpperCase (line ++ js " " ++ nature) in
  let hasCredit := exists keyword, In keyword creditKeywords /\ occursIn keyword upperLine in
  let hasDebit := exists keyword, In keyword debitKeywords /\ occursIn keyword upperLine in
  creditKeywords =
    [js "VIREMENT RECU"; js "VIR RECU"; js "VIR INSTANTANE RECU"; js "REMISE CB";
     js "VERSEMENT RECU"; js "DEPOT ESPECE"; js "ENCAISSEMENT"]
  /\ (isDebitTransaction toUpperCase line nature = false <-> hasCredit)
  /\ (isDebitTransaction toUpperCase line nature = true <->
        (~ hasCredit /\ hasDebit) \/ (~ hasCredit /\ ~ hasDebit)).
Proof.
  intros upperLine hasCredit hasDebit. split; [reflexivity|].
  unfold isDebitTransaction. fold upperLine.
  destruct (existsb (fun keyword => Str.includes upperLine keyword) creditKeywords) eqn:Ec.
  - apply existsb_includes in Ec. split.
    + split; [intros _; exact Ec | reflexivity].
    + split; [discriminate | intros [[H _] | [H _]]; now destruct H].
  - apply existsb_includes_false in Ec.
    assert (Htrue : (if existsb (fun keyword => Str.includes upperLine keyword) debitKeywords
                     then true else true) = true) by now destruct (existsb _ debitKeywords).
    rewrite Htrue. split.
    + split; [discriminate | intros H; now destruct Ec].
    + split; [|reflexivity]. intros _.
      destruct (existsb (fun keyword => Str.includes upperLine keyword) debitKeywords) eqn:Ed.
      * left. split; [exact Ec | now apply existsb_includes in Ed].
      * right. split; [exact Ec | now apply existsb_includes_false in Ed].
Qed.

(** C10.  [determineFrequency] answers "monthly" exactly when a monthly
    keyword occurs in the upper-cased description, "occasional" exactly
    when none does and an occasional keyword occurs, "unknown" exactly
    when neither kind occurs; it has no other answer. *)
Theorem determineFrequency_rules (nature : jsstring) :
  let upperNature := toUpperCase nature in
  let monthly := exists keyword, In keyword monthlyKeywords /\ occursIn keyword upperNature in
  let occasional :=
    exists keyword, In keyword occasionalKeywords /\ occursIn keyword upperNature in
  (monthlyKeywords =
     [js "LOYER"; js "ABONNEMENT"; js "ASSURANCE"; js "MUTUELLE"; js "INTERNET"; js "TELEPHONE"]
   /\ occasionalKeywords = [js "ACHAT"; js "FACTURE"; js "REPARATION"; js "MAINTENANCE"])
  /\ (determineFrequency toUpperCase nature = js "monthly" <-> monthly)
  /\ (determineFrequency toUpperCase nature = js "occasional" <-> ~ monthly /\ occasional)
  /\ (determineFrequency toUpperCase nature = js "unknown" <-> ~ monthly /\ ~ occasional)
  /\ In (determineFrequency toUpperCase nature) [js "monthly"; js "occasional"; js "unknown"].
Proof.
  intros upperNature monthly occasional. split; [split; reflexivity|].
  unfold determineFrequency. fold upperNature.
  destruct (existsb (fun keyword => Str.includes upperNature keyword) monthlyKeywords) eqn:Em.
  - apply existsb_includes in Em. repeat split; try discriminate; trivial.
    + intros [H _]. now destruct H.
    + intros [H _]. now destruct H.
    + simpl; auto.
  - apply existsb_includes_false in Em.
    destruct (existsb (fun keyword => Str.includes upperNature keyword) occasionalKeywords)
      eqn:Eo.
    + apply existsb_includes in Eo. repeat split; try discriminate; trivial.
      * intros H. now destruct Em.
      * intros [_ H]. now destruct H.
      * simpl; auto.
    + apply existsb_includes_false in Eo. repeat split; try discriminate; trivial.
      * intros H. now destruct Em.
      * intros [_ H]. now destruct Eo.
      * simpl; auto.
Qed.

End Classifiers.

(* ================================================================= *)
(** * The category classifier *)

Lemma In_by_eqb (x : jsstring) (l : list jsstring) :
  existsb (Str.eqb x) l = true -> In x l.
Proof.
  intros H. apply existsb_exists in H as [y [Hin Heq]].
  apply eqb_eq in Heq. now subst.
Qed.

Lemma not_In_by_eqb (x : jsstring) (l : list jsstring) :
  existsb (Str.eqb x) l = false -> ~ In x l.
Proof.
  intros H Hin. assert (E : existsb (Str.eqb x) l = true).
  { apply existsb_exists. exists x. split; [exact Hin | apply eqb_refl]. }
  congruence.
Qed.

Lemma fuzzyRules_categories :
  forallb (fun rule => existsb (Str.eqb (fst rule)) glossaryCategories) fuzzyRules = true.
Proof. vm_compute. reflexivity. Qed.

Section Categories.

Variable toUpperCase : jsstring -> jsstring.

Ltac named_category :=
  cbn [category confidence];
  split; [ left; apply In_by_eqb; vm_compute; reflexivity
         | split; [ discriminate | apply In_by_eqb; vm_compute; reflexivity ] ].

Ltac shadowed Hin Hout a k b :=
  exfalso; apply includes_spec in Hin;
  apply (occursIn_part a k b) in Hin; apply includes_spec in Hin;
  rewrite Hin in Hout; discriminate Hout.

(** C1 (amended).  Whatever the description, the category returned by
    [categorizeTransaction] is a member of the glossary's enumeration or
    is "CREDIT CABINET", it is not empty, and the confidence is one of
    "high", "medium" and "low". *)
Theorem categorizeTransaction_closed (nature : jsstring) :
  let result := categorizeTransaction toUpperCase nature in
  (In result.(category) glossaryCategories \/ result.(category) = js "CREDIT CABINET")
  /\ result.(category) <> []
  /\ In result.(confidence) confidenceLevels.
Proof.
  unfold categorizeTransaction.
  set (u := toUpperCase nature).
  unfold costCategories.
  cbn [find].
  destruct (Str.includes u (js "ASSURANCE")); [named_category|].
  destruct (Str.includes u (js "CHARGES SOCIALES")) eqn:Hcharges; [named_category|].
  destruct (Str.includes u (js "CREDIT CABINET")).
  { cbn [category confidence]. split; [right; reflexivity|].
    split; [discriminate | apply In_by_eqb; vm_compute; reflexivity]. }
  destruct (Str.includes u (js "FRAIS BANQUE")); [named_category|].
  destruct (Str.includes u (js "GYM")); [named_category|].
  destruct (Str.includes u (js "INTERNET")); [named_category|].
  destruct (Str.includes u (js "LEASING MOTO")); [named_category|].
  destruct (Str.includes u (js "LEASING VOITURE")); [named_category|].
  destruct (Str.includes u (js "LOGICIEL CABINET")); [named_category|].
  destruct (Str.includes u (js "LOYER CABINET")); [named_category|].
  destruct (Str.includes u (js "MASSE SALARIALE")); [named_category|].
  destruct (Str.includes u (js "MATERIEL CABINET")); [named_category|].
  destruct (Str.includes u (js "MUTUELLE")) eqn:Hmutuelle; [named_category|].
  destruct (Str.includes u (js "MUTUELLE SALARI" ++ [201%N])) eqn:Hsalarie.
  { shadowed Hsalarie Hmutuelle (@nil N) (js "MUTUELLE") (js " SALARI" ++ [201%N]). }
  destruct (Str.includes u (js "PREVOYANCE")); [named_category|].
  destruct (Str.includes u (js "TPE BANQUE")); [named_category|].
  destruct (Str.includes u (js "URSSAF/CHARGES SOCIALES")) eqn:Hurssaf.
  { shadowed Hurssaf Hcharges (js "URSSAF/") (js "CHARGES SOCIALES") (@nil N). }
  destruct (find _ fuzzyRules) as [rule|] eqn:Hrule.
  - apply find_some in Hrule as [Hin _].
    pose proof fuzzyRules_categories as Hall.
    rewrite forallb_forall in Hall. specialize (Hall rule Hin).
    apply In_by_eqb in Hall. cbn [category confidence].
    split; [left; exact Hall|]. split.
    + intros Hnil. rewrite Hnil in Hall. revert Hall. apply not_In_by_eqb.
      vm_compute. reflexivity.
    + apply In_by_eqb; vm_compute; reflexivity.
  - named_category.
Qed.

End Categories.

(** C1, as stated, fails: a description that names the category
    "CREDIT CABINET" of [costCategories] is given that category, which the
    glossary's enumeration does not contain. *)
Lemma categorizeTransaction_credit_cabinet :
  let result := categorizeTransaction Str.toUpperCaseLatin1 (js "PRET CREDIT CABINET") in
  result = mkCategorization (js "CREDIT CABINET") (js "high")
  /\ ~ In result.(category) glossaryCategories.
Proof.
  split; [vm_compute; reflexivity|].
  apply not_In_by_eqb. vm_compute. reflexivity.
Qed.
(* ================================================================= *)
(** * Soundness of the matcher *)

Module ReFacts.
Import Re.

Lemma consumes_refl (x : state) : consumes x x [].
Proof. split; simpl; [reflexivity | lia]. Qed.

Lemma consumes_trans (x y z : state) (w1 w2 : jsstring) :
  consumes x y w1 -> consumes y z w2 -> consumes x z (w1 ++ w2).
Proof.
  intros [H1 H2] [H3 H4]. split.
  - rewrite H1, H3. now rewrite app_assoc.
  - rewrite H4, H2, length_app. lia.
Qed.

Section Repeat.

Variable m : state -> list state.
Variable P : jsstring -> Prop.
Hypothesis m_sound : forall x y, In y (m x) -> exists w, consumes x y w /\ P w.

Lemma repeatMatcher_sound (fuel : nat) :
  forall min max greedy x y,
    min <= fuel ->
    In y (repeatMatcher m fuel min max greedy x) ->
    exists ws, consumes x y (concat ws) /\ Forall P ws /\ within min max (length ws).
Proof.
  assert (Hstop : forall min (max : option nat) x y,
             min = 0 \/ max = Some 0 -> In y [x] ->
             exists ws, consumes x y (concat ws) /\ Forall P ws
                        /\ within min max (length ws)).
  { intros min max x y H0 [<-|[]]. exists []. simpl.
    split; [apply consumes_refl|]. split; [constructor|].
    unfold within. destruct H0 as [->| ->]; [destruct max|]; simpl; lia. }
  induction fuel as [|fuel IH]; intros min max greedy x y Hmin Hin.
  - assert (min = 0) by lia.
    destruct max as [[|j]|]; simpl in Hin; apply Hstop; auto.
  - assert (Hiter : max <> Some 0 ->
               In y (flat_map (fun z =>
                       if (min =? 0) && (endIndex z =? endIndex x) then []
                       else repeatMatcher m fuel (pred min) (option_map pred max) greedy z)
                       (m x)) ->
               exists ws, consumes x y (concat ws) /\ Forall P ws
                          /\ within min max (length ws)).
    { intros Hmax Hy. apply in_flat_map in Hy as [z [Hz Hy]].
      destruct ((min =? 0) && (endIndex z =? endIndex x)); [destruct Hy|].
      apply IH in Hy; [|lia]. destruct Hy as [ws [Hc [Hall Hlen]]].
      apply m_sound in Hz as [w [Hw HP]].
      exists (w :: ws). simpl. split; [eapply consumes_trans; eauto|].
      split; [now constructor|].
      unfold within in *. destruct max as [[|j]|]; simpl in *; [congruence | lia | lia]. }
    assert (Hbody : max <> Some 0 ->
               In y (let iter := flat_map (fun z =>
                       if (min =? 0) && (endIndex z =? endIndex x) then []
                       else repeatMatcher m fuel (pred min) (option_map pred max) greedy z)
                       (m x) in
                     if negb (min =? 0) then iter
                     else if greedy then iter ++ [x] else x :: iter) ->
               exists ws, consumes x y (concat ws) /\ Forall P ws
                          /\ within min max (length ws)).
    { intros Hmax Hy. cbv zeta in Hy.
      destruct (min =? 0) eqn:E0; simpl negb in Hy; cbv iota in Hy.
      - apply Nat.eqb_eq in E0. destruct greedy.
        + apply in_app_or in Hy as [Hy|Hy]; [now apply Hiter | apply Hstop; auto].
        + destruct Hy as [Hy|Hy]; [apply Hstop; simpl; auto | now apply Hiter].
      - now apply Hiter. }
    destruct max as [[|j]|].
    + simpl in Hin. apply Hstop; auto.
    + apply Hbody; [discriminate | exact Hin].
    + apply Hbody; [discriminate | exact Hin].
Qed.

End Repeat.

(** Every way the matcher finds to match [r] consumes a word of [r]. *)
Theorem run_sound (r : regex) :
  forall x y, In y (run r x) -> exists w, consumes x y w /\ lang r w.
Proof.
  induction r as [|p|r1 IH1 r2 IH2|r1 IH1 r2 IH2|min max greedy r1 IH|n r1 IH| |];
    intros x y Hin; simpl in Hin.
  - destruct Hin as [<-|[]]. exists []. split; [apply consumes_refl | reflexivity].
  - destruct (rest x) as [|c s] eqn:Hr; [destruct Hin|].
    destruct (p c) eqn:Hp; [|destruct Hin].
    destruct Hin as [<-|[]]. exists [c]. split.
    + split; simpl; [exact Hr | lia].
    + exists c. auto.
  - apply in_flat_map in Hin as [z [Hz Hy]].
    apply IH1 in Hz as [w1 [Hc1 Hl1]]. apply IH2 in Hy as [w2 [Hc2 Hl2]].
    exists (w1 ++ w2). split; [eapply consumes_trans; eauto|].
    exists w1, w2. auto.
  - apply in_app_or in Hin as [Hin|Hin].
    + apply IH1 in Hin as [w [Hc Hl]]. exists w. simpl. auto.
    + apply IH2 in Hin as [w [Hc Hl]]. exists w. simpl. auto.
  - apply repeatMatcher_sound with (P := lang r1) in Hin; [|exact IH|lia].
    destruct Hin as [ws [Hc [Hall Hlen]]]. exists (concat ws). split; [exact Hc|].
    exists ws. auto.
  - apply in_map_iff in Hin as [z [<- Hz]]. apply IH in Hz as [w [[Hc1 Hc2] Hl]].
    exists w. split; [split; simpl; assumption | exact Hl].
  - destruct (endIndex x =? 0); [|destruct Hin]. destruct Hin as [<-|[]].
    exists []. split; [apply consumes_refl | reflexivity].
  - destruct (rest x); [|destruct Hin]. destruct Hin as [<-|[]].
    exists []. split; [apply consumes_refl | reflexivity].
Qed.

(** ** The bound on the iterations of a quantifier is never reached *)

Lemma flat_map_all_nil (A B : Type) (f : A -> list B) (l : list A) :
  (forall a, In a l -> f a = []) -> flat_map f l = [].
Proof.
  induction l as [|a l IH]; intros H; simpl; [reflexivity|].
  rewrite (H a (or_introl eq_refl)). simpl. apply IH. intros b Hb. apply H. now right.
Qed.

Lemma flat_map_agree (A B : Type) (f g : A -> list B) (l : list A) :
  (forall a, In a l -> f a = g a) -> flat_map f l = flat_map g l.
Proof.
  induction l as [|a l IH]; intros H; simpl; [reflexivity|].
  rewrite (H a (or_introl eq_refl)). f_equal. apply IH. intros b Hb. apply H. now right.
Qed.

Section Fuel.

Variable m : state -> list state.
Hypothesis m_consumes : forall x y, In y (m x) -> exists w, consumes x y w.

Lemma repeatMatcher_exhausted (fuel : nat) (max : option nat) (greedy : bool) (x : state) :
  rest x = [] -> repeatMatcher m fuel 0 max greedy x = [x].
Proof.
  intros Hr. destruct fuel as [|fuel]; [destruct max as [[|j]|]; reflexivity|].
  destruct max as [[|j]|]; [reflexivity| |];
    cbn [repeatMatcher Nat.eqb andb negb];
    (rewrite flat_map_all_nil;
     [destruct greedy; reflexivity
     | intros y Hy; destruct (m_consumes x y Hy) as [w [Hw Hi]];
       rewrite Hr in Hw; destruct w; [|discriminate Hw];
       simpl in Hi; replace (endIndex y =? endIndex x) with true
         by (symmetry; apply Nat.eqb_eq; lia);
       reflexivity]).
Qed.

Lemma repeatMatcher_fuel (fuel1 : nat) :
  forall fuel2 min max greedy x,
    min + length (rest x) <= fuel1 -> min + length (rest x) <= fuel2 ->
    repeatMatcher m fuel1 min max greedy x = repeatMatcher m fuel2 min max greedy x.
Proof.
  induction fuel1 as [|fuel1 IH]; intros fuel2 min max greedy x H1 H2.
  - assert (min = 0) by lia. subst min.
    assert (Hr : rest x = []) by (destruct (rest x); [reflexivity | simpl in H1; lia]).
    now rewrite !repeatMatcher_exhausted.
  - destruct fuel2 as [|fuel2].
    + assert (min = 0) by lia. subst min.
      assert (Hr : rest x = []) by (destruct (rest x); [reflexivity | simpl in H2; lia]).
      now rewrite !repeatMatcher_exhausted.
    + assert (Hiter : forall max',
                flat_map (fun y => if (min =? 0) && (endIndex y =? endIndex x) then []
                                   else repeatMatcher m fuel1 (pred min) max' greedy y) (m x)
                = flat_map (fun y => if (min =? 0) && (endIndex y =? endIndex x) then []
                                     else repeatMatcher m fuel2 (pred min) max' greedy y) (m x)).
      { intros max'. apply flat_map_agree. intros y Hy.
        destruct (m_consumes x y Hy) as [w [Hw Hi]].
        assert (Hlen : length (rest x) = length w + length (rest y))
          by (rewrite Hw; apply length_app).
        destruct ((min =? 0) && (endIndex y =? endIndex x)) eqn:E; [reflexivity|].
        apply andb_false_iff in E.
        apply IH.
        - destruct E as [E|E]; [apply Nat.eqb_neq in E | apply Nat.eqb_neq in E]; lia.
        - destruct E as [E|E]; [apply Nat.eqb_neq in E | apply Nat.eqb_neq in E]; lia. }
      destruct max as [[|j]|]; [reflexivity| |]; cbn [repeatMatcher]; now rewrite Hiter.
Qed.

End Fuel.

(** The fuel given to a quantifier is enough: more fuel changes nothing. *)
Theorem quantifier_fuel_enough (r : regex) (min : nat) (max : option nat) (greedy : bool)
    (x : state) (extra : nat) :
  repeatMatcher (run r) (min + length (rest x) + extra) min max greedy x
  = run (Quant min max greedy r) x.
Proof.
  cbn [run]. apply repeatMatcher_fuel; [|lia|lia].
  intros x' y Hy. destruct (run_sound r x' y Hy) as [w [Hw _]]. now exists w.
Qed.

Lemma lang_minLength (r : regex) :
  forall w, lang r w -> minLength r <= length w.
Proof.
  induction r as [|p|r1 IH1 r2 IH2|r1 IH1 r2 IH2|min max greedy r1 IH|n r1 IH| |];
    intros w Hw; simpl in *.
  - lia.
  - destruct Hw as [c [-> _]]. simpl. lia.
  - destruct Hw as [w1 [w2 [-> [H1 H2]]]]. rewrite length_app.
    apply IH1 in H1. apply IH2 in H2. lia.
  - destruct Hw as [Hw|Hw]; [apply IH1 in Hw | apply IH2 in Hw]; lia.
  - destruct Hw as [ws [-> [Hall Hlen]]].
    assert (Hcat : length ws * minLength r1 <= length (concat ws)).
    { clear Hlen. induction Hall as [|w ws Hw Hall IHws]; simpl; [lia|].
      rewrite length_app. apply IH in Hw. lia. }
    assert (Hlow : match max with Some j => Nat.min min j | None => min end <= length ws).
    { unfold within in Hlen. destruct max; lia. }
    apply Nat.le_trans with (length ws * minLength r1); [|exact Hcat].
    now apply Nat.mul_le_mono_r.
  - now apply IH.
  - lia.
  - lia.
Qed.

(** ** Captures *)

Section Preserved.

Variable Q : state -> Prop.
Variable m : state -> list state.
Hypothesis m_keeps : forall x y, Q x -> In y (m x) -> Q y.

Lemma repeatMatcher_keeps (fuel : nat) :
  forall min max greedy x y,
    Q x -> In y (repeatMatcher m fuel min max greedy x) -> Q y.
Proof.
  induction fuel as [|fuel IH]; intros min max greedy x y Hx Hin.
  - destruct max as [[|j]|]; simpl in Hin; destruct Hin as [<-|[]]; exact Hx.
  - assert (Hiter : forall max',
               In y (flat_map (fun z =>
                       if (min =? 0) && (endIndex z =? endIndex x) then []
                       else repeatMatcher m fuel (pred min) max' greedy z) (m x)) -> Q y).
    { intros max' Hy. apply in_flat_map in Hy as [z [Hz Hy]].
      destruct ((min =? 0) && (endIndex z =? endIndex x)); [destruct Hy|].
      apply IH in Hy; [exact Hy | eapply m_keeps; eauto]. }
    assert (Hbody : forall max',
               In y (let iter := flat_map (fun z =>
                       if (min =? 0) && (endIndex z =? endIndex x) then []
                       else repeatMatcher m fuel (pred min) max' greedy z) (m x) in
                     if negb (min =? 0) then iter
                     else if greedy then iter ++ [x] else x :: iter) -> Q y).
    { intros max' Hy. cbv zeta in Hy.
      destruct (min =? 0); simpl negb in Hy; cbv iota in Hy; [|now apply (Hiter max')].
      destruct greedy.
      - apply in_app_or in Hy as [Hy|[<-|[]]]; [now apply (Hiter max') | exact Hx].
      - destruct Hy as [<-|Hy]; [exact Hx | now apply (Hiter max')]. }
    destruct max as [[|j]|].
    + simpl in Hin. destruct Hin as [<-|[]]. exact Hx.
    + now apply (Hbody (option_map pred (Some (S j)))).
    + now apply (Hbody (option_map pred None)).
Qed.

End Preserved.

Lemma run_keeps_capture (n : nat) (r : regex) :
  forall x y, captured n x -> In y (run r x) -> captured n y.
Proof.
  unfold captured.
  induction r as [|p|r1 IH1 r2 IH2|r1 IH1 r2 IH2|min max greedy r1 IH|k r1 IH| |];
    intros x y Hx Hin; simpl in Hin.
  - destruct Hin as [<-|[]]. exact Hx.
  - destruct (rest x) as [|c s]; [destruct Hin|].
    destruct (p c); [|destruct Hin]. destruct Hin as [<-|[]]. exact Hx.
  - apply in_flat_map in Hin as [z [Hz Hy]]. eauto.
  - apply in_app_or in Hin as [Hin|Hin]; eauto.
  - revert Hin.
    apply (repeatMatcher_keeps (fun s => assoc n (captures s) <> None) (run r1) IH);
      exact Hx.
  - apply in_map_iff in Hin as [z [<- Hz]]. simpl.
    destruct (k =? n); [discriminate | eauto].
  - destruct (endIndex x =? 0); [|destruct Hin]. destruct Hin as [<-|[]]. exact Hx.
  - destruct (rest x); [|destruct Hin]. destruct Hin as [<-|[]]. exact Hx.
Qed.

Lemma binds_sound (n : nat) (r : regex) :
  binds n r = true -> forall x y, In y (run r x) -> captured n y.
Proof.
  induction r as [|p|r1 IH1 r2 IH2|r1 IH1 r2 IH2|min max greedy r1 IH|k r1 IH| |];
    intros Hb x y Hin; simpl in Hb; try discriminate; simpl in Hin.
  - apply in_flat_map in Hin as [z [Hz Hy]].
    apply orb_true_iff in Hb as [Hb|Hb].
    + eapply run_keeps_capture; [|exact Hy]. eapply IH1; eauto.
    + eapply IH2; eauto.
  - apply andb_true_iff in Hb as [Hb1 Hb2].
    apply in_app_or in Hin as [Hin|Hin]; eauto.
  - apply in_map_iff in Hin as [z [<- Hz]]. unfold captured. simpl.
    destruct (k =? n) eqn:E; [discriminate|]. simpl in Hb. eapply IH; eauto.
Qed.

(** ** Match results *)

Lemma firstn_consumed (w t : jsstring) (i : nat) :
  firstn (i + length w - i) (w ++ t) = w.
Proof.
  replace (i + length w - i) with (length w + 0) by lia.
  rewrite firstn_app_2. simpl. apply app_nil_r.
Qed.

Lemma matchAt_sound (r : regex) (i : nat) (s : jsstring) (m : matchResult) :
  matchAt r i s = Some m ->
  index m = i /\ s = matched m ++ following m
  /\ lastIndex m = i + length (matched m) /\ lang r (matched m)
  /\ forall n, binds n r = true -> group n m <> None.
Proof.
  unfold matchAt. destruct (run r (mkState i s [])) as [|y l] eqn:Hrun; [discriminate|].
  intros H. injection H as <-. simpl.
  assert (Hin : In y (run r (mkState i s []))) by (rewrite Hrun; now left).
  destruct (run_sound r _ _ Hin) as [w [[Hrest Hidx] Hw]]. simpl in Hrest, Hidx.
  rewrite Hidx, Hrest, firstn_consumed. repeat split; trivial.
  intros n Hb. unfold group. simpl. eapply binds_sound in Hin; [exact Hin | exact Hb].
Qed.

Lemma search_sound (r : regex) (s : jsstring) :
  forall i m, search r i s = Some m ->
  exists pre s', s = pre ++ s' /\ matchAt r (i + length pre) s' = Some m.
Proof.
  induction s as [|c s IH]; intros i m H; simpl in H.
  - destruct (matchAt r i []) eqn:E; [|discriminate]. injection H as ->.
    exists [], []. simpl. now rewrite Nat.add_0_r.
  - destruct (matchAt r i (c :: s)) eqn:E.
    + injection H as ->. exists [], (c :: s). simpl. now rewrite Nat.add_0_r.
    + apply IH in H as [pre [s' [-> H]]]. exists (c :: pre), s'. simpl.
      now rewrite Nat.add_succ_r.
Qed.

Lemma scan_sound (r : regex) (s : jsstring) :
  forall i k m, In m (scan r i s k) ->
  exists pre s', s = pre ++ s' /\ matchAt r (i + length pre) s' = Some m.
Proof.
  induction s as [|c s IH]; intros i k m H.
  - destruct k; simpl in H; [|destruct H].
    destruct (matchAt r i []) eqn:E; [|destruct H].
    destruct H as [<-|[]]. exists [], []. simpl. now rewrite Nat.add_0_r.
  - assert (Hnext : forall k', In m (scan r (S i) s k') ->
              exists pre s', c :: s = pre ++ s' /\ matchAt r (i + length pre) s' = Some m).
    { intros k' H'. apply IH in H' as [pre [s' [-> H']]]. exists (c :: pre), s'. simpl.
      now rewrite Nat.add_succ_r. }
    destruct k; simpl in H; [|eapply Hnext; exact H].
    destruct (matchAt r i (c :: s)) eqn:E.
    + destruct H as [<-|H]; [|eapply Hnext; exact H].
      exists [], (c :: s). simpl. now rewrite Nat.add_0_r.
    + eapply Hnext; exact H.
Qed.

End ReFacts.

(* ================================================================= *)
(** * What the matcher returns on classes *)

Module ReRuns.
Import Re.

Lemma advance_nil (x : state) : advance x [] = x.
Proof. destruct x. reflexivity. Qed.

Lemma advance_cons (x : state) (c : N) (s w : jsstring) :
  rest x = c :: s ->
  advance (mkState (S (endIndex x)) s (captures x)) w = advance x (c :: w).
Proof.
  intros H. unfold advance. simpl. rewrite H. simpl. f_equal. lia.
Qed.

Lemma takeWhile_prefix (p : N -> bool) (s : jsstring) :
  s = takeWhile p s ++ skipn (length (takeWhile p s)) s.
Proof.
  induction s as [|c s IH]; simpl; [reflexivity|].
  destruct (p c); simpl; [now f_equal | reflexivity].
Qed.

Lemma takeWhile_all (p : N -> bool) (w s : jsstring) :
  forallb p w = true -> takeWhile p (w ++ s) = w ++ takeWhile p s.
Proof.
  induction w as [|c w IH]; simpl; [reflexivity|].
  intros H. apply andb_true_iff in H as [Hc Hw]. rewrite Hc. now rewrite IH.
Qed.

Lemma run_class (p : N -> bool) (x : state) :
  run (Class p) x
  = match rest x with
    | c :: s => if p c then [mkState (S (endIndex x)) s (captures x)] else []
    | [] => []
    end.
Proof. reflexivity. Qed.

(** Greedy [*] on a class: the first way to match takes the longest run. *)
Lemma star_class_first (p : N -> bool) (fuel : nat) :
  forall x, length (rest x) <= fuel ->
  exists others,
    repeatMatcher (run (Class p)) fuel 0 None true x
    = advance x (takeWhile p (rest x)) :: others.
Proof.
  induction fuel as [|fuel IH]; intros x Hlen.
  - destruct (rest x) as [|c s] eqn:Hr; [|simpl in Hlen; lia].
    simpl. exists []. now rewrite advance_nil.
  - cbn [repeatMatcher]. rewrite run_class.
    destruct (rest x) as [|c s] eqn:Hr.
    + simpl. exists []. now rewrite advance_nil.
    + destruct (p c) eqn:Hp.
      * assert (Hneq : (endIndex (mkState (S (endIndex x)) s (captures x)) =? endIndex x)
                         = false) by (apply Nat.eqb_neq; simpl; lia).
        cbn [flat_map]. rewrite Hneq. cbn [Nat.eqb andb negb pred option_map].
        destruct (IH (mkState (S (endIndex x)) s (captures x))) as [others E].
        { simpl. simpl in Hlen. lia. }
        rewrite E. cbn [rest takeWhile]. rewrite Hp.
        rewrite (advance_cons x c s _ Hr).
        eexists. rewrite app_nil_r. simpl. reflexivity.
      * simpl. rewrite Hp. exists []. now rewrite advance_nil.
Qed.

Lemma run_star_class (p : N -> bool) (x : state) :
  exists others, run (star (Class p)) x = advance x (takeWhile p (rest x)) :: others.
Proof. apply star_class_first. simpl. lia. Qed.

(** Greedy [+] on a class: no match without a first code unit of the
    class; otherwise the first way to match takes the longest run. *)
Lemma run_plus_class (p : N -> bool) (x : state) :
  match takeWhile p (rest x) with
  | [] => run (plus (Class p)) x = []
  | _ :: _ => exists others,
      run (plus (Class p)) x = advance x (takeWhile p (rest x)) :: others
  end.
Proof.
  assert (Hrun : run (plus (Class p)) x
                 = repeatMatcher (run (Class p)) (S (length (rest x))) 1 None true x)
    by reflexivity.
  rewrite !Hrun. clear Hrun. cbn [repeatMatcher]. rewrite run_class.
  destruct (rest x) as [|c s] eqn:Hr; [reflexivity|].
  cbn [takeWhile]. destruct (p c) eqn:Hp; [|reflexivity].
  cbn [flat_map Nat.eqb andb negb pred option_map].
  destruct (star_class_first p (length (c :: s)) (mkState (S (endIndex x)) s (captures x)))
    as [others E].
  { simpl. lia. }
  rewrite E. cbn [rest]. rewrite (advance_cons x c s _ Hr).
  eexists. rewrite app_nil_r. simpl. reflexivity.
Qed.

Lemma matchAt_class (p : N -> bool) (i : nat) (s : jsstring) :
  matchAt (Class p) i s
  = match s with
    | c :: s' => if p c then Some (mkMatch i [c] [] (S i) s') else None
    | [] => None
    end.
Proof.
  unfold matchAt. rewrite run_class. cbn [rest endIndex captures].
  destruct s as [|c s']; [reflexivity|]. destruct (p c); [|reflexivity].
  cbn [rest endIndex captures]. replace (S i - i) with 1 by lia. reflexivity.
Qed.

Lemma matchAt_plus_class (p : N -> bool) (i : nat) (s : jsstring) :
  matchAt (plus (Class p)) i s
  = match takeWhile p s with
    | [] => None
    | _ :: _ => Some (mkMatch i (takeWhile p s) [] (length (takeWhile p s) + i)
                        (skipn (length (takeWhile p s)) s))
    end.
Proof.
  unfold matchAt. pose proof (run_plus_class p (mkState i s [])) as H. simpl rest in H.
  destruct (takeWhile p s) as [|c w] eqn:E.
  - now rewrite H.
  - destruct H as [others ->]. unfold advance. cbn [endIndex rest captures].
    replace (length (c :: w) + i - i) with (length (c :: w)) by lia.
    f_equal. f_equal. rewrite <- E.
    rewrite (takeWhile_prefix p s) at 2. rewrite firstn_app, Nat.sub_diag, firstn_all.
    simpl. apply app_nil_r.
Qed.

Lemma scan_skip (r : regex) (s1 : jsstring) :
  forall s2 i, scan r i (s1 ++ s2) (length s1) = scan r (length s1 + i) s2 0.
Proof.
  induction s1 as [|c s1 IH]; intros s2 i; [reflexivity|].
  simpl. rewrite IH. f_equal. lia.
Qed.

Lemma pieces_nonempty (pos : nat) (s : jsstring) (ms : list matchResult) :
  pieces pos s ms <> [].
Proof. destruct ms; discriminate. Qed.

Lemma join_cons (sep w : jsstring) (ws : list jsstring) :
  ws <> [] -> Str.join sep (w :: ws) = w ++ sep ++ Str.join sep ws.
Proof. destruct ws; [congruence | reflexivity]. Qed.

Lemma splitRuns_nonempty (p : N -> bool) (s : jsstring) :
  forall b, splitRuns p b s <> [].
Proof.
  induction s as [|c s IH]; intros b; simpl; [discriminate|].
  destruct (p c).
  - destruct b; [apply IH | discriminate].
  - unfold consHead. destruct (splitRuns p false s); discriminate.
Qed.

Lemma splitRuns_after_run (p : N -> bool) (s : jsstring) :
  splitRuns p true s = splitRuns p false (skipn (length (takeWhile p s)) s).
Proof.
  induction s as [|c s IH]; simpl; [reflexivity|].
  destruct (p c) eqn:E; simpl; [exact IH | now rewrite E].
Qed.

Lemma prependTo_nil (l : list jsstring) : l <> [] -> prependTo [] l = l.
Proof. destruct l; [congruence | reflexivity]. Qed.

Lemma prependTo_snoc (cur : jsstring) (c : N) (l : list jsstring) :
  prependTo (cur ++ [c]) l = prependTo cur (consHead c l).
Proof.
  destruct l as [|l0 ls]; simpl; [reflexivity|]. now rewrite <- app_assoc.
Qed.

Lemma firstn_front (cur s : jsstring) (pos : nat) :
  firstn (length cur + pos - pos) (cur ++ s) = cur.
Proof.
  replace (length cur + pos - pos) with (length cur) by lia.
  rewrite firstn_app, Nat.sub_diag, firstn_all. simpl. apply app_nil_r.
Qed.

Lemma skipn_front (cur w s : jsstring) (pos : nat) :
  skipn (length w + (length cur + pos) - pos) (cur ++ w ++ s) = s.
Proof.
  replace (length w + (length cur + pos) - pos) with (length (cur ++ w))
    by (rewrite length_app; lia).
  rewrite app_assoc. rewrite skipn_app, Nat.sub_diag, skipn_all. reflexivity.
Qed.

(** [split] on the runs of a class cuts the string at its maximal runs. *)
Lemma pieces_plus_class (p : N -> bool) (n : nat) :
  forall s cur pos, length s <= n ->
    pieces pos (cur ++ s) (scan (plus (Class p)) (length cur + pos) s 0)
    = prependTo cur (splitRuns p false s).
Proof.
  induction n as [|n IH]; intros s cur pos Hlen.
  - destruct s; [|simpl in Hlen; lia]. simpl. reflexivity.
  - destruct s as [|c s]; [reflexivity|].
    cbn [scan]. rewrite matchAt_plus_class.
    cbn [takeWhile splitRuns]. destruct (p c) eqn:Hp.
    + pose proof (takeWhile_prefix p s) as Hs.
      set (w := takeWhile p s) in *. set (s2 := skipn (length w) s) in *.
      cbn [lastIndex length pieces index].
      replace (pred (S (length w) + (length cur + pos) - (length cur + pos)))
        with (length w) by lia.
      assert (Hscan : scan (plus (Class p)) (S (length cur + pos)) s (length w)
                      = scan (plus (Class p))
                          (length (@nil N) + (length (c :: w) + (length cur + pos))) s2 0).
      { rewrite Hs at 1. rewrite scan_skip. f_equal. simpl. lia. }
      assert (Hskip : skipn (S (length w) + (length cur + pos) - pos) (cur ++ c :: s) = s2).
      { rewrite Hs at 1. apply (skipn_front cur (c :: w) s2 pos). }
      rewrite Hscan, Hskip, firstn_front.
      change s2 with ([] ++ s2) at 1.
      rewrite IH.
      2:{ unfold s2. simpl in Hlen. rewrite length_skipn. lia. }
      rewrite prependTo_nil by apply splitRuns_nonempty.
      simpl. rewrite app_nil_r. f_equal. unfold s2, w. symmetry. apply splitRuns_after_run.
    + replace (S (length cur + pos)) with (length (cur ++ [c]) + pos)
        by (rewrite length_app; simpl; lia).
      change (cur ++ c :: s) with (cur ++ [c] ++ s). rewrite app_assoc.
      rewrite IH by (simpl in Hlen; lia).
      apply prependTo_snoc.
Qed.

Lemma split_plus_class (p : N -> bool) (s : jsstring) :
  split (plus (Class p)) s = splitRuns p false s.
Proof.
  unfold split, matchAll.
  pose proof (pieces_plus_class p (length s) s [] 0 (Nat.le_refl _)) as H.
  simpl in H. rewrite H. apply prependTo_nil, splitRuns_nonempty.
Qed.

Lemma replaceG_plus_class (p : N -> bool) (by_ s : jsstring) :
  replaceG (plus (Class p)) by_ s = Str.join by_ (splitRuns p false s).
Proof.
  unfold replaceG. fold (split (plus (Class p)) s). now rewrite split_plus_class.
Qed.

(** [replace] with a global one-class pattern replaces every code unit of
    the class. *)
Lemma pieces_class (p : N -> bool) (by_ : jsstring) (s : jsstring) :
  forall cur pos,
    Str.join by_ (pieces pos (cur ++ s) (scan (Class p) (length cur + pos) s 0))
    = cur ++ replaceEach p by_ s.
Proof.
  induction s as [|c s IH]; intros cur pos.
  - reflexivity.
  - cbn [scan]. rewrite matchAt_class. destruct (p c) eqn:Hp.
    + cbn [lastIndex pieces index].
      replace (pred (S (length cur + pos) - (length cur + pos))) with 0 by lia.
      rewrite firstn_front.
      change (cur ++ c :: s) with (cur ++ [c] ++ s).
      replace (S (length cur + pos)) with (length [c] + (length cur + pos)) by reflexivity.
      rewrite skipn_front.
      rewrite join_cons by apply pieces_nonempty.
      pose proof (IH [] (length [c] + (length cur + pos))) as H. simpl in H.
      simpl. rewrite H, Hp. reflexivity.
    + replace (S (length cur + pos)) with (length (cur ++ [c]) + pos)
        by (rewrite length_app; simpl; lia).
      change (cur ++ c :: s) with (cur ++ [c] ++ s). rewrite app_assoc.
      rewrite IH. simpl. rewrite Hp. now rewrite <- app_assoc.
Qed.

Lemma replaceG_class (p : N -> bool) (by_ s : jsstring) :
  replaceG (Class p) by_ s = replaceEach p by_ s.
Proof.
  unfold replaceG, matchAll. exact (pieces_class p by_ s [] 0).
Qed.

End ReRuns.

(* ================================================================= *)
(** * The parsing pipeline *)

Lemma foldM_invariant (A S : Type) (f : S -> A -> completion S) (I : S -> Prop)
    (xs : list A) :
  (forall s x, In x xs -> I s -> exists s', f s x = Normal s' /\ I s') ->
  forall s, I s -> exists s', foldM f xs s = Normal s' /\ I s'.
Proof.
  induction xs as [|x xs IH]; intros Hf s Hs; simpl.
  - now exists s.
  - destruct (Hf s x (or_introl eq_refl) Hs) as [s1 [E1 H1]]. rewrite E1. simpl.
    apply IH; [|exact H1]. intros s2 y Hy. apply Hf. now right.
Qed.

Lemma mapM_total (A B : Type) (f : nat -> A -> completion B) (xs : list A) :
  (forall i x, In x xs -> exists y, f i x = Normal y) ->
  forall i, exists ys, mapM f i xs = Normal ys /\ length ys = length xs.
Proof.
  induction xs as [|x xs IH]; intros Hf i; simpl.
  - now exists [].
  - destruct (Hf i x (or_introl eq_refl)) as [y Ey]. rewrite Ey. simpl.
    destruct (IH (fun j z Hz => Hf j z (or_intror Hz)) (S i)) as [ys [Eys Hlen]].
    rewrite Eys. simpl. exists (y :: ys). simpl. auto.
Qed.

(** ** Matches of the three patterns *)

Lemma patterns_minLength :
  forallb (fun pattern => 0 <? Re.minLength (fst pattern)) Pat.patterns = true.
Proof. vm_compute. reflexivity. Qed.

Lemma patterns_binds :
  forallb (fun pattern =>
             forallb (fun n => Re.binds n (fst pattern)) (seq 1 (snd pattern))
             && ((snd pattern + 1 =? 5) || (snd pattern + 1 =? 4)))
          Pat.patterns = true.
Proof. vm_compute. reflexivity. Qed.

Lemma defined_Some (A : Type) (o : option A) : o <> None -> exists a, o = Some a /\ defined o = Normal a.
Proof. destruct o as [a|]; [intros _; now exists a | congruence]. Qed.

(** A match of one of the patterns is not empty and gives a candidate. *)
Lemma pattern_match (pattern : Re.regex * nat) (text : jsstring) (m : Re.matchResult) :
  In pattern Pat.patterns -> In m (Re.matchAll (fst pattern) text) ->
  Re.lastIndex m <> Re.index m
  /\ exists d v n a, candidate (snd pattern) m = Normal (d, v, n, a).
Proof.
  intros Hp Hm. apply ReFacts.scan_sound in Hm as [pre [s' [_ Hm]]].
  apply ReFacts.matchAt_sound in Hm as [Hi [_ [Hlast [Hlang Hgroups]]]].
  pose proof patterns_minLength as Hmin. rewrite forallb_forall in Hmin.
  specialize (Hmin _ Hp). apply Nat.ltb_lt in Hmin.
  apply ReFacts.lang_minLength in Hlang.
  split; [lia|].
  pose proof patterns_binds as Hb. rewrite forallb_forall in Hb.
  specialize (Hb _ Hp). apply andb_true_iff in Hb as [Hb Hn].
  rewrite forallb_forall in Hb.
  assert (Hg : forall n, 1 <= n <= snd pattern -> exists g, defined (Re.group n m) = Normal g).
  { intros n Hn'. destruct (defined_Some _ (Re.group n m)) as [g [_ Hg]].
    - apply Hgroups, Hb, in_seq. lia.
    - now exists g. }
  unfold candidate. apply orb_true_iff in Hn as [Hn|Hn].
  - rewrite Hn. apply Nat.eqb_eq in Hn.
    destruct (Hg 1) as [g1 E1]; [lia|]. destruct (Hg 2) as [g2 E2]; [lia|].
    destruct (Hg 3) as [g3 E3]; [lia|]. destruct (Hg 4) as [g4 E4]; [lia|].
    rewrite E1, E2, E3, E4. simpl. now exists g1, g2, g3, g4.
  - assert (H5 : (snd pattern + 1 =? 5) = false).
    { apply Nat.eqb_eq in Hn. apply Nat.eqb_neq. lia. }
    rewrite H5, Hn. apply Nat.eqb_eq in Hn.
    destruct (Hg 1) as [g1 E1]; [lia|]. destruct (Hg 2) as [g2 E2]; [lia|].
    destruct (Hg 3) as [g3 E3]; [lia|].
    rewrite E1, E2, E3. simpl. now exists g1, g1, g2, g3.
Qed.

Section Pipeline.

Variable toUpperCase : jsstring -> jsstring.

Lemma isDebitTransaction_true (line description : jsstring) :
  isDebitTransaction toUpperCase line description = true
  <-> noCreditKeyword toUpperCase line description.
Proof.
  unfold isDebitTransaction, noCreditKeyword.
  set (u := toUpperCase (line ++ js " " ++ description)).
  destruct (existsb (fun keyword => Str.includes u keyword) creditKeywords) eqn:Ec.
  - apply existsb_includes in Ec as [k [Hin Hk]].
    split; [discriminate | intros H; now destruct (H k Hin)].
  - apply existsb_includes_false in Ec.
    split.
    + intros _ k Hin Hk. apply Ec. now exists k.
    + intros _. now destruct (existsb _ debitKeywords).
Qed.

Lemma addCandidate_built (text : jsstring) (pattern : Re.regex * nat)
    (m : Re.matchResult) (transactions : list transaction) :
  In pattern Pat.patterns -> In m (Re.matchAll (fst pattern) text) ->
  patternBuilt toUpperCase text transactions ->
  exists transactions',
    addCandidate toUpperCase (snd pattern) transactions m = Normal transactions'
    /\ patternBuilt toUpperCase text transactions'.
Proof.
  intros Hp Hm Hts.
  destruct (pattern_match pattern text m Hp Hm) as [Hne [d [v [n [a Hc]]]]].
  unfold addCandidate. apply Nat.eqb_neq in Hne. rewrite Hne, Hc. simpl.
  destruct (isDuplicate transactions d a n); [now exists transactions|].
  assert (Hnew : exists line description,
             fromPattern toUpperCase text
               (mkTransaction d v (Str.trim n)
                  (if isDebitTransaction toUpperCase (Re.matched m) n then Some a else None)
                  (if isDebitTransaction toUpperCase (Re.matched m) n then None else Some a))
               line description).
  { exists (Re.matched m), n, pattern, m, d, v, a. auto. }
  destruct (isDebitTransaction toUpperCase (Re.matched m) n) eqn:Ed;
    eexists; (split; [reflexivity|]); apply Forall_app; split; trivial;
    constructor; trivial.
Qed.

Lemma patternLoop_built (text : jsstring) :
  exists transactions,
    patternLoop toUpperCase text = Normal transactions /\ patternBuilt toUpperCase text transactions.
Proof.
  unfold patternLoop.
  apply foldM_invariant with (I := patternBuilt toUpperCase text); [|constructor].
  intros ts pattern Hp Hts.
  apply foldM_invariant with (I := patternBuilt toUpperCase text); [|exact Hts].
  intros ts' m Hm Hts'. now apply addCandidate_built.
Qed.

Lemma parsedDebit_In (line : jsstring) (t : transaction) :
  In t (parsedDebit toUpperCase line) ->
  parseTransactionLine toUpperCase line = Some t /\ truthy t.(debit) = true.
Proof.
  unfold parsedDebit. destruct (parseTransactionLine toUpperCase line) as [t'|]; [|intros []].
  destruct (truthy (debit t')) eqn:E; [|intros []].
  intros [<-|[]]. auto.
Qed.

Lemma pushedFor_later (front suffix : list jsstring) (t : transaction) :
  (exists before ls after, suffix = before ++ ls ++ after /\ pushedFor toUpperCase ls t) ->
  exists before ls after, front ++ suffix = before ++ ls ++ after /\ pushedFor toUpperCase ls t.
Proof.
  intros [before [ls [after [-> H]]]]. exists (front ++ before), ls, after.
  split; [now rewrite app_assoc | exact H].
Qed.

Lemma lineByLineFrom_pushed (n : nat) :
  forall lines inOperationsSection t,
    length lines <= n ->
    In t (lineByLineFrom toUpperCase inOperationsSection lines) ->
    exists before ls after, lines = before ++ ls ++ after /\ pushedFor toUpperCase ls t.
Proof.
  induction n as [|n IH]; intros lines b t Hlen Hin.
  - destruct lines; [destruct Hin | simpl in Hlen; lia].
  - destruct lines as [|l ls0]; [destruct Hin|]. simpl in Hlen.
    assert (Hrec1 : forall b', In t (lineByLineFrom toUpperCase b' ls0) ->
              exists before ls after, l :: ls0 = before ++ ls ++ after /\ pushedFor toUpperCase ls t).
    { intros b' H. apply (pushedFor_later [l]). apply (IH _ b'); [lia | exact H]. }
    assert (Hone : forall after, In t (parsedDebit toUpperCase (Str.trim l)) ->
              (Re.test Pat.dmy (Str.trim l) = true \/ startsWithDate (Str.trim l) = true) ->
              exists before ls after', l :: after = before ++ ls ++ after' /\ pushedFor toUpperCase ls t).
    { intros after H Hd. exists [], [l], after. split; [reflexivity|].
      repeat split; simpl; try lia; try discriminate; assumption. }
    cbn [lineByLineFrom] in Hin.
    destruct (isSectionHeader (Str.trim l)); [now apply (Hrec1 true)|].
    destruct (negb b || (length (Str.trim l) =? 0)); [now apply (Hrec1 b)|].
    assert (Hdirect :
              In t (if Re.test Pat.amountLine (Str.trim l) && Re.test Pat.dmy (Str.trim l)
                    then parsedDebit toUpperCase (Str.trim l) else []) ->
              exists before ls after, l :: ls0 = before ++ ls ++ after /\ pushedFor toUpperCase ls t).
    { destruct (Re.test Pat.amountLine (Str.trim l)); [|intros []].
      destruct (Re.test Pat.dmy (Str.trim l)) eqn:Ed; [|intros []].
      intros H. apply Hone; auto. }
    destruct (startsWithDate (Str.trim l)) eqn:Es.
    2:{ apply in_app_or in Hin as [Hin|Hin]; [now apply Hdirect | now apply (Hrec1 b)]. }
    assert (Hcomb : forall full ls,
              In t (if negb (Re.test Pat.amountLine (Str.trim l))
                    then parsedDebit toUpperCase full else []) ->
              full = Str.join (js " ") (map Str.trim (l :: ls)) -> length ls <= 2 ->
              forall after, exists before ls' after',
                l :: ls ++ after = before ++ ls' ++ after' /\ pushedFor toUpperCase ls' t).
    { intros full ls H -> Hls after.
      destruct (negb (Re.test Pat.amountLine (Str.trim l))); [|destruct H].
      exists [], (l :: ls), after. split; [reflexivity|].
      repeat split; simpl; try lia; try discriminate; auto. }
    destruct ls0 as [|n1 ls1].
    { apply in_app_or in Hin as [Hin|Hin]; [now apply Hdirect|].
      apply in_app_or in Hin as [Hin|Hin]; [|now apply (Hrec1 b)].
      apply (Hcomb _ [] Hin); [reflexivity | simpl; lia]. }
    destruct (continues (Str.trim n1)).
    2:{ apply in_app_or in Hin as [Hin|Hin]; [now apply Hdirect|].
        apply in_app_or in Hin as [Hin|Hin]; [|now apply (Hrec1 b)].
        apply (Hcomb _ [] Hin); [reflexivity | simpl; lia]. }
    assert (Hrec2 : In t (lineByLineFrom toUpperCase b ls1) ->
              exists before ls after,
                l :: n1 :: ls1 = before ++ ls ++ after /\ pushedFor toUpperCase ls t).
    { intros H. apply (pushedFor_later [l; n1]). apply (IH _ b); [simpl in Hlen; lia | exact H]. }
    assert (Htwo : In t (if negb (Re.test Pat.amountLine (Str.trim l))
                         then parsedDebit toUpperCase (Str.trim l ++ js " " ++ Str.trim n1)
                         else []) ->
              exists before ls after,
                l :: n1 :: ls1 = before ++ ls ++ after /\ pushedFor toUpperCase ls t).
    { intros H. apply (Hcomb _ [n1] H); [reflexivity | simpl; lia]. }
    destruct ls1 as [|n2 ls2].
    { apply in_app_or in Hin as [Hin|Hin]; [now apply Hdirect|].
      apply in_app_or in Hin as [Hin|Hin]; [now apply Htwo | now apply Hrec2]. }
    destruct (continues (Str.trim n2)).
    2:{ apply in_app_or in Hin as [Hin|Hin]; [now apply Hdirect|].
        apply in_app_or in Hin as [Hin|Hin]; [now apply Htwo | now apply Hrec2]. }
    apply in_app_or in Hin as [Hin|Hin]; [now apply Hdirect|].
    apply in_app_or in Hin as [Hin|Hin].
    + apply (Hcomb _ [n1; n2] Hin); [|simpl; lia].
      simpl. now rewrite <- !app_assoc.
    + apply (pushedFor_later [l; n1; n2]). apply (IH _ b); [simpl in Hlen; lia | exact Hin].
Qed.

Lemma parseTransactionLine_columns (line : jsstring) (t : transaction) :
  parseTransactionLine toUpperCase line = Some t ->
  exists a,
    t.(debit) = (if isDebitTransaction toUpperCase line t.(nature) then Some a else None)
    /\ t.(credit) = (if isDebitTransaction toUpperCase line t.(nature) then None else Some a).
Proof.
  unfold parseTransactionLine.
  destruct (Re.matchG (Re.Group 1 Pat.dmy) line) as [dates|]; [|discriminate].
  destruct (Re.matchG Pat.amountOrNumber line) as [amounts|]; [|discriminate].
  intros H. injection H as <-. cbn [debit credit nature].
  exists (last amounts []).
  now destruct (isDebitTransaction toUpperCase line _).
Qed.

Lemma truthy_Some (o : option jsstring) :
  truthy o = true -> exists a, o = Some a /\ a <> [].
Proof.
  destruct o as [[|c a]|]; try discriminate. intros _. exists (c :: a). split; [reflexivity | discriminate].
Qed.

Lemma merge_In (news transactions : list transaction) (t : transaction) :
  In t (fold_left mergeOne news transactions) -> In t transactions \/ In t news.
Proof.
  revert transactions. induction news as [|x news IH]; intros ts H; simpl in H; [now left|].
  apply IH in H as [H|H]; [|right; now right].
  unfold mergeOne in H. destruct (isDuplicateMerge ts x); [now left|].
  apply in_app_or in H as [H|[<-|[]]]; [now left | right; now left].
Qed.

Lemma parseTransactions_returns (text : jsstring) :
  exists transactions,
    parseTransactions toUpperCase text = Normal transactions
    /\ Forall (debitOnly toUpperCase text) transactions.
Proof.
  destruct (patternLoop_built text) as [ts0 [E0 H0]].
  unfold parseTransactions. rewrite E0. simpl. eexists. split; [reflexivity|].
  apply Forall_forall. intros t Hin. apply filter_In in Hin as [Hin Htruthy].
  apply truthy_Some in Htruthy as [a [Ha Hne]].
  apply merge_In in Hin as [Hin|Hin].
  - unfold patternBuilt in H0. rewrite Forall_forall in H0.
    destruct (H0 t Hin) as [line [description Hfrom]].
    assert (Hcopy := Hfrom).
    destruct Hfrom as [pattern [m [d [v [a' [Hp [Hm [Hc [Hline Ht]]]]]]]]].
    destruct (isDebitTransaction toUpperCase line description) eqn:Ed.
    2:{ rewrite Ht in Ha. discriminate Ha. }
    split; [now exists a|]. split; [now rewrite Ht|].
    exists line, description. split; [now left|]. split; [exact Ed|].
    now apply isDebitTransaction_true.
  - unfold parseTransactionsLineByLine in Hin.
    apply (lineByLineFrom_pushed _ _ _ _ (Nat.le_refl _)) in Hin
      as [before [ls [after [Hsplit [Hne' [Hlen [Hpushed _]]]]]]].
    apply parsedDebit_In in Hpushed as [Hparse _].
    destruct (parseTransactionLine_columns _ _ Hparse) as [a' [Hd Hc]].
    destruct (isDebitTransaction toUpperCase _ (nature t)) eqn:Ed.
    2:{ rewrite Hd in Ha. discriminate Ha. }
    split; [now exists a|]. split; [exact Hc|].
    exists (Str.join (js " ") (map Str.trim ls)), (nature t).
    split; [right; exists before, ls, after; auto 10|]. split; [exact Ed|].
    now apply isDebitTransaction_true.
Qed.

(** C4.  For every text [parseTransactions] returns, and every
    transaction it returns has its debit amount populated (a non-empty
    string) and its credit field [null], and was built from a candidate,
    found by one of the three patterns or by the line scan, whose matched
    text and description hold no credit keyword once upper-cased: the
    candidates classified CREDIT are not returned. *)
Theorem parseTransactions_debit_only (text : jsstring) :
  exists transactions,
    parseTransactions toUpperCase text = Normal transactions
    /\ forall t, In t transactions ->
         (exists a, t.(debit) = Some a /\ a <> [])
         /\ t.(credit) = None
         /\ exists line description,
              (fromPattern toUpperCase text t line description
               \/ fromLines toUpperCase text t line description)
              /\ isDebitTransaction toUpperCase line description = true
              /\ forall keyword, In keyword creditKeywords ->
                   ~ occursIn keyword (toUpperCase (line ++ js " " ++ description)).
Proof.
  destruct (parseTransactions_returns text) as [ts [E H]].
  exists ts. split; [exact E|]. intros t Hin.
  rewrite Forall_forall in H. exact (H t Hin).
Qed.

End Pipeline.

(* ================================================================= *)
(** * Dates in the text *)

Lemma occursIn_trans (a b c : jsstring) : occursIn a b -> occursIn b c -> occursIn a c.
Proof.
  intros [p1 [q1 ->]] [p2 [q2 ->]]. exists (p2 ++ p1), (q1 ++ q2).
  now rewrite <- !app_assoc.
Qed.

Lemma hasDate_occursIn (a b : jsstring) : occursIn a b -> hasDate a -> hasDate b.
Proof.
  intros Hab [d [Hd Hin]]. exists d. split; [exact Hd | now apply (occursIn_trans d a b)].
Qed.

Lemma trimStart_suffix (s : jsstring) : exists pre, s = pre ++ Str.trimStart s.
Proof.
  induction s as [|c s [pre IH]]; simpl.
  - now exists [].
  - destruct (Str.isWhiteSpace c).
    + exists (c :: pre). simpl. now f_equal.
    + now exists [].
Qed.

Lemma trimEnd_prefix (s : jsstring) : exists post, s = Str.trimEnd s ++ post.
Proof.
  unfold Str.trimEnd. destruct (trimStart_suffix (rev s)) as [pre H].
  exists (rev pre). rewrite <- rev_app_distr, <- H. now rewrite rev_involutive.
Qed.

Lemma trim_occursIn (s : jsstring) : occursIn (Str.trim s) s.
Proof.
  unfold Str.trim. destruct (trimStart_suffix s) as [pre H].
  destruct (trimEnd_prefix (Str.trimStart s)) as [post H'].
  exists pre, post. now rewrite <- H', <- H.
Qed.

Lemma splitChar_pieces (sep : N) (s : jsstring) :
  exists l0 ls, Str.splitChar sep s = l0 :: ls
    /\ (exists post, s = l0 ++ post) /\ forall l, In l ls -> occursIn l s.
Proof.
  induction s as [|c s [l0 [ls [E [[post Hpre] Hrest]]]]]; simpl.
  - exists [], []. split; [reflexivity|]. split; [now exists [] | intros l []].
  - destruct (N.eqb c sep).
    + exists [], (Str.splitChar sep s). split; [reflexivity|].
      split; [now exists (c :: s)|]. intros l Hl. rewrite E in Hl.
      assert (H : occursIn l s).
      { destruct Hl as [<-|Hl]; [exists [], post; exact Hpre | now apply Hrest]. }
      destruct H as [p [q ->]]. now exists (c :: p), q.
    + rewrite E. exists (c :: l0), ls. split; [reflexivity|].
      split; [exists post; simpl; now rewrite <- Hpre|].
      intros l Hl. destruct (Hrest l Hl) as [p [q ->]]. now exists (c :: p), q.
Qed.

Lemma splitChar_occursIn (sep : N) (s l : jsstring) :
  In l (Str.splitChar sep s) -> occursIn l s.
Proof.
  destruct (splitChar_pieces sep s) as [l0 [ls [E [[post Hpre] Hrest]]]].
  rewrite E. intros [<-|H]; [exists [], post; exact Hpre | now apply Hrest].
Qed.

(** ** Words of the date pattern *)

Lemma lang_times_class (n : nat) (p : N -> bool) (w : jsstring) :
  Re.lang (Re.times n (Re.Class p)) w -> length w = n /\ forallb p w = true.
Proof.
  simpl. intros [ws [-> [Hall [Hlow Hhigh]]]].
  assert (Hlen : length ws = n) by lia. clear Hlow Hhigh. rewrite <- Hlen. clear Hlen.
  induction Hall as [|w ws [c [-> Hc]] Hall [IH1 IH2]]; simpl; [auto|].
  rewrite Hc, IH1, IH2. auto.
Qed.

Lemma lang_dmy (w : jsstring) : Re.lang Pat.dmy w -> dateShaped w = true.
Proof.
  unfold Pat.dmy. cbn [Re.seqs]. cbn [Re.lang Pat.slash Re.chr].
  intros [w1 [r1 [-> [H1 [w2 [r2 [-> [[c1 [-> Hc1]] [w3 [r3 [-> [H3
            [w4 [w5 [-> [[c2 [-> Hc2]] H5]]]]]]]]]]]]]]]].
  apply lang_times_class in H1 as [L1 F1].
  apply lang_times_class in H3 as [L3 F3].
  apply lang_times_class in H5 as [L5 F5].
  apply N.eqb_eq in Hc1, Hc2. subst c1 c2.
  destruct w1 as [|a [|b [|? ?]]]; try discriminate L1.
  destruct w3 as [|c [|e [|? ?]]]; try discriminate L3.
  destruct w5 as [|f [|g [|h [|i [|? ?]]]]]; try discriminate L5.
  simpl in F1, F3, F5. simpl.
  destruct (Re.isDigit a), (Re.isDigit b), (Re.isDigit c), (Re.isDigit e),
    (Re.isDigit f), (Re.isDigit g), (Re.isDigit h), (Re.isDigit i);
    try discriminate; reflexivity.
Qed.

Lemma patterns_start_with_date (pattern : Re.regex * nat) (w : jsstring) :
  In pattern Pat.patterns -> Re.lang (fst pattern) w -> hasDate w.
Proof.
  intros [<-|[<-|[<-|[]]]]; cbn [fst Re.seqs]; intros H;
    cbn [Re.lang] in H; destruct H as [w1 [w2 [-> [H1 _]]]];
    apply lang_dmy in H1; exists w1; (split; [exact H1|]); exists [], w2; reflexivity.
Qed.

Lemma matchAll_word (r : Re.regex) (text : jsstring) (m : Re.matchResult) :
  In m (Re.matchAll r text) -> Re.lang r (Re.matched m) /\ occursIn (Re.matched m) text.
Proof.
  intros H. apply ReFacts.scan_sound in H as [pre [s' [-> H]]].
  apply ReFacts.matchAt_sound in H as [_ [Hs [_ [Hl _]]]].
  split; [exact Hl|]. exists pre, (Re.following m). now rewrite <- Hs.
Qed.

Lemma exec_word (r : Re.regex) (text : jsstring) (m : Re.matchResult) :
  Re.exec r text = Some m -> Re.lang r (Re.matched m) /\ occursIn (Re.matched m) text.
Proof.
  intros H. apply ReFacts.search_sound in H as [pre [s' [-> H]]].
  apply ReFacts.matchAt_sound in H as [_ [Hs [_ [Hl _]]]].
  split; [exact Hl|]. exists pre, (Re.following m). now rewrite <- Hs.
Qed.

Lemma test_dmy_hasDate (s : jsstring) : Re.test Pat.dmy s = true -> hasDate s.
Proof.
  unfold Re.test. destruct (Re.exec Pat.dmy s) as [m|] eqn:E; [|discriminate].
  intros _. apply exec_word in E as [Hl Ho]. apply lang_dmy in Hl.
  now exists (Re.matched m).
Qed.

Lemma startsWithDate_hasDate (s : jsstring) : startsWithDate s = true -> hasDate s.
Proof.
  unfold startsWithDate, Re.test.
  destruct (Re.exec (Re.Seq Re.Bol Pat.dmy) s) as [m|] eqn:E; [|discriminate].
  intros _. apply exec_word in E as [Hl Ho].
  cbn [Re.lang] in Hl. destruct Hl as [w1 [w2 [Hw [-> Hl]]]]. simpl in Hw.
  apply lang_dmy in Hl. exists w2. split; [exact Hl | now rewrite <- Hw].
Qed.

(* ================================================================= *)
(** * Totality of the pipeline *)

Lemma marker_group_defined (r : Re.regex) (s : jsstring) (m : Re.matchResult) :
  Re.binds 1 r = true -> Re.exec r s = Some m ->
  exists g, Re.group 1 m = Some g /\ defined (Re.group 1 m) = Normal g.
Proof.
  intros Hb H. apply ReFacts.search_sound in H as [pre [s' [_ H]]].
  apply ReFacts.matchAt_sound in H as [_ [_ [_ [_ Hg]]]].
  apply defined_Some. now apply Hg.
Qed.

(** [extractClientName] never throws. *)
Lemma extractClientName_returns (description : jsstring) :
  exists name, extractClientName description = Normal name.
Proof.
  unfold extractClientName.
  set (general := match Str.trim _ with [] => _ | _ :: _ => _ end).
  assert (Hgeneral : exists name, general = Normal name).
  { unfold general. destruct (Str.trim _); eauto. }
  destruct (Str.includes description (js "VIR INSTANTANE EMIS NET")).
  - destruct (Re.exec Pat.pour description) as [m|] eqn:E; [|eauto].
    destruct (marker_group_defined Pat.pour description m eq_refl E) as [g [_ ->]].
    simpl. eauto.
  - destruct (Str.includes description (js "PRELEVEMENT EUROPEEN")); [|exact Hgeneral].
    destruct (Re.exec Pat.de description) as [m|] eqn:E; [|exact Hgeneral].
    destruct (marker_group_defined Pat.de description m eq_refl E) as [g [_ ->]].
    simpl. eauto.
Qed.

Section Totality.

Variable toUpperCase : jsstring -> jsstring.

Lemma processTransaction_returns (i : nat) (t : transaction) :
  t.(debit) <> None -> exists e, processTransaction toUpperCase i t = Normal e.
Proof.
  intros Hd. unfold processTransaction.
  destruct (extractClientName_returns t.(nature)) as [name ->]. simpl.
  destruct (debit t) as [a|]; [|congruence]. simpl. eauto.
Qed.

Lemma lineByLine_needs_date (text : jsstring) (t : transaction) :
  In t (parseTransactionsLineByLine toUpperCase (Str.splitChar 10 text)) -> hasDate text.
Proof.
  intros H. unfold parseTransactionsLineByLine in H.
  apply (lineByLineFrom_pushed _ _ _ _ _ (Nat.le_refl _)) in H
    as [before [ls [after [Hsplit [Hne [_ [_ Hdate]]]]]]].
  destruct ls as [|l ls]; [congruence|]. simpl in Hdate.
  assert (Hl : hasDate (Str.trim l)).
  { destruct Hdate as [H|H]; [now apply test_dmy_hasDate | now apply startsWithDate_hasDate]. }
  apply (hasDate_occursIn (Str.trim l)); [|exact Hl].
  apply (occursIn_trans _ l); [apply trim_occursIn|].
  apply (splitChar_occursIn 10). rewrite Hsplit. apply in_or_app. right. now left.
Qed.

Lemma patternLoop_needs_date (text : jsstring) :
  ~ hasDate text -> patternLoop toUpperCase text = Normal [].
Proof.
  intros Hno.
  assert (Hnone : forall pattern, In pattern Pat.patterns ->
                    Re.matchAll (fst pattern) text = []).
  { intros pattern Hp. destruct (Re.matchAll (fst pattern) text) as [|m ms] eqn:E; [reflexivity|].
    exfalso. apply Hno.
    destruct (matchAll_word (fst pattern) text m) as [Hl Ho]; [rewrite E; now left|].
    apply (hasDate_occursIn (Re.matched m)); [exact Ho|].
    now apply (patterns_start_with_date pattern). }
  unfold patternLoop.
  assert (Hfold : forall ps, incl ps Pat.patterns ->
            foldM (fun transactions pattern =>
                     foldM (addCandidate toUpperCase (snd pattern))
                           (Re.matchAll (fst pattern) text) transactions) ps []
            = Normal []).
  { induction ps as [|p ps IH]; intros Hincl; simpl; [reflexivity|].
    rewrite (Hnone p) by (apply Hincl; now left). simpl.
    apply IH. intros q Hq. apply Hincl. now right. }
  apply Hfold. apply incl_refl.
Qed.

(** C9.  The pipeline is total: for every text, [parseTransactions]
    returns a list of transactions and [processTransactions] returns one
    record for each of them, with no exception and no endless loop.  The
    empty text gives the empty list, and so does every text in which no
    date DD/MM/YYYY occurs. *)
Theorem pipeline_total (text : jsstring) :
  (exists transactions records,
     parseTransactions toUpperCase text = Normal transactions
     /\ processTransactions toUpperCase transactions = Normal records
     /\ pipeline toUpperCase text = Normal records
     /\ length records = length transactions)
  /\ pipeline toUpperCase [] = Normal []
  /\ (~ hasDate text -> pipeline toUpperCase text = Normal []).
Proof.
  split; [|split].
  - destruct (parseTransactions_returns toUpperCase text) as [ts [E H]].
    destruct (mapM_total _ _ (processTransaction toUpperCase) ts) with (i := 0)
      as [records [Er Hlen]].
    { intros i t Hin. apply processTransaction_returns.
      rewrite Forall_forall in H. destruct (H t Hin) as [[a [Ha _]] _]. congruence. }
    exists ts, records. unfold pipeline, processTransactions. rewrite E. simpl. auto.
  - vm_compute. reflexivity.
  - intros Hno. unfold pipeline, parseTransactions.
    rewrite (patternLoop_needs_date text Hno). simpl.
    destruct (parseTransactionsLineByLine toUpperCase (Str.splitChar 10 text)) as [|t ts] eqn:E.
    + reflexivity.
    + exfalso. apply Hno. apply (lineByLine_needs_date text t). rewrite E. now left.
Qed.

End Totality.

Lemma dateShaped_length (d : jsstring) : dateShaped d = true -> length d = 10.
Proof.
  destruct d as [|a [|b [|s1 [|c [|e [|s2 [|f [|g [|h [|i [|j d]]]]]]]]]]];
    simpl; intros H; try discriminate H; reflexivity.
Qed.

Lemma hasDateb_spec (text : jsstring) : hasDateb text = true <-> hasDate text.
Proof.
  split.
  - induction text as [|c text IH]; cbn [hasDateb]; intros H.
    + rewrite orb_false_r in H. discriminate H.
    + apply orb_true_iff in H as [H|H].
      * exists (firstn 10 (c :: text)). split; [exact H|].
        exists [], (skipn 10 (c :: text)). cbn [app]. symmetry. apply firstn_skipn.
      * destruct (IH H) as [d [Hd [pre [post ->]]]]. exists d. split; [exact Hd|].
        now exists (c :: pre), post.
  - intros [d [Hd [pre [post ->]]]]. induction pre as [|c pre IH].
    + assert (E : firstn 10 ([] ++ d ++ post) = d).
      { cbn [app]. rewrite <- (dateShaped_length d Hd).
        rewrite firstn_app, Nat.sub_diag, firstn_all. simpl. apply app_nil_r. }
      destruct ([] ++ d ++ post) as [|c t] eqn:Et; cbn [hasDateb]; rewrite E, Hd; reflexivity.
    + cbn [app hasDateb]. rewrite IH. apply orb_true_r.
Qed.

(** The theorem at a text with an amount and no date. *)
Lemma pipeline_total_witness :
  ~ hasDate (js "Solde au 31 janvier : 1 234,56")
  /\ pipeline Str.toUpperCaseLatin1 (js "Solde au 31 janvier : 1 234,56") = Normal [].
Proof.
  assert (Hno : ~ hasDate (js "Solde au 31 janvier : 1 234,56")).
  { intros H. apply hasDateb_spec in H. vm_compute in H. discriminate H. }
  split; [exact Hno|].
  destruct (pipeline_total Str.toUpperCaseLatin1 (js "Solde au 31 janvier : 1 234,56"))
    as [_ [_ Hempty]].
  exact (Hempty Hno).
Defined.

(* ================================================================= *)
(** * Amounts and the scenario of the salary transfer *)

(** C2 at the line of Scenario 1.  The parser keeps the amount as it is
    written, "2 000,00"; the record built from it holds "2000,00" followed
    by the euro sign and no field of the record holds "2 000,00". *)
Theorem processTransactions_amount_text :
  parseTransactions Str.toUpperCaseLatin1 scenario1
    = Normal [salaryTransfer; salaryTransferAgain]
  /\ salaryTransfer.(debit) = Some (js "2 000,00")
  /\ processTransactions Str.toUpperCaseLatin1 [salaryTransfer]
       = Normal [salaryRecord 1 salaryTransfer]
  /\ (salaryRecord 1 salaryTransfer).(amountWithTaxes) = js "2000,00" ++ [8364%N]
  /\ ~ In (js "2 000,00") (textFields (salaryRecord 1 salaryTransfer)).
Proof.
  split; [vm_compute; reflexivity|].
  split; [reflexivity|].
  split; [vm_compute; reflexivity|].
  split; [reflexivity|].
  apply not_In_by_eqb. vm_compute. reflexivity.
Qed.

(** C7 at its input.  The pipeline returns two records for the line of
    Scenario 1, one from the first pattern and one from the third; both
    have the date 02/01/2025, the name "M. JORGE GOENAGA PEREZ", the
    category "MASSE SALARIALE" with confidence "medium", the amount text
    "2000,00" with the euro sign and the movement type "other". *)
Theorem pipeline_scenario1 :
  pipeline Str.toUpperCaseLatin1 scenario1
    = Normal [salaryRecord 1 salaryTransfer; salaryRecord 2 salaryTransferAgain]
  /\ determineMovementType Str.toUpperCaseLatin1 salaryTransfer.(nature) = js "other"
  /\ js "other" <> js "transfer"
  /\ js "2000,00" ++ [8364%N] <> js "2 000,00".
Proof.
  split; [vm_compute; reflexivity|].
  split; [vm_compute; reflexivity|].
  split; discriminate.
Qed.

(** In general the amount text of a record is the debit text without
    its white space, followed by the euro sign. *)
Lemma processTransaction_amount (toUpperCase : jsstring -> jsstring) (i : nat)
    (t : transaction) (e : expense) (d : jsstring) :
  processTransaction toUpperCase i t = Normal e -> t.(debit) = Some d ->
  e.(amountWithTaxes) = replaceEach Str.isWhiteSpace [] d ++ [8364%N].
Proof.
  unfold processTransaction. intros H Hd. rewrite Hd in H.
  destruct (extractClientName (nature t)) as [name|]; [|discriminate H].
  simpl in H. injection H as <-. cbn [amountWithTaxes].
  unfold Re.space. now rewrite ReRuns.replaceG_class.
Qed.

(** ** Other lines, for reference *)

(** The strict amount pattern takes the whole of "2 000,00", and the lazy
    description of the first pattern stops before it. *)
Example amountStrict_with_space :
  option_map Re.matched (Re.exec Pat.amountStrict (js "au 2 000,00 net"))
  = Some (js "2 000,00").
Proof. vm_compute. reflexivity. Qed.

Example first_pattern_description :
  match Re.matchAll (fst (hd (Re.Empty, 0) Pat.patterns)) scenario1 with
  | [m] => Re.group 3 m = Some (js "VIR INSTANTANE EMIS NET POUR: M. JORGE GOENAGA PEREZ")
           /\ Re.group 4 m = Some (js "2 000,00")
  | _ => False
  end.
Proof. vm_compute. split; reflexivity. Qed.

(** A card remittance is classified CREDIT and gives no record. *)
Example remittance_discarded :
  pipeline Str.toUpperCaseLatin1
    (js "27/02/2025 27/02/2025 REMISE CB 24/01 R70304 CT36631988501 179,37")
  = Normal [].
Proof. vm_compute. reflexivity. Qed.

(** A line without any keyword is a debit of category "AUTRES". *)
Example unknown_line_is_debit :
  pipeline Str.toUpperCaseLatin1 (js "05/03/2025 05/03/2025 XYZ 10,00")
  = Normal [mkExpense 1 (js "05/03/2025") [] (js "XYZ") (js "10,00" ++ [8364%N]) [] [] []
              (js "cost") (js "other") (js "unknown") (js "service")
              (js "AUTRES") (js "low") (js "XYZ")].
Proof. vm_compute. reflexivity. Qed.

(* ================================================================= *)
(** * The deduplicator *)

Lemma strictEq_spec (o : option jsstring) (a : jsstring) :
  strictEq o a = true <-> o = Some a.
Proof.
  destruct o as [s|]; simpl; [|split; discriminate].
  rewrite eqb_eq. split; [now intros -> | now intros [= ->]].
Qed.

Lemma isDuplicate_spec (transactions : list transaction) (d a description : jsstring) :
  isDuplicate transactions d a description = true
  <-> exists t, In t transactions /\ t.(date) = d /\ t.(debit) = Some a
        /\ (firstn 30 t.(nature) = firstn 30 description
            \/ occursIn (firstn 30 t.(nature)) (firstn 30 description)).
Proof.
  unfold isDuplicate, Str.substring0. rewrite existsb_exists.
  split; intros [t [Hin H]]; exists t; (split; [exact Hin|]).
  - apply andb_true_iff in H as [H Hn]. apply andb_true_iff in H as [Hd Ha].
    apply eqb_eq in Hd. apply strictEq_spec in Ha. apply orb_true_iff in Hn.
    rewrite eqb_eq, includes_spec in Hn. auto.
  - destruct H as [Hd [Ha Hn]]. rewrite !andb_true_iff, orb_true_iff.
    rewrite eqb_eq, includes_spec, strictEq_spec. rewrite eqb_eq. auto.
Qed.

Lemma isDuplicateMerge_spec (transactions : list transaction) (newTx : transaction) :
  isDuplicateMerge transactions newTx = true
  <-> exists t, In t transactions /\ t.(date) = newTx.(date)
        /\ t.(debit) = newTx.(debit)
        /\ firstn 20 t.(nature) = firstn 20 newTx.(nature).
Proof.
  unfold isDuplicateMerge, Str.substring0. rewrite existsb_exists.
  assert (Hdebit : forall t,
            match debit newTx with
            | Some d => strictEq (debit t) d
            | None => match debit t with None => true | Some _ => false end
            end = true <-> debit t = debit newTx).
  { intros t. destruct (debit newTx) as [d|].
    - apply strictEq_spec.
    - destruct (debit t); split; congruence. }
  split; intros [t [Hin H]]; exists t; (split; [exact Hin|]).
  - apply andb_true_iff in H as [H Hn]. apply andb_true_iff in H as [Hd Ha].
    apply eqb_eq in Hd, Hn. apply Hdebit in Ha. auto.
  - destruct H as [Hd [Ha Hn]]. rewrite !andb_true_iff, !eqb_eq. rewrite Hdebit. auto.
Qed.

Section Deduplicator.

Variable toUpperCase : jsstring -> jsstring.

(** C5 (amended).  In the pattern loop a candidate (date, amount text,
    description) is a duplicate exactly when some transaction kept so far
    has the same date, has that amount text as its debit, and its
    description cut at 30 characters is equal to, or occurs inside, the
    candidate's description cut at 30 characters; a duplicate leaves the
    list as it is, any other candidate is appended after the
    transactions already kept.  In the merge with the line scan a new
    transaction is a duplicate exactly when a kept one has the same date,
    the same debit and the same first 20 characters of description, and
    again only a non-duplicate is appended. *)
Theorem deduplicator_rule (n : nat) (m : Re.matchResult)
    (transactions : list transaction) (d v description a : jsstring) :
  Re.lastIndex m <> Re.index m ->
  candidate n m = Normal (d, v, description, a) ->
  (isDuplicate transactions d a description = true
   <-> exists t, In t transactions /\ t.(date) = d /\ t.(debit) = Some a
         /\ (firstn 30 t.(nature) = firstn 30 description
             \/ occursIn (firstn 30 t.(nature)) (firstn 30 description)))
  /\ (isDuplicate transactions d a description = true ->
      addCandidate toUpperCase n transactions m = Normal transactions)
  /\ (isDuplicate transactions d a description = false ->
      exists t, addCandidate toUpperCase n transactions m = Normal (transactions ++ [t])
        /\ t.(date) = d /\ t.(nature) = Str.trim description
        /\ (t.(debit) = Some a /\ t.(credit) = None
            \/ t.(debit) = None /\ t.(credit) = Some a))
  /\ forall newTx,
       (isDuplicateMerge transactions newTx = true
        <-> exists t, In t transactions /\ t.(date) = newTx.(date)
              /\ t.(debit) = newTx.(debit)
              /\ firstn 20 t.(nature) = firstn 20 newTx.(nature))
       /\ mergeOne transactions newTx
          = (if isDuplicateMerge transactions newTx then transactions
             else transactions ++ [newTx]).
Proof.
  intros Hne Hc. split; [apply isDuplicate_spec|].
  apply Nat.eqb_neq in Hne.
  split; [|split].
  - intros Hdup. unfold addCandidate. rewrite Hne, Hc. simpl. now rewrite Hdup.
  - intros Hdup. unfold addCandidate. rewrite Hne, Hc. simpl. rewrite Hdup.
    destruct (isDebitTransaction toUpperCase (Re.matched m) description);
      eexists; (split; [reflexivity|]); simpl; auto.
  - intros newTx. split; [apply isDuplicateMerge_spec | reflexivity].
Qed.

End Deduplicator.

(** The rule at the first match of the first pattern on the line of
    Scenario 1. *)
Lemma deduplicator_rule_witness :
  let m := hd (Re.mkMatch 0 [] [] 0 []) (Re.matchAll (fst (hd (Re.Empty, 0) Pat.patterns)) scenario1) in
  addCandidate Str.toUpperCaseLatin1 4 [] m = Normal [salaryTransfer]
  /\ addCandidate Str.toUpperCaseLatin1 4 [salaryTransfer] m = Normal [salaryTransfer].
Proof.
  intros m.
  assert (Hne : Re.lastIndex m <> Re.index m) by (vm_compute; discriminate).
  assert (Hc : candidate 4 m
               = Normal (js "02/01/2025", js "02/01/2025",
                         js "VIR INSTANTANE EMIS NET POUR: M. JORGE GOENAGA PEREZ",
                         js "2 000,00")) by (vm_compute; reflexivity).
  split.
  - destruct (deduplicator_rule Str.toUpperCaseLatin1 4 m [] _ _ _ _ Hne Hc)
      as [_ [_ [Hnew _]]].
    destruct Hnew as [t [E _]]; [vm_compute; reflexivity|].
    rewrite E. vm_compute in E |- *. congruence.
  - destruct (deduplicator_rule Str.toUpperCaseLatin1 4 m [salaryTransfer] _ _ _ _ Hne Hc)
      as [_ [Hdup _]].
    apply Hdup. vm_compute. reflexivity.
Defined.

(** C5, as stated, fails: the test is not symmetric in the two
    descriptions.  After "CARTE CAFE" is kept, "X CARTE CAFE" of the same
    date and amount is a duplicate; after "X CARTE CAFE" is kept,
    "CARTE CAFE" is not, although one description is inside the other in
    both orders. *)
Lemma isDuplicate_not_symmetric :
  isDuplicate [oneEuro (js "CARTE CAFE")] (js "01/01/2025") (js "1,00") (js "X CARTE CAFE")
    = true
  /\ isDuplicate [oneEuro (js "X CARTE CAFE")] (js "01/01/2025") (js "1,00") (js "CARTE CAFE")
    = false
  /\ occursIn (js "CARTE CAFE") (js "X CARTE CAFE").
Proof.
  split; [vm_compute; reflexivity|].
  split; [vm_compute; reflexivity|].
  exists (js "X "), []. reflexivity.
Qed.

(* ================================================================= *)
(** * Names after a marker *)

Module MarkerFacts.
Import Re.

Lemma advance_rest (x : state) (w s : jsstring) :
  rest x = w ++ s -> advance x w = mkState (length w + endIndex x) s (captures x).
Proof.
  intros H. unfold advance. rewrite H. rewrite skipn_app, Nat.sub_diag, skipn_all. reflexivity.
Qed.

Lemma run_seq (r1 r2 : regex) (x : state) :
  run (Seq r1 r2) x = flat_map (run r2) (run r1 x).
Proof. reflexivity. Qed.

Lemma run_group (n : nat) (r : regex) (x : state) :
  run (Group n r) x
  = map (fun y => mkState (endIndex y) (rest y)
                    ((n, firstn (endIndex y - endIndex x) (rest x)) :: captures y))
        (run r x).
Proof. reflexivity. Qed.

Lemma run_litI (k : jsstring) :
  forall mk x s, rest x = mk ++ s -> map upperAscii mk = map upperAscii k ->
  run (litI k) x = [advance x mk].
Proof.
  induction k as [|a k IH]; intros mk x s Hr Hk.
  - destruct mk; [|discriminate Hk]. simpl. now rewrite ReRuns.advance_nil.
  - destruct mk as [|b mk]; [discriminate Hk|]. simpl in Hk. injection Hk as Hb Hk.
    assert (Hstep : run (chrI a) x = [mkState (S (endIndex x)) (mk ++ s) (captures x)]).
    { unfold chrI. rewrite ReRuns.run_class, Hr. simpl. rewrite Hb, N.eqb_refl. reflexivity. }
    destruct k as [|a' k].
    + destruct mk; [|discriminate Hk]. cbn [litI]. rewrite Hstep.
      rewrite (advance_rest x [b] s Hr). reflexivity.
    + change (litI (a :: a' :: k)) with (Seq (chrI a) (litI (a' :: k))).
      cbn [run]. rewrite Hstep. cbn [flat_map]. rewrite app_nil_r.
      rewrite (IH mk _ s); [|reflexivity|exact Hk].
      f_equal. apply (ReRuns.advance_cons x b (mk ++ s) mk Hr).
Qed.

Lemma lang_litI (k w : jsstring) :
  lang (litI k) w -> map upperAscii w = map upperAscii k.
Proof.
  revert w. induction k as [|a k IH]; intros w H.
  - simpl in H. now subst.
  - destruct k as [|a' k].
    + simpl in H. destruct H as [c [-> Hc]]. apply N.eqb_eq in Hc. simpl. now rewrite Hc.
    + change (litI (a :: a' :: k)) with (Seq (chrI a) (litI (a' :: k))) in H.
      cbn [lang] in H. destruct H as [w1 [w2 [-> [[c [-> Hc]] H2]]]].
      apply N.eqb_eq in Hc. simpl. rewrite Hc. f_equal. now apply IH.
Qed.

(** The search goes over a prefix at no position of which the pattern
    matches. *)
Lemma search_skip (r : regex) (pre : jsstring) :
  forall s i,
    (forall t, In t (tails pre) -> matchAt r (i + (length pre - length t)) (t ++ s) = None) ->
    search r i (pre ++ s) = search r (i + length pre) s.
Proof.
  induction pre as [|c pre IH]; intros s i H.
  - simpl. now rewrite Nat.add_0_r.
  - cbn [app search].
    pose proof (H (c :: pre) (or_introl eq_refl)) as H0.
    rewrite Nat.sub_diag, Nat.add_0_r in H0. cbn [app] in H0. rewrite H0.
    rewrite IH.
    + f_equal. simpl. lia.
    + intros t Ht. pose proof (H t (or_intror Ht)) as Ht'.
      assert (Hlen : length t <= length pre).
      { clear -Ht. induction pre as [|d pre IHp]; [destruct Ht|].
        destruct Ht as [<-|Ht]; [simpl; lia | simpl; apply IHp in Ht; lia]. }
      replace (S i + (length pre - length t)) with (i + (length (c :: pre) - length t))
        by (change (length (c :: pre)) with (S (length pre)); lia).
      exact Ht'.
Qed.

Lemma search_here (r : regex) (i : nat) (s : jsstring) (m : matchResult) :
  matchAt r i s = Some m -> search r i s = Some m.
Proof. intros H. destruct s; simpl; now rewrite H. Qed.

Section AfterMarker.

Variable marker : jsstring.
Hypothesis marker_upper : map upperAscii marker = marker.

Lemma afterMarker_not_before (pre mk s t : jsstring) (i : nat) :
  firstOccurrence marker pre mk = true -> length mk = length marker ->
  In t (tails pre) ->
  matchAt (Pat.afterMarker marker) i (t ++ mk ++ s) = None.
Proof.
  intros Hfirst Hlen Ht.
  destruct (matchAt (Pat.afterMarker marker) i (t ++ mk ++ s)) as [m|] eqn:E; [|reflexivity].
  exfalso. apply ReFacts.matchAt_sound in E as [_ [Hs [_ [Hl _]]]].
  unfold Pat.afterMarker in Hl. cbn [seqs lang] in Hl.
  destruct Hl as [w1 [w2 [Hw [H1 _]]]]. apply lang_litI in H1.
  unfold firstOccurrence in Hfirst. rewrite forallb_forall in Hfirst.
  specialize (Hfirst t Ht). apply negb_true_iff in Hfirst.
  assert (Hw1 : length w1 = length marker).
  { rewrite <- (length_map upperAscii w1), H1. apply length_map. }
  assert (Hpre : firstn (length marker) (t ++ mk) = w1).
  { rewrite Hw, <- app_assoc in Hs.
    assert (H5 : firstn (length marker) (t ++ mk ++ s) = w1).
    { rewrite Hs, <- Hw1. rewrite firstn_app, Nat.sub_diag, firstn_all. simpl.
      apply app_nil_r. }
    rewrite app_assoc in H5. rewrite firstn_app in H5.
    replace (length marker - length (t ++ mk)) with 0 in H5
      by (rewrite length_app; lia).
    simpl in H5. now rewrite app_nil_r in H5. }
  unfold readsAs in Hfirst. rewrite Hpre, H1, marker_upper, eqb_refl in Hfirst.
  discriminate.
Qed.

Lemma afterMarker_here (mk ws rest : jsstring) (c : N) (i : nat) :
  map upperAscii mk = marker ->
  forallb Str.isWhiteSpace ws = true -> Str.isWhiteSpace c = false ->
  Pat.inMarkedName c = true ->
  exists m, matchAt (Pat.afterMarker marker) i (mk ++ ws ++ c :: rest) = Some m
            /\ group 1 m = Some (c :: takeWhile Pat.inMarkedName rest).
Proof.
  intros Hmk Hws Hc Hin.
  unfold matchAt, Pat.afterMarker. cbn [seqs].
  set (x0 := mkState i (mk ++ ws ++ c :: rest) []).
  rewrite run_seq.
  rewrite (run_litI marker mk x0 (ws ++ c :: rest)); [|reflexivity|now rewrite marker_upper].
  rewrite (advance_rest x0 mk (ws ++ c :: rest) eq_refl). cbn [flat_map].
  rewrite app_nil_r. cbn [endIndex captures x0].
  set (x1 := mkState (length mk + i) (ws ++ c :: rest) []).
  rewrite run_seq.
  destruct (ReRuns.run_star_class Str.isWhiteSpace x1) as [others1 E1].
  unfold space. rewrite E1. cbn [flat_map].
  assert (Hx2 : advance x1 (takeWhile Str.isWhiteSpace (Re.rest x1))
                = mkState (length ws + (length mk + i)) (c :: rest) []).
  { cbn [Re.rest x1]. rewrite (ReRuns.takeWhile_all _ _ _ Hws). cbn [takeWhile].
    rewrite Hc, app_nil_r. apply (advance_rest x1 ws (c :: rest) eq_refl). }
  rewrite Hx2. set (x2 := mkState (length ws + (length mk + i)) (c :: rest) []).
  rewrite run_group.
  pose proof (ReRuns.run_plus_class Pat.inMarkedName x2) as Hplus.
  cbn [Re.rest x2 takeWhile] in Hplus. rewrite Hin in Hplus.
  destruct Hplus as [others2 E2]. rewrite E2. cbn [map app].
  eexists. split; [reflexivity|].
  unfold group. cbn [groups captures assoc Nat.eqb]. f_equal.
  unfold advance, x2. cbn [endIndex Re.rest].
  rewrite (ReRuns.takeWhile_prefix Pat.inMarkedName rest) at 2.
  apply (ReRuns.firstn_front (c :: takeWhile Pat.inMarkedName rest)).
Qed.

(** The first match of the marker pattern in a description whose first
    marker is followed by a name. *)
Lemma exec_afterMarker (description rest : jsstring) (c : N) :
  markerFollowed marker description c rest ->
  exists m, exec (Pat.afterMarker marker) description = Some m
            /\ group 1 m = Some (c :: takeWhile Pat.inMarkedName rest).
Proof.
  intros [pre [mk [ws [-> [Hmk [Hfirst [Hws [Hc Hd]]]]]]]].
  apply eqb_eq in Hmk.
  assert (Hlen : length mk = length marker).
  { rewrite <- Hmk. symmetry. apply length_map. }
  assert (Hin : Pat.inMarkedName c = true).
  { unfold Pat.inMarkedName. rewrite Hd. simpl.
    destruct (N.eqb c 10) eqn:E; [|reflexivity].
    apply N.eqb_eq in E. subst c. discriminate Hc. }
  destruct (afterMarker_here mk ws rest c (0 + length pre) Hmk Hws Hc Hin) as [m [Hm Hg]].
  exists m. split; [|exact Hg].
  unfold exec. rewrite search_skip.
  - now apply search_here.
  - intros t Ht. now apply afterMarker_not_before with (pre := pre).
Qed.

End AfterMarker.
End MarkerFacts.

Lemma trimStart_keeps_last (l : jsstring) (c : N) :
  Str.isWhiteSpace c = false -> Str.trimStart (l ++ [c]) <> [].
Proof.
  intros Hc. induction l as [|d l IH]; simpl.
  - now rewrite Hc.
  - destruct (Str.isWhiteSpace d); [exact IH | discriminate].
Qed.

Lemma trim_nonempty (c : N) (t : jsstring) :
  Str.isWhiteSpace c = false -> Str.trim (c :: t) <> [].
Proof.
  intros Hc. unfold Str.trim. cbn [Str.trimStart]. rewrite Hc.
  unfold Str.trimEnd. cbn [rev]. intros H.
  apply (f_equal (@rev N)) in H. rewrite rev_involutive in H. simpl in H.
  now apply (trimStart_keeps_last (rev t) c Hc).
Qed.

Lemma join_splitRuns_nonempty (p : N -> bool) (by_ s : jsstring) :
  by_ <> [] -> s <> [] -> Str.join by_ (splitRuns p false s) <> [].
Proof.
  intros Hby Hs. destruct s as [|c s]; [congruence|]. cbn [splitRuns].
  destruct (p c).
  - rewrite ReRuns.join_cons by apply ReRuns.splitRuns_nonempty.
    simpl. destruct by_; [congruence | discriminate].
  - pose proof (ReRuns.splitRuns_nonempty p s false) as Hne.
    destruct (splitRuns p false s) as [|l ls]; [congruence|]. cbn [consHead].
    destruct ls; simpl; discriminate.
Qed.

Lemma collapseSpaces_nonempty (s : jsstring) : s <> [] -> collapseSpaces s <> [].
Proof.
  intros Hs. unfold collapseSpaces, Re.space. rewrite ReRuns.replaceG_plus_class.
  apply join_splitRuns_nonempty; [discriminate | exact Hs].
Qed.

(** C8 (amended).  When the description contains "VIR INSTANTANE EMIS
    NET" and its first "POUR:" marker (letters in either case) is
    followed, after white space if any, by a code unit that is neither
    white space nor a digit, or when it contains "PRELEVEMENT EUROPEEN"
    and not "VIR INSTANTANE EMIS NET" and its first "DE:" marker is
    followed in that way, the name returned is not empty: it is the text
    from that code unit up to the next digit or line feed, trimmed and
    with each run of white space replaced by one space. *)
Theorem extractClientName_after_marker (description rest : jsstring) (c : N) :
  (occursIn (js "VIR INSTANTANE EMIS NET") description
   /\ markerFollowed (js "POUR:") description c rest)
  \/ (~ occursIn (js "VIR INSTANTANE EMIS NET") description
      /\ occursIn (js "PRELEVEMENT EUROPEEN") description
      /\ markerFollowed (js "DE:") description c rest) ->
  exists name,
    extractClientName description = Normal name
    /\ name <> []
    /\ name = collapseSpaces (Str.trim (c :: Re.takeWhile Pat.inMarkedName rest)).
Proof.
  intros H.
  assert (Hc : Str.isWhiteSpace c = false).
  { destruct H as [[_ H]|[_ [_ H]]]; destruct H as [pre [mk [ws [_ [_ [_ [_ [Hc _]]]]]]]];
      exact Hc. }
  exists (collapseSpaces (Str.trim (c :: Re.takeWhile Pat.inMarkedName rest))).
  split; [|split; [apply collapseSpaces_nonempty; now apply trim_nonempty | reflexivity]].
  unfold extractClientName.
  destruct H as [[Hvir Hm]|[Hvir [Hprel Hm]]].
  - apply includes_spec in Hvir. rewrite Hvir.
    destruct (MarkerFacts.exec_afterMarker (js "POUR:") eq_refl description rest c Hm)
      as [m [Hexec Hg]].
    unfold Pat.pour. rewrite Hexec, Hg. reflexivity.
  - assert (Hno : Str.includes description (js "VIR INSTANTANE EMIS NET") = false).
    { destruct (Str.includes description (js "VIR INSTANTANE EMIS NET")) eqn:E; [|reflexivity].
      apply includes_spec in E. contradiction. }
    apply includes_spec in Hprel. rewrite Hno, Hprel.
    destruct (MarkerFacts.exec_afterMarker (js "DE:") eq_refl description rest c Hm)
      as [m [Hexec Hg]].
    unfold Pat.de. rewrite Hexec, Hg. reflexivity.
Qed.

(** The theorem at the description of Scenario 1. *)
Lemma extractClientName_after_marker_witness :
  exists name,
    extractClientName (js "VIR INSTANTANE EMIS NET POUR: M. JORGE GOENAGA PEREZ") = Normal name
    /\ name <> []
    /\ name = js "M. JORGE GOENAGA PEREZ".
Proof.
  destruct (extractClientName_after_marker
              (js "VIR INSTANTANE EMIS NET POUR: M. JORGE GOENAGA PEREZ")
              (js ". JORGE GOENAGA PEREZ") 77%N) as [name [E [Hne Hname]]].
  - left. split.
    + exists [], (js " POUR: M. JORGE GOENAGA PEREZ"). reflexivity.
    + exists (js "VIR INSTANTANE EMIS NET "), (js "POUR:"), (js " ").
      repeat split; reflexivity.
  - exists name. split; [exact E|]. split; [exact Hne|].
    rewrite Hname. vm_compute. reflexivity.
Defined.

(** C8, as stated, fails.  "POUR: 12" has the marker followed by the
    non-empty text "12" and the name is "Unknown Client"; with the
    salary-transfer wording before it the name is the empty string. *)
Lemma extractClientName_degenerate :
  occursIn (js "POUR:") (js "POUR: 12")
  /\ extractClientName (js "POUR: 12") = Normal (js "Unknown Client")
  /\ extractClientName (js "VIR INSTANTANE EMIS NET POUR: 12") = Normal [].
Proof.
  split; [exists [], (js " 12"); reflexivity|].
  split; vm_compute; reflexivity.
Qed.

(* ================================================================= *)
(** * Names that the extractor leaves unchanged *)

Module CleanFacts.
Import Re.

(** ** Anchored patterns *)

Lemma matchAt_bol_later (r : regex) (i : nat) (s : jsstring) :
  matchAt (Seq Bol r) (S i) s = None.
Proof. reflexivity. Qed.

Lemma search_bol_later (r : regex) (s : jsstring) :
  forall i, search (Seq Bol r) (S i) s = None.
Proof.
  induction s as [|c s IH]; intros i; cbn [search]; rewrite matchAt_bol_later;
    [reflexivity | apply IH].
Qed.

Lemma exec_bol (r : regex) (s : jsstring) :
  exec (Seq Bol r) s = matchAt (Seq Bol r) 0 s.
Proof.
  unfold exec. destruct s as [|c s]; cbn [search];
    destruct (matchAt (Seq Bol r) 0 _); try reflexivity.
  apply search_bol_later.
Qed.

Lemma matchAt_run (r : regex) (i : nat) (s : jsstring) (m : matchResult) :
  matchAt r i s = Some m ->
  exists y, In y (run r (mkState i s [])) /\ following m = rest y.
Proof.
  unfold matchAt. destruct (run r (mkState i s [])) as [|y l]; [discriminate|].
  intros H. injection H as <-. exists y. split; [now left | reflexivity].
Qed.

(** A match of [^r] at the start of [s] splits [s] into a word of [r] and
    what follows. *)
Lemma exec_bol_word (r : regex) (s : jsstring) (m : matchResult) :
  exec (Seq Bol r) s = Some m -> exists w, lang r w /\ s = w ++ following m.
Proof.
  rewrite exec_bol. intros H.
  apply ReFacts.matchAt_sound in H as [_ [Hs [_ [Hl _]]]].
  cbn [lang] in Hl. destruct Hl as [w1 [w2 [Hw [-> Hl]]]]. simpl in Hw.
  exists w2. split; [exact Hl | now rewrite <- Hw].
Qed.

Lemma lang_alts_litI (ks : list jsstring) (w : jsstring) :
  ks <> [] -> lang (alts (map litI ks)) w ->
  exists k, In k ks /\ map upperAscii w = map upperAscii k.
Proof.
  induction ks as [|k ks IH]; intros Hne H; [congruence|].
  destruct ks as [|k' ks].
  - simpl in H. apply MarkerFacts.lang_litI in H. exists k. split; [now left | exact H].
  - change (alts (map litI (k :: k' :: ks)))
      with (Alt (litI k) (alts (map litI (k' :: ks)))) in H.
    cbn [lang] in H. destruct H as [H|H].
    + apply MarkerFacts.lang_litI in H. exists k. split; [now left | exact H].
    + destruct (IH ltac:(discriminate) H) as [k0 [Hin Hk]]. exists k0. split; [now right | exact Hk].
Qed.

Lemma startsWithI_intro (s w f k : jsstring) :
  s = w ++ f -> map upperAscii w = k -> startsWithI s k = true.
Proof.
  intros -> Hk. unfold startsWithI, readsAs.
  assert (Hlen : length k = length w) by (rewrite <- Hk; apply length_map).
  rewrite Hlen, firstn_app, Nat.sub_diag, firstn_all. simpl. rewrite app_nil_r.
  now apply eqb_eq.
Qed.

(** ** The five leading patterns *)

Section Prefixes.

Variable name : jsstring.
Hypothesis no_boilerplate :
  forallb (fun k => negb (startsWithI name k)) boilerplate = true.

Lemma not_stripped (w f : jsstring) (ks : list jsstring) :
  name = w ++ f ->
  (exists k, In k ks /\ map upperAscii w = map upperAscii k) ->
  forallb (fun k => existsb (Str.eqb (map upperAscii k)) boilerplate) ks = true ->
  False.
Proof.
  intros Hn [k [Hin Hk]] Hks.
  rewrite forallb_forall in Hks. specialize (Hks k Hin).
  apply In_by_eqb in Hks.
  pose proof no_boilerplate as Hno. rewrite forallb_forall in Hno.
  specialize (Hno _ Hks). rewrite (startsWithI_intro name w f _ Hn Hk) in Hno.
  discriminate.
Qed.

Lemma prefix1_none : exec Pat.prefix1 name = None.
Proof.
  destruct (exec Pat.prefix1 name) as [m|] eqn:E; [|reflexivity]. exfalso.
  unfold Pat.prefix1 in E. cbn [seqs] in E. apply exec_bol_word in E as [w [Hl Hn]].
  cbn [lang] in Hl. destruct Hl as [w1 [w2 [-> [H1 _]]]].
  apply (lang_alts_litI [js "PRELEVEMENT"; js "VIREMENT"; js "PAIEMENT"]) in H1;
    [|discriminate].
  rewrite <- app_assoc in Hn.
  apply (not_stripped w1 _ _ Hn H1). vm_compute. reflexivity.
Qed.

Lemma lang_opt_cases (g : bool) (r : regex) (w : jsstring) :
  lang (Quant 0 (Some 1) g r) w -> w = [] \/ lang r w.
Proof.
  cbn [lang]. intros [ws [-> [Hall [_ Hhigh]]]].
  destruct ws as [|w1 [|w2 ws]]; [now left| |simpl in Hhigh; lia].
  right. simpl. rewrite app_nil_r. now inversion Hall.
Qed.

Lemma prefix2_none : exec Pat.prefix2 name = None.
Proof.
  destruct (exec Pat.prefix2 name) as [m|] eqn:E; [|reflexivity]. exfalso.
  unfold Pat.prefix2 in E. cbn [seqs] in E. apply exec_bol_word in E as [w [Hl Hn]].
  cbn [lang] in Hl. destruct Hl as [w1 [w2 [-> [H1 [w3 [w4 [-> [H3 _]]]]]]]].
  fold (lang (Quant 0 (Some 1) true (Group 1 (Seq (litI (js "EUROPEEN")) (star space))))) in H1.
  apply lang_opt_cases in H1 as [->|H1].
  - apply MarkerFacts.lang_litI in H3. simpl app in Hn. rewrite <- app_assoc in Hn.
    apply (not_stripped w3 _ [js "SEPA"] Hn); [|vm_compute; reflexivity].
    exists (js "SEPA"). split; [now left | exact H3].
  - cbn [lang] in H1. destruct H1 as [e [sp [-> [He _]]]].
    apply MarkerFacts.lang_litI in He. rewrite <- !app_assoc in Hn.
    apply (not_stripped e _ [js "EUROPEEN"] Hn); [|vm_compute; reflexivity].
    exists (js "EUROPEEN"). split; [now left | exact He].
Qed.

Lemma prefix3_none : exec Pat.prefix3 name = None.
Proof.
  destruct (exec Pat.prefix3 name) as [m|] eqn:E; [|reflexivity]. exfalso.
  unfold Pat.prefix3 in E. cbn [seqs] in E. apply exec_bol_word in E as [w [Hl Hn]].
  cbn [lang] in Hl. destruct Hl as [w1 [w2 [-> [H1 [w3 [w4 [-> [H3 _]]]]]]]].
  fold (lang (Quant 0 (Some 1) true (Group 1 (Seq (litI (js "INSTANTANE")) (star space))))) in H1.
  apply lang_opt_cases in H1 as [->|H1].
  - apply MarkerFacts.lang_litI in H3. simpl app in Hn. rewrite <- app_assoc in Hn.
    apply (not_stripped w3 _ [js "EMIS"] Hn); [|vm_compute; reflexivity].
    exists (js "EMIS"). split; [now left | exact H3].
  - cbn [lang] in H1. destruct H1 as [e [sp [-> [He _]]]].
    apply MarkerFacts.lang_litI in He. rewrite <- !app_assoc in Hn.
    apply (not_stripped e _ [js "INSTANTANE"] Hn); [|vm_compute; reflexivity].
    exists (js "INSTANTANE"). split; [now left | exact He].
Qed.

Lemma with_colon (ks : list jsstring) (w1 w2 : jsstring) :
  (exists k, In k ks /\ map upperAscii w1 = map upperAscii k) ->
  lang (chr 58) w2 ->
  exists k, In k (map (fun k => k ++ [58%N]) ks)
            /\ map upperAscii (w1 ++ w2) = map upperAscii k.
Proof.
  intros [k [Hin Hk]] [c [-> Hc]]. apply N.eqb_eq in Hc. subst c.
  exists (k ++ [58%N]). split; [apply in_map_iff; now exists k|].
  rewrite !map_app, Hk. reflexivity.
Qed.

Lemma prefix4_none : exec Pat.prefix4 name = None.
Proof.
  destruct (exec Pat.prefix4 name) as [m|] eqn:E; [|reflexivity]. exfalso.
  unfold Pat.prefix4 in E. cbn [seqs] in E. apply exec_bol_word in E as [w [Hl Hn]].
  cbn [lang] in Hl. destruct Hl as [w1 [w2 [-> [H1 [w3 [w4 [-> [H3 _]]]]]]]].
  apply (lang_alts_litI [js "DE"; js "DU"; js "LA"; js "LE"; js "LES"]) in H1;
    [|discriminate].
  pose proof (with_colon _ w1 w3 H1 H3) as H.
  rewrite app_assoc, <- app_assoc in Hn.
  apply (not_stripped (w1 ++ w3) _ _ Hn H). vm_compute. reflexivity.
Qed.

Lemma prefix5_none : exec Pat.prefix5 name = None.
Proof.
  destruct (exec Pat.prefix5 name) as [m|] eqn:E; [|reflexivity]. exfalso.
  unfold Pat.prefix5 in E. cbn [seqs] in E. apply exec_bol_word in E as [w [Hl Hn]].
  cbn [lang] in Hl. destruct Hl as [w1 [w2 [-> [H1 [w3 [w4 [-> [H3 _]]]]]]]].
  apply (lang_alts_litI [js "POUR"; js "PAR"]) in H1; [|discriminate].
  pose proof (with_colon _ w1 w3 H1 H3) as H.
  rewrite app_assoc, <- app_assoc in Hn.
  apply (not_stripped (w1 ++ w3) _ _ Hn H). vm_compute. reflexivity.
Qed.

(** Nothing is stripped from the name. *)
Lemma prefixes_kept :
  Re.replace Pat.prefix5 []
    (Re.replace Pat.prefix4 []
      (Re.replace Pat.prefix3 []
        (Re.replace Pat.prefix2 []
          (Re.replace Pat.prefix1 [] name)))) = name.
Proof.
  unfold Re.replace.
  rewrite prefix1_none, prefix2_none, prefix3_none, prefix4_none, prefix5_none.
  reflexivity.
Qed.

End Prefixes.

(** ** Words *)

Lemma nameChar_not_space (c : N) : nameChar c = true -> Str.isWhiteSpace c = false.
Proof.
  unfold nameChar, isDigit, Str.isWhiteSpace. intros H.
  repeat rewrite orb_true_iff in H. repeat rewrite andb_true_iff in H.
  repeat rewrite N.leb_le in H. repeat rewrite N.eqb_eq in H.
  repeat rewrite orb_false_iff. repeat rewrite andb_false_iff.
  repeat rewrite N.leb_gt. repeat rewrite N.eqb_neq.
  repeat split; lia.
Qed.

Lemma nameChar_inside (c : N) :
  nameChar c = true \/ c = 32%N -> Pat.outsideName c = false.
Proof.
  intros [H| ->]; [|reflexivity].
  unfold Pat.outsideName. unfold nameChar in H. apply negb_false_iff.
  repeat rewrite orb_true_iff in *. tauto.
Qed.

Lemma splitRuns_word (p : N -> bool) (w t : jsstring) :
  forallb (fun c => negb (p c)) w = true ->
  splitRuns p false (w ++ t) = prependTo w (splitRuns p false t).
Proof.
  induction w as [|c w IH]; intros H.
  - simpl. symmetry. apply ReRuns.prependTo_nil, ReRuns.splitRuns_nonempty.
  - simpl in H. apply andb_true_iff in H as [Hc Hw]. apply negb_true_iff in Hc.
    cbn [app splitRuns]. rewrite Hc, (IH Hw).
    destruct (splitRuns p false t); reflexivity.
Qed.

Lemma splitRuns_join (words : list jsstring) :
  words <> [] -> Forall solid words ->
  splitRuns Str.isWhiteSpace false (Str.join (js " ") words) = words.
Proof.
  induction words as [|w ws IH]; intros Hne Hall; [congruence|].
  inversion Hall as [|w' ws' [Hw Hsolid] Hws]; subst.
  destruct ws as [|w2 ws].
  - simpl. rewrite <- (app_nil_r w) at 1. rewrite (splitRuns_word _ w [] Hsolid).
    simpl. now rewrite app_nil_r.
  - rewrite ReRuns.join_cons by discriminate.
    rewrite (splitRuns_word _ w _ Hsolid).
    change (js " " ++ Str.join (js " ") (w2 :: ws))
      with (32%N :: Str.join (js " ") (w2 :: ws)).
    cbn [splitRuns]. change (Str.isWhiteSpace 32) with true. cbv iota.
    rewrite ReRuns.splitRuns_after_run.
    assert (Hfirst : takeWhile Str.isWhiteSpace (Str.join (js " ") (w2 :: ws)) = []).
    { inversion Hws as [|w2' ws2 [Hw2 Hs2] _]; subst.
      destruct w2 as [|c w2]; [congruence|]. simpl in Hs2.
      apply andb_true_iff in Hs2 as [Hc _]. apply negb_true_iff in Hc.
      destruct ws; simpl; now rewrite Hc. }
    rewrite Hfirst. cbn [length skipn]. rewrite IH; [|discriminate|exact Hws].
    simpl. now rewrite app_nil_r.
Qed.

Lemma trimStart_solid (c : N) (t : jsstring) :
  Str.isWhiteSpace c = false -> Str.trimStart (c :: t) = c :: t.
Proof. intros H. simpl. now rewrite H. Qed.

Lemma trim_edges (s t : jsstring) (c d : N) :
  s = c :: t -> (exists t', s = t' ++ [d]) ->
  Str.isWhiteSpace c = false -> Str.isWhiteSpace d = false ->
  Str.trim s = s.
Proof.
  intros Hs [t' Hs'] Hc Hd. unfold Str.trim.
  rewrite Hs, (trimStart_solid c t Hc), <- Hs. unfold Str.trimEnd.
  rewrite Hs', rev_app_distr. simpl. rewrite Hd. simpl.
  now rewrite rev_involutive.
Qed.

Lemma join_edges (words : list jsstring) :
  words <> [] -> Forall solid words ->
  exists c t d t', Str.join (js " ") words = c :: t
    /\ Str.join (js " ") words = t' ++ [d]
    /\ Str.isWhiteSpace c = false /\ Str.isWhiteSpace d = false.
Proof.
  intros Hne Hall.
  assert (Hhead : exists c t, Str.join (js " ") words = c :: t
                              /\ Str.isWhiteSpace c = false).
  { destruct words as [|w ws]; [congruence|].
    inversion Hall as [|w' ws' [Hw Hs] _]; subst.
    destruct w as [|c w]; [congruence|]. simpl in Hs.
    apply andb_true_iff in Hs as [Hc _]. apply negb_true_iff in Hc.
    destruct ws; simpl; eauto. }
  assert (Hlast : exists d t', Str.join (js " ") words = t' ++ [d]
                               /\ Str.isWhiteSpace d = false).
  { clear Hhead. induction words as [|w ws IH]; [congruence|].
    inversion Hall as [|w' ws' [Hw Hs] Hws]; subst.
    destruct ws as [|w2 ws].
    - simpl. destruct (exists_last Hw) as [t' [d ->]].
      rewrite forallb_app in Hs. apply andb_true_iff in Hs as [_ Hd]. simpl in Hd.
      rewrite andb_true_r in Hd. apply negb_true_iff in Hd. eauto.
    - rewrite ReRuns.join_cons by discriminate.
      destruct (IH ltac:(discriminate) Hws) as [d [t' [E Hd]]].
      exists d, (w ++ js " " ++ t'). rewrite E. split; [now rewrite <- !app_assoc | exact Hd]. }
  destruct Hhead as [c [t [E1 Hc]]]. destruct Hlast as [d [t' [E2 Hd]]].
  exists c, t, d, t'. auto.
Qed.

Lemma join_chars (P : N -> Prop) (words : list jsstring) :
  P 32%N -> Forall (Forall P) words -> Forall P (Str.join (js " ") words).
Proof.
  intros Hsp Hall. induction Hall as [|w ws Hw Hws IH]; [constructor|].
  destruct ws as [|w2 ws]; [exact Hw|].
  rewrite ReRuns.join_cons by discriminate.
  apply Forall_app. split; [exact Hw|]. constructor; [exact Hsp | exact IH].
Qed.

Lemma replaceEach_id (p : N -> bool) (by_ s : jsstring) :
  Forall (fun c => p c = false) s -> replaceEach p by_ s = s.
Proof.
  unfold replaceEach. induction 1 as [|c s Hc Hs IH]; simpl; [reflexivity|].
  now rewrite Hc, IH.
Qed.

(** ** The filter on words *)

Lemma leadingDigit_false (w : jsstring) :
  isDigit (hd 0%N w) = false -> test Pat.leadingDigit w = false.
Proof.
  intros H. unfold test, Pat.leadingDigit. rewrite exec_bol.
  unfold matchAt. rewrite MarkerFacts.run_seq. cbn [run endIndex Nat.eqb flat_map].
  rewrite app_nil_r. unfold digit. rewrite ReRuns.run_class. cbn [rest].
  destruct w as [|c w]; [reflexivity|]. simpl in H. now rewrite H.
Qed.

Lemma stopwords_upper :
  forallb (fun k => Str.eqb (map upperAscii k) k) stopwords = true.
Proof. vm_compute. reflexivity. Qed.

Lemma stopword_false (w : jsstring) :
  existsb (fun k => readsAs k w) stopwords = false -> test Pat.stopword w = false.
Proof.
  intros H. unfold test.
  destruct (exec Pat.stopword w) as [m|] eqn:E; [|reflexivity]. exfalso.
  unfold Pat.stopword in E. cbn [seqs] in E. rewrite exec_bol in E.
  destruct (matchAt_run _ _ _ _ E) as [y [Hy Hf]].
  apply ReFacts.matchAt_sound in E as [_ [Hs [_ [Hl _]]]].
  rewrite MarkerFacts.run_seq in Hy. apply in_flat_map in Hy as [z0 [_ Hy]].
  rewrite MarkerFacts.run_seq in Hy. apply in_flat_map in Hy as [z [_ Hy]].
  cbn [run] in Hy. destruct (rest z) eqn:Hz; [|destruct Hy].
  destruct Hy as [<-|[]]. rewrite Hz in Hf. rewrite Hf, app_nil_r in Hs.
  cbn [lang] in Hl. destruct Hl as [w0 [w1 [Hw [-> [w2 [w3 [-> [H2 ->]]]]]]]].
  simpl in Hw. rewrite app_nil_r in Hw. rewrite <- Hs in Hw. subst w2.
  apply (lang_alts_litI stopwords) in H2; [|discriminate].
  destruct H2 as [k [Hin Hk]].
  pose proof stopwords_upper as Hup. rewrite forallb_forall in Hup.
  specialize (Hup k Hin). apply eqb_eq in Hup. rewrite Hup in Hk.
  assert (Hex : existsb (fun k => readsAs k w) stopwords = true).
  { apply existsb_exists. exists k. split; [exact Hin|]. unfold readsAs. now apply eqb_eq. }
  congruence.
Qed.

Lemma filter_all (A : Type) (f : A -> bool) (l : list A) :
  forallb f l = true -> filter f l = l.
Proof.
  induction l as [|a l IH]; simpl; [reflexivity|].
  intros H. apply andb_true_iff in H as [Ha Hl]. rewrite Ha. now rewrite IH.
Qed.

Lemma cleanWord_meaningful (w : jsstring) : cleanWord w = true -> meaningful w = true.
Proof.
  unfold cleanWord, meaningful. intros H.
  apply andb_true_iff in H as [H Hstop]. apply andb_true_iff in H as [H Hdigit].
  apply andb_true_iff in H as [Hlen _].
  apply negb_true_iff in Hstop, Hdigit.
  now rewrite Hlen, (leadingDigit_false w Hdigit), (stopword_false w Hstop).
Qed.

Lemma cleanWord_solid (w : jsstring) : cleanWord w = true -> solid w.
Proof.
  unfold cleanWord. intros H.
  apply andb_true_iff in H as [H _]. apply andb_true_iff in H as [H _].
  apply andb_true_iff in H as [Hlen Hchars]. split.
  - destruct w; [discriminate Hlen | discriminate].
  - rewrite forallb_forall in *. intros c Hc. apply negb_true_iff.
    now apply nameChar_not_space, Hchars.
Qed.

End CleanFacts.

(** C6 (amended).  [extractClientName] gives back unchanged every name in
    clean form: one to five words joined by single spaces, each of three
    characters or more, made of letters, digits, hyphens and periods, not
    starting with a digit and not a stop word, where the name does not
    start with a leading word that the extractor strips and contains
    neither "VIR INSTANTANE EMIS NET" nor "PRELEVEMENT EUROPEEN". *)
Theorem extractClientName_clean_fixed (words : list jsstring) :
  cleanName words = true ->
  extractClientName (Str.join (js " ") words) = Normal (Str.join (js " ") words).
Proof.
  unfold cleanName. set (name := Str.join (js " ") words). intros H.
  apply andb_true_iff in H as [H Hprel]. apply andb_true_iff in H as [H Hvir].
  apply andb_true_iff in H as [H Hbp]. apply andb_true_iff in H as [H Hwords].
  apply andb_true_iff in H as [Hmin Hmax].
  apply negb_true_iff in Hprel, Hvir. apply Nat.leb_le in Hmin, Hmax.
  assert (Hne : words <> []) by (destruct words; [simpl in Hmin; lia | discriminate]).
  assert (Hsolid : Forall solid words).
  { apply Forall_forall. intros w Hw. apply CleanFacts.cleanWord_solid.
    rewrite forallb_forall in Hwords. now apply Hwords. }
  assert (Hsplit : splitRuns Str.isWhiteSpace false name = words)
    by now apply CleanFacts.splitRuns_join.
  assert (Htrim : Str.trim name = name).
  { destruct (CleanFacts.join_edges words Hne Hsolid) as [c [t [d [t' [E1 [E2 [Hc Hd]]]]]]].
    apply (CleanFacts.trim_edges name t c d E1); eauto. }
  assert (Hcollapse : collapseSpaces name = name).
  { unfold collapseSpaces, Re.space. now rewrite ReRuns.replaceG_plus_class, Hsplit. }
  assert (Hchars : Re.replaceG Pat.notNameChar (js " ") name = name).
  { unfold Pat.notNameChar. rewrite ReRuns.replaceG_class.
    apply CleanFacts.replaceEach_id.
    apply (CleanFacts.join_chars (fun c => Pat.outsideName c = false)); [reflexivity|].
    apply Forall_forall. intros w Hw. apply Forall_forall. intros c Hc.
    apply CleanFacts.nameChar_inside. left.
    rewrite forallb_forall in Hwords. specialize (Hwords w Hw).
    unfold cleanWord in Hwords.
    apply andb_true_iff in Hwords as [Hwords _]. apply andb_true_iff in Hwords as [Hwords _].
    apply andb_true_iff in Hwords as [_ Hall]. rewrite forallb_forall in Hall. now apply Hall. }
  unfold extractClientName. fold name. rewrite Hvir, Hprel.
  cbv zeta. rewrite (CleanFacts.prefixes_kept name Hbp).
  unfold Re.space. rewrite ReRuns.split_plus_class, Hsplit.
  rewrite CleanFacts.filter_all.
  2:{ rewrite forallb_forall in *. intros w Hw. now apply CleanFacts.cleanWord_meaningful, Hwords. }
  rewrite firstn_all2 by exact Hmax. fold name.
  rewrite Htrim, Hcollapse, Hchars, Htrim.
  destruct (CleanFacts.join_edges words Hne Hsolid) as [c [t [_ [_ [E1 _]]]]].
  fold name in E1. rewrite E1. reflexivity.
Qed.

(** The theorem at the name obtained by a second run on the name of
    Scenario 1. *)
Lemma extractClientName_clean_fixed_witness :
  cleanName [js "JORGE"; js "GOENAGA"; js "PEREZ"] = true
  /\ extractClientName (js "JORGE GOENAGA PEREZ") = Normal (js "JORGE GOENAGA PEREZ").
Proof.
  split; [reflexivity|].
  apply (extractClientName_clean_fixed [js "JORGE"; js "GOENAGA"; js "PEREZ"]).
  reflexivity.
Defined.

(** C6, as stated, fails.  The name extracted from the description of
    Scenario 1 is "M. JORGE GOENAGA PEREZ"; run again on that name, the
    extractor drops the two-character word and answers
    "JORGE GOENAGA PEREZ". *)
Lemma extractClientName_not_idempotent :
  extractClientName (js "VIR INSTANTANE EMIS NET POUR: M. JORGE GOENAGA PEREZ")
    = Normal (js "M. JORGE GOENAGA PEREZ")
  /\ extractClientName (js "M. JORGE GOENAGA PEREZ") = Normal (js "JORGE GOENAGA PEREZ")
  /\ js "JORGE GOENAGA PEREZ" <> js "M. JORGE GOENAGA PEREZ".
Proof.
  split; [vm_compute; reflexivity|]. split; [vm_compute; reflexivity | discriminate].
Qed.

(* ================================================================= *)
(** * Further properties: movement types and categories *)

Lemma includes_false (s k : jsstring) : Str.includes s k = false <-> ~ occursIn k s.
Proof.
  rewrite <- includes_spec. destruct (Str.includes s k); split; congruence.
Qed.

Lemma find_first (A : Type) (f : A -> bool) (l : list A) (x : A) :
  find f l = Some x ->
  exists before after, l = before ++ x :: after /\ f x = true
                       /\ forall y, In y before -> f y = false.
Proof.
  induction l as [|a l IH]; intros H; simpl in H; [discriminate|].
  destruct (f a) eqn:E.
  - injection H as ->. exists [], l. repeat split; trivial. intros y [].
  - destruct (IH H) as [before [after [-> [Hx Hb]]]].
    exists (a :: before), after. repeat split; trivial.
    intros y [<-|Hy]; [exact E | now apply Hb].
Qed.

Lemma find_none_iff (A : Type) (f : A -> bool) (l : list A) :
  find f l = None <-> forall y, In y l -> f y = false.
Proof.
  split; [apply find_none|].
  induction l as [|a l IH]; intros H; simpl; [reflexivity|].
  rewrite (H a (or_introl eq_refl)). apply IH. intros y Hy. apply H. now right.
Qed.

Section MoreClassifiers.

Variable toUpperCase : jsstring -> jsstring.

(** X1.  [determineMovementType] tests the upper-cased description in a
    fixed order: "direct_debit" exactly when PRELEVEMENT occurs;
    "transfer" exactly when it does not and VIREMENT occurs; "card"
    exactly when neither occurs and CARTE or CB occurs; "check" exactly
    when none of these occurs and CHEQUE occurs; "other" exactly when none
    of the five words occurs. *)
Theorem determineMovementType_rules (description : jsstring) :
  let u := toUpperCase description in
  let result := determineMovementType toUpperCase description in
  let prelevement := occursIn (js "PRELEVEMENT") u in
  let virement := occursIn (js "VIREMENT") u in
  let card := occursIn (js "CARTE") u \/ occursIn (js "CB") u in
  let cheque := occursIn (js "CHEQUE") u in
  (result = js "direct_debit" <-> prelevement)
  /\ (result = js "transfer" <-> ~ prelevement /\ virement)
  /\ (result = js "card" <-> ~ prelevement /\ ~ virement /\ card)
  /\ (result = js "check" <-> ~ prelevement /\ ~ virement /\ ~ card /\ cheque)
  /\ (result = js "other" <-> ~ prelevement /\ ~ virement /\ ~ card /\ ~ cheque)
  /\ In result movementTypes.
Proof.
  intros u result prelevement virement card cheque.
  unfold result, determineMovementType. fold u.
  unfold prelevement, virement, card, cheque.
  destruct (Str.includes u (js "PRELEVEMENT")) eqn:E1;
    [apply includes_spec in E1 | apply includes_false in E1].
  { repeat split; try discriminate; try tauto; simpl; auto. }
  destruct (Str.includes u (js "VIREMENT")) eqn:E2;
    [apply includes_spec in E2 | apply includes_false in E2].
  { repeat split; try discriminate; try tauto; simpl; auto. }
  destruct (Str.includes u (js "CARTE")) eqn:E3;
    [apply includes_spec in E3 | apply includes_false in E3].
  { cbn [orb]. repeat split; try discriminate; try tauto; simpl; auto. }
  destruct (Str.includes u (js "CB")) eqn:E4;
    [apply includes_spec in E4 | apply includes_false in E4].
  { cbn [orb]. repeat split; try discriminate; try tauto; simpl; auto. }
  cbn [orb].
  destruct (Str.includes u (js "CHEQUE")) eqn:E5;
    [apply includes_spec in E5 | apply includes_false in E5].
  { repeat split; try discriminate; try tauto; simpl; auto 6. }
  repeat split; try discriminate; try tauto; simpl; auto 6.
Qed.

(** X2.  The confidence tells which rule of [categorizeTransaction]
    answered.  It is "high" exactly when the name of a category of
    [costCategories] occurs in the upper-cased description, and the
    category is then the first such name in the order of the list; it is
    "low" exactly when the category is "AUTRES", and then no name of
    [costCategories] occurs; otherwise it is "medium", no name of
    [costCategories] occurs and the category is one of the fourteen
    categories of [fuzzyRules]. *)
Theorem categorizeTransaction_confidence (description : jsstring) :
  let u := toUpperCase description in
  let result := categorizeTransaction toUpperCase description in
  let named := exists name, In name costCategories /\ occursIn name u in
  (result.(confidence) = js "high" <-> named)
  /\ (result.(confidence) = js "high" ->
      exists before after,
        costCategories = before ++ result.(category) :: after
        /\ occursIn result.(category) u
        /\ forall name, In name before -> ~ occursIn name u)
  /\ (result.(confidence) = js "low" <-> result.(category) = js "AUTRES")
  /\ (result.(confidence) = js "low" -> ~ named)
  /\ (result.(confidence) = js "medium" ->
      ~ named /\ In result.(category) (map fst fuzzyRules)).
Proof.
  intros u result named. unfold result, categorizeTransaction. fold u.
  destruct (find (fun category => Str.includes u category) costCategories)
    as [name|] eqn:Ename.
  - cbn [confidence category].
    destruct (find_first _ _ _ _ Ename) as [before [after [Hlist [Hin Hfirst]]]].
    assert (Hnamed : named).
    { exists name. split; [|now apply includes_spec].
      rewrite Hlist. apply in_or_app. right. now left. }
    assert (Hnot : name <> js "AUTRES").
    { intros ->. revert Hnamed. intros _.
      assert (Hmem : In (js "AUTRES") costCategories).
      { rewrite Hlist. apply in_or_app. right. now left. }
      revert Hmem. apply not_In_by_eqb. vm_compute. reflexivity. }
    repeat split; try discriminate; try tauto.
    exists before, after. split; [exact Hlist|]. split; [now apply includes_spec|].
    intros c Hc. apply includes_false. now apply Hfirst.
  - assert (Hnone : ~ named).
    { intros [name [Hin Hocc]]. apply includes_spec in Hocc.
      rewrite (find_none _ _ Ename name Hin) in Hocc. discriminate. }
    destruct (find _ fuzzyRules) as [rule|] eqn:Erule; cbn [confidence category].
    + apply find_some in Erule as [Hin _].
      assert (Hnot : fst rule <> js "AUTRES").
      { intros Heq. assert (Hmem : In (js "AUTRES") (map fst fuzzyRules)).
        { rewrite <- Heq. now apply in_map. }
        revert Hmem. apply not_In_by_eqb. vm_compute. reflexivity. }
      repeat split; try discriminate; try tauto. now apply in_map.
    + repeat split; try discriminate; try tauto.
Qed.

End MoreClassifiers.

(* ================================================================= *)
(** * Further properties: records and the merge *)

Lemma mapM_nth (A B : Type) (f : nat -> A -> completion B) (xs : list A) :
  forall i ys, mapM f i xs = Normal ys ->
  length ys = length xs
  /\ forall k x, nth_error xs k = Some x ->
       exists y, nth_error ys k = Some y /\ f (i + k) x = Normal y.
Proof.
  induction xs as [|x xs IH]; intros i ys H; simpl in H.
  - injection H as <-. split; [reflexivity|]. intros [|k] y Hk; discriminate Hk.
  - destruct (f i x) as [y0|] eqn:E0; [|discriminate]. simpl in H.
    destruct (mapM f (S i) xs) as [ys0|] eqn:E1; [|discriminate]. simpl in H.
    injection H as <-. destruct (IH _ _ E1) as [Hlen Hnth].
    split; [simpl; now rewrite Hlen|].
    intros [|k] z Hk; simpl in Hk.
    + injection Hk as <-. exists y0. rewrite Nat.add_0_r. auto.
    + destruct (Hnth k z Hk) as [y [Hy Hf]]. exists y. split; [exact Hy|].
      now rewrite Nat.add_succ_r.
Qed.

Lemma mapM_abnormal (A B : Type) (f : nat -> A -> completion B) (xs : list A) :
  forall i x, In x xs -> (forall j, f j x = Abnormal) -> mapM f i xs = Abnormal.
Proof.
  induction xs as [|a xs IH]; intros i x Hin Hx; [destruct Hin|]. simpl.
  destruct Hin as [->|Hin].
  - now rewrite Hx.
  - destruct (f i a); [|reflexivity]. simpl. now rewrite (IH (S i) x Hin Hx).
Qed.

Lemma replaceEach_filter (p : N -> bool) (s : jsstring) :
  replaceEach p [] s = filter (fun c => negb (p c)) s.
Proof.
  unfold replaceEach. induction s as [|c s IH]; simpl; [reflexivity|].
  destruct (p c); simpl; now rewrite IH.
Qed.

Section Records.

Variable toUpperCase : jsstring -> jsstring.

(** X3.  [processTransactions] throws exactly when one of the
    transactions it is given has a [null] debit (it calls [replace] on
    the debit); otherwise it returns one record for each transaction. *)
Theorem processTransactions_null_debit (transactions : list transaction) :
  (processTransactions toUpperCase transactions = Abnormal
   <-> exists t, In t transactions /\ t.(debit) = None)
  /\ ((forall t, In t transactions -> t.(debit) <> None)
      <-> exists records,
            processTransactions toUpperCase transactions = Normal records
            /\ length records = length transactions).
Proof.
  assert (Hok : (forall t, In t transactions -> t.(debit) <> None) ->
                exists records,
                  processTransactions toUpperCase transactions = Normal records
                  /\ length records = length transactions).
  { intros H. apply mapM_total. intros i t Hin.
    apply processTransaction_returns. now apply H. }
  assert (Hbad : (exists t, In t transactions /\ t.(debit) = None) ->
                 processTransactions toUpperCase transactions = Abnormal).
  { intros [t [Hin Hd]]. apply (mapM_abnormal _ _ _ _ 0 t Hin).
    intros j. unfold processTransaction.
    destruct (extractClientName_returns t.(nature)) as [name ->]. simpl.
    now rewrite Hd. }
  split; split.
  - intros Habn.
    destruct (existsb (fun t => match debit t with None => true | Some _ => false end)
                      transactions) eqn:E.
    + apply existsb_exists in E as [t [Hin Ht]]. exists t. split; [exact Hin|].
      destruct (debit t); [discriminate | reflexivity].
    + exfalso. destruct Hok as [records [Hr _]]; [|congruence].
      intros t Hin Hd.
      assert (Ex : existsb (fun t => match debit t with None => true | Some _ => false end)
                           transactions = true).
      { apply existsb_exists. exists t. split; [exact Hin | now rewrite Hd]. }
      congruence.
  - exact Hbad.
  - exact Hok.
  - intros [records [Hr _]] t Hin Hd.
    rewrite Hbad in Hr; [discriminate|]. now exists t.
Qed.

(** X4.  The records follow the transactions one for one and in order:
    the record at position [k] (from 0) has the index [k + 1], the date
    and the description of the transaction at position [k], the name,
    movement type, frequency, category and confidence computed from that
    description alone, and the fixed values "cost" and "service". *)
Theorem processTransactions_projection (transactions : list transaction)
    (records : list expense) :
  processTransactions toUpperCase transactions = Normal records ->
  length records = length transactions
  /\ forall k t, nth_error transactions k = Some t ->
       exists e, nth_error records k = Some e
         /\ e.(index) = k + 1
         /\ e.(expDate) = t.(date)
         /\ e.(rawNature) = t.(nature)
         /\ extractClientName t.(nature) = Normal e.(client)
         /\ e.(typeOfMovement) = determineMovementType toUpperCase t.(nature)
         /\ e.(frequency) = determineFrequency toUpperCase t.(nature)
         /\ e.(service) = (categorizeTransaction toUpperCase t.(nature)).(category)
         /\ e.(confidenceLevel) = (categorizeTransaction toUpperCase t.(nature)).(confidence)
         /\ e.(typeOfTransaction) = js "cost" /\ e.(typeOfClient) = js "service"
         /\ e.(center) = [] /\ e.(amountWithoutTaxes) = [] /\ e.(worker) = []
         /\ e.(taxes) = [].
Proof.
  intros H. destruct (mapM_nth _ _ _ _ _ _ H) as [Hlen Hnth].
  split; [exact Hlen|]. intros k t Hk.
  destruct (Hnth k t Hk) as [e [He Hf]]. exists e. split; [exact He|].
  simpl in Hf. unfold processTransaction in Hf.
  destruct (extractClientName (nature t)) as [name|]; [|discriminate Hf]. simpl in Hf.
  destruct (debit t) as [d|]; [|discriminate Hf]. simpl in Hf.
  injection Hf as <-. simpl. repeat split; reflexivity.
Qed.

(** X5.  The amount text of a record is the debit text of its
    transaction with every white-space character taken out, followed by
    the euro sign; it holds no white space. *)
Theorem processTransaction_amountWithTaxes (i : nat) (t : transaction) (e : expense) :
  processTransaction toUpperCase i t = Normal e ->
  exists d, t.(debit) = Some d
    /\ e.(amountWithTaxes) = filter (fun c => negb (Str.isWhiteSpace c)) d ++ [8364%N]
    /\ Forall (fun c => Str.isWhiteSpace c = false) e.(amountWithTaxes).
Proof.
  intros H.
  assert (Hd : exists d, debit t = Some d).
  { unfold processTransaction in H.
    destruct (extractClientName (nature t)); [|discriminate H]. simpl in H.
    destruct (debit t) as [d|]; [now exists d | discriminate H]. }
  destruct Hd as [d Hd]. exists d. split; [exact Hd|].
  assert (Ha : e.(amountWithTaxes) = filter (fun c => negb (Str.isWhiteSpace c)) d ++ [8364%N]).
  { rewrite (processTransaction_amount toUpperCase i t e d H Hd).
    now rewrite replaceEach_filter. }
  split; [exact Ha|]. rewrite Ha. apply Forall_app. split.
  - apply Forall_forall. intros c Hc. apply filter_In in Hc as [_ Hc].
    now apply negb_true_iff.
  - constructor; [reflexivity | constructor].
Qed.

Lemma lineByLineFrom_no_header (lines : list jsstring) :
  Forall (fun l => isSectionHeader (Str.trim l) = false) lines ->
  lineByLineFrom toUpperCase false lines = [].
Proof.
  induction 1 as [|l lines Hl _ IH]; [reflexivity|].
  cbn [lineByLineFrom]. rewrite Hl. cbn [negb orb]. exact IH.
Qed.

(** X6.  The line scan starts only below a header of the operations
    section.  When no line of the text, once trimmed, is such a header,
    the line scan finds nothing and [parseTransactions] returns the
    debits of the pattern loop alone. *)
Theorem parseTransactions_without_header (text : jsstring) :
  forallb (fun l => negb (isSectionHeader (Str.trim l))) (Str.splitChar 10 text) = true ->
  parseTransactionsLineByLine toUpperCase (Str.splitChar 10 text) = []
  /\ parseTransactions toUpperCase text
     = (transactions <- patternLoop toUpperCase text ;;
        Normal (filter (fun t => truthy t.(debit)) transactions)).
Proof.
  intros H.
  assert (Hscan : parseTransactionsLineByLine toUpperCase (Str.splitChar 10 text) = []).
  { apply lineByLineFrom_no_header. apply Forall_forall. intros l Hl.
    rewrite forallb_forall in H. apply negb_true_iff. now apply H. }
  split; [exact Hscan|]. unfold parseTransactions. now rewrite Hscan.
Qed.

Lemma isDuplicateMerge_fewer (transactions more : list transaction) (t : transaction) :
  isDuplicateMerge (transactions ++ more) t = false -> isDuplicateMerge transactions t = false.
Proof.
  unfold isDuplicateMerge. rewrite existsb_app. intros H.
  now apply orb_false_iff in H as [H _].
Qed.

Lemma merge_shape (news : list transaction) :
  forall transactions,
  exists added,
    fold_left mergeOne news transactions = transactions ++ added
    /\ forall t, In t added -> In t news /\ isDuplicateMerge transactions t = false.
Proof.
  induction news as [|x news IH]; intros ts; simpl.
  - exists []. split; [now rewrite app_nil_r | intros t []].
  - unfold mergeOne at 2. destruct (isDuplicateMerge ts x) eqn:E.
    + destruct (IH ts) as [added [Hfold Hadded]]. exists added. split; [exact Hfold|].
      intros t Ht. destruct (Hadded t Ht). auto.
    + destruct (IH (ts ++ [x])) as [added [Hfold Hadded]]. exists (x :: added).
      split; [now rewrite Hfold, <- app_assoc|].
      intros t [<-|Ht]; [auto|]. destruct (Hadded t Ht) as [Hin Hdup].
      split; [now right | now apply isDuplicateMerge_fewer in Hdup].
Qed.

(** X7.  The merge never removes or moves what the patterns found: the
    result of [parseTransactions] is the list of the debits of the
    pattern loop, in the order found, followed by transactions of the
    line scan, each of which is no duplicate (same date, same debit, same
    first 20 characters of description) of a transaction of the pattern
    loop. *)
Theorem parseTransactions_patterns_first (text : jsstring) :
  exists found added,
    patternLoop toUpperCase text = Normal found
    /\ parseTransactions toUpperCase text
       = Normal (filter (fun t => truthy t.(debit)) found ++ added)
    /\ forall t, In t added ->
         In t (parseTransactionsLineByLine toUpperCase (Str.splitChar 10 text))
         /\ isDuplicateMerge found t = false.
Proof.
  destruct (patternLoop_built toUpperCase text) as [found [E _]].
  destruct (merge_shape
              (parseTransactionsLineByLine toUpperCase (Str.splitChar 10 text)) found)
    as [added [Hfold Hadded]].
  exists found, added. split; [exact E|]. split; [|exact Hadded].
  unfold parseTransactions. rewrite E. simpl. rewrite Hfold, filter_app. f_equal. f_equal.
  apply CleanFacts.filter_all. apply forallb_forall. intros t Ht.
  destruct (Hadded t Ht) as [Hin _]. unfold parseTransactionsLineByLine in Hin.
  apply (lineByLineFrom_pushed toUpperCase _ _ _ _ (Nat.le_refl _)) in Hin
    as [_ [ls [_ [_ [_ [_ [Hp _]]]]]]].
  now apply parsedDebit_In in Hp as [_ Hp].
Qed.

End Records.

(* ================================================================= *)
(** * Further properties: names *)

Lemma trimStart_head (s : jsstring) :
  Str.trimStart s = [] \/ exists c t, Str.trimStart s = c :: t /\ Str.isWhiteSpace c = false.
Proof.
  induction s as [|c s IH]; simpl; [now left|].
  destruct (Str.isWhiteSpace c) eqn:E; [exact IH | right; eauto].
Qed.

Lemma trimEnd_last (s : jsstring) :
  Str.trimEnd s = [] \/ exists t d, Str.trimEnd s = t ++ [d] /\ Str.isWhiteSpace d = false.
Proof.
  unfold Str.trimEnd. destruct (trimStart_head (rev s)) as [->|[c [t [-> Hc]]]].
  - now left.
  - right. exists (rev t), c. simpl. auto.
Qed.

Lemma trim_edgesTrimmed (s : jsstring) : edgesTrimmed (Str.trim s) = true.
Proof.
  unfold Str.trim.
  destruct (trimEnd_last (Str.trimStart s)) as [->|[t [d [E Hd]]]]; [reflexivity|].
  destruct (trimEnd_prefix (Str.trimStart s)) as [post Hpre]. rewrite E in *.
  destruct (trimStart_head s) as [H0|[c [u [Hc Hws]]]].
  - rewrite H0 in Hpre. destruct t; discriminate Hpre.
  - rewrite Hc in Hpre.
    assert (Hhead : exists v, t ++ [d] = c :: v).
    { destruct t as [|c' t]; simpl in *; injection Hpre as -> _; eauto. }
    destruct Hhead as [v Hv]. rewrite Hv. cbn [edgesTrimmed]. rewrite Hws.
    rewrite <- Hv, last_last, Hd. reflexivity.
Qed.

Lemma replaceEach_inside (s : jsstring) :
  Forall (fun c => Pat.outsideName c = false) (replaceEach Pat.outsideName (js " ") s).
Proof.
  unfold replaceEach. induction s as [|c s IH]; simpl; [constructor|].
  destruct (Pat.outsideName c) eqn:E.
  - simpl. constructor; [reflexivity | exact IH].
  - simpl. constructor; [exact E | exact IH].
Qed.

Lemma Forall_part (P : N -> Prop) (part s : jsstring) :
  occursIn part s -> Forall P s -> Forall P part.
Proof.
  intros [pre [post ->]] H. apply Forall_app in H as [_ H].
  now apply Forall_app in H as [H _].
Qed.

(** X8.  A description that contains neither "VIR INSTANTANE EMIS NET"
    nor "PRELEVEMENT EUROPEEN" goes through the general rule, and the
    name it gets is never empty, has no white space at its start or end,
    and is made only of letters (accented Latin letters included),
    digits, white space, hyphens and periods; "Unknown Client", the
    fallback, is such a name. *)
Theorem extractClientName_general_form (description : jsstring) :
  ~ occursIn (js "VIR INSTANTANE EMIS NET") description ->
  ~ occursIn (js "PRELEVEMENT EUROPEEN") description ->
  exists name,
    extractClientName description = Normal name
    /\ name <> []
    /\ edgesTrimmed name = true
    /\ Forall (fun c => Pat.outsideName c = false) name.
Proof.
  intros Hvir Hprel. apply includes_false in Hvir, Hprel.
  unfold extractClientName. rewrite Hvir, Hprel. cbv zeta.
  unfold Pat.notNameChar. rewrite ReRuns.replaceG_class.
  match goal with
  | |- context [replaceEach Pat.outsideName (js " ") ?x] => set (cleaned := x)
  end.
  pose proof (trim_edgesTrimmed (replaceEach Pat.outsideName (js " ") cleaned)) as Hedges.
  pose proof (Forall_part _ _ _
                (trim_occursIn (replaceEach Pat.outsideName (js " ") cleaned))
                (replaceEach_inside cleaned)) as Hchars.
  destruct (Str.trim (replaceEach Pat.outsideName (js " ") cleaned)) as [|c name].
  - exists (js "Unknown Client"). split; [reflexivity|]. split; [discriminate|].
    split; [reflexivity|]. apply Forall_forall. intros c Hc.
    assert (Hall : forallb (fun c => negb (Pat.outsideName c)) (js "Unknown Client") = true)
      by (vm_compute; reflexivity).
    rewrite forallb_forall in Hall. apply negb_true_iff. now apply Hall.
  - exists (c :: name). split; [reflexivity|]. split; [discriminate|]. auto.
Qed.

Lemma tails_suffix (pre t : jsstring) : t <> [] -> In t (tails (pre ++ t)).
Proof.
  intros Ht. induction pre as [|c pre IH]; simpl.
  - destruct t; [congruence | now left].
  - right. exact IH.
Qed.

(** X9.  A description that contains "VIR INSTANTANE EMIS NET" and in
    which nothing reads "POUR:", whatever the case of the letters, is
    named "Salary Payment". *)
Theorem extractClientName_salary_payment (description : jsstring) :
  occursIn (js "VIR INSTANTANE EMIS NET") description ->
  noMarker (js "POUR:") description = true ->
  extractClientName description = Normal (js "Salary Payment").
Proof.
  intros Hvir Hno. apply includes_spec in Hvir.
  unfold extractClientName. rewrite Hvir.
  destruct (Re.exec Pat.pour description) as [m|] eqn:E; [|reflexivity]. exfalso.
  apply ReFacts.search_sound in E as [pre [s' [Hs E]]].
  apply ReFacts.matchAt_sound in E as [_ [Hs' [_ [Hl _]]]].
  unfold Pat.pour, Pat.afterMarker in Hl. cbn [Re.seqs Re.lang] in Hl.
  destruct Hl as [w1 [w2 [Hw [H1 _]]]]. apply MarkerFacts.lang_litI in H1.
  assert (Hlen : length w1 = 5).
  { rewrite <- (length_map Re.upperAscii w1), H1. reflexivity. }
  unfold noMarker in Hno. rewrite forallb_forall in Hno.
  assert (Hin : In s' (tails description)).
  { rewrite Hs. apply tails_suffix. rewrite Hs', Hw. destruct w1; discriminate. }
  specialize (Hno s' Hin). apply negb_true_iff in Hno.
  unfold readsAs in Hno. rewrite Hs', Hw, <- app_assoc in Hno.
  change (length (js "POUR:")) with 5 in Hno. rewrite <- Hlen in Hno.
  rewrite firstn_app, Nat.sub_diag, firstn_all in Hno. simpl firstn in Hno.
  rewrite app_nil_r, H1 in Hno. vm_compute in Hno. discriminate.
Qed.

(* ================================================================= *)
(** * Further properties: the shape of what is captured *)

Module ShapeFacts.
Import Re.

Lemma lang_classes (P : N -> Prop) (r : regex) :
  classesSatisfy P r -> forall w, lang r w -> Forall P w.
Proof.
  induction r as [|p|r1 IH1 r2 IH2|r1 IH1 r2 IH2|min max greedy r1 IH|n r1 IH| |];
    intros Hc w Hw; cbn [classesSatisfy lang] in *.
  - subst. constructor.
  - destruct Hw as [c [-> Hp]]. constructor; [now apply Hc | constructor].
  - destruct Hc as [Hc1 Hc2]. destruct Hw as [w1 [w2 [-> [H1 H2]]]].
    apply Forall_app. split; [now apply IH1 | now apply IH2].
  - destruct Hc as [Hc1 Hc2]. destruct Hw as [Hw|Hw]; [now apply IH1 | now apply IH2].
  - destruct Hw as [ws [-> [Hall _]]].
    induction Hall as [|v ws Hv Hall IHws]; simpl; [constructor|].
    apply Forall_app. split; [now apply IH | exact IHws].
  - now apply IH.
  - subst. constructor.
  - subst. constructor.
Qed.

Lemma run_captures (Q : nat -> jsstring -> Prop) (r : regex) :
  groupsCapture Q r ->
  forall x y, capturesSatisfy Q x -> In y (run r x) -> capturesSatisfy Q y.
Proof.
  induction r as [|p|r1 IH1 r2 IH2|r1 IH1 r2 IH2|min max greedy r1 IH|k r1 IH| |];
    intros Hg x y Hx Hin; cbn [groupsCapture] in Hg; simpl in Hin.
  - destruct Hin as [<-|[]]. exact Hx.
  - destruct (rest x) as [|c s]; [destruct Hin|].
    destruct (p c); [|destruct Hin]. destruct Hin as [<-|[]]. exact Hx.
  - destruct Hg as [Hg1 Hg2]. apply in_flat_map in Hin as [z [Hz Hy]]. eauto.
  - destruct Hg as [Hg1 Hg2]. apply in_app_or in Hin as [Hin|Hin]; eauto.
  - revert Hin. apply (ReFacts.repeatMatcher_keeps (capturesSatisfy Q) (run r1)); [|exact Hx].
    intros x' y' Hx' Hy'. now apply (IH Hg x' y').
  - destruct Hg as [Hlang Hg]. apply in_map_iff in Hin as [z [<- Hz]].
    intros n v. cbn [captures assoc]. destruct (k =? n) eqn:E.
    + intros Hv. injection Hv as <-. apply Nat.eqb_eq in E. subst n.
      destruct (ReFacts.run_sound r1 x z Hz) as [w [[Hr Hi] Hl]].
      rewrite Hi, Hr. replace (endIndex x + length w - endIndex x) with (length w + 0) by lia.
      rewrite firstn_app_2. simpl. rewrite app_nil_r. now apply Hlang.
    + apply (IH Hg x z Hx Hz).
  - destruct (endIndex x =? 0); [|destruct Hin]. destruct Hin as [<-|[]]. exact Hx.
  - destruct (rest x); [|destruct Hin]. destruct Hin as [<-|[]]. exact Hx.
Qed.

Lemma matchAt_captures (Q : nat -> jsstring -> Prop) (r : regex) (i : nat)
    (s : jsstring) (m : matchResult) :
  groupsCapture Q r -> matchAt r i s = Some m ->
  forall n v, group n m = Some v -> Q n v.
Proof.
  intros Hg. unfold matchAt. destruct (run r (mkState i s [])) as [|y l] eqn:Hrun; [discriminate|].
  intros H. injection H as <-. unfold group. cbn [groups].
  apply (run_captures Q r Hg (mkState i s []) y).
  - intros n v Hv. discriminate Hv.
  - rewrite Hrun. now left.
Qed.

Lemma amountShaped_intro (body : jsstring) (c c1 c2 : N) (t : jsstring) :
  body = c :: t -> isDigit c = true ->
  Forall (fun c => isDigit c = true \/ Str.isWhiteSpace c = true) body ->
  isDigit c1 = true -> isDigit c2 = true ->
  amountShaped (body ++ [44%N; c1; c2]) = true.
Proof.
  intros Hb Hc Hall H1 H2. unfold amountShaped. rewrite rev_app_distr. cbn [rev app].
  rewrite H1, H2. rewrite Hb at 2. cbn [app hd]. rewrite Hc.
  rewrite !andb_true_r. cbn [andb]. apply forallb_forall. intros d Hd.
  apply in_rev in Hd. rewrite Forall_forall in Hall.
  apply orb_true_iff. now apply Hall.
Qed.

Lemma lang_digits_head (min : nat) (max : option nat) (g : bool) (v : jsstring) :
  1 <= min -> (match max with Some j => 1 <= j | None => True end) ->
  lang (Quant min max g digit) v -> exists c t, v = c :: t /\ isDigit c = true.
Proof.
  intros Hmin Hmax [ws [-> [Hall Hlen]]].
  destruct Hall as [|w0 ws [c [-> Hc]] Hall].
  - exfalso. unfold within in Hlen. destruct max; simpl in Hlen; lia.
  - exists c, (concat ws). auto.
Qed.

Lemma lang_two_digits (v : jsstring) :
  lang (times 2 digit) v -> exists c1 c2, v = [c1; c2] /\ isDigit c1 = true /\ isDigit c2 = true.
Proof.
  intros H. apply lang_times_class in H as [Hlen Hall].
  destruct v as [|c1 [|c2 [|? ?]]]; try discriminate Hlen. simpl in Hall.
  exists c1, c2. destruct (isDigit c1), (isDigit c2); try discriminate; auto.
Qed.

Lemma lang_comma (v : jsstring) : lang Pat.comma v -> v = [44%N].
Proof. intros [c [-> Hc]]. apply N.eqb_eq in Hc. now subst. Qed.

(** The words of the body of an amount hold digits and white space. *)
Lemma body_chars (r : regex) (v : jsstring) :
  classesSatisfy (fun c => isDigit c = true \/ Str.isWhiteSpace c = true) r ->
  lang r v -> Forall (fun c => isDigit c = true \/ Str.isWhiteSpace c = true) v.
Proof. intros Hc. now apply lang_classes. Qed.

Lemma lang_amountStrict (w : jsstring) : lang Pat.amountStrict w -> amountShaped w = true.
Proof.
  unfold Pat.amountStrict. cbn [seqs]. intros [H|H].
  - destruct H as [w1 [r1 [-> [H1 [w2 [r2 [-> [H2 [w3 [w4 [-> [H3 H4]]]]]]]]]]]].
    apply lang_comma in H3. subst w3. apply lang_two_digits in H4 as [c1 [c2 [-> [Hc1 Hc2]]]].
    assert (Hb1 : Forall (fun c => isDigit c = true \/ Str.isWhiteSpace c = true) w1).
    { apply (body_chars (range 1 3 digit)); [cbn; auto | exact H1]. }
    assert (Hb2 : Forall (fun c => isDigit c = true \/ Str.isWhiteSpace c = true) w2).
    { apply (body_chars (star (Seq (opt space) (times 3 digit)))); [cbn; auto | exact H2]. }
    apply lang_digits_head in H1 as [c [t [-> Hc]]]; [|lia|lia].
    change ((c :: t) ++ w2 ++ [44%N] ++ [c1; c2])
      with ((c :: t) ++ w2 ++ [44%N; c1; c2]). rewrite app_assoc.
    apply (amountShaped_intro _ c c1 c2 (t ++ w2)); trivial.
    apply Forall_app. auto.
  - destruct H as [w1 [r1 [-> [H1 [w3 [w4 [-> [H3 H4]]]]]]]].
    apply lang_comma in H3. subst w3. apply lang_two_digits in H4 as [c1 [c2 [-> [Hc1 Hc2]]]].
    assert (Hb1 : Forall (fun c => isDigit c = true \/ Str.isWhiteSpace c = true) w1).
    { apply (body_chars (plus digit)); [cbn; auto | exact H1]. }
    apply lang_digits_head in H1 as [c [t [-> Hc]]]; [|lia|exact I].
    apply (amountShaped_intro _ c c1 c2 t); trivial.
Qed.

Lemma lang_amountLoose (w : jsstring) : lang Pat.amountLoose w -> amountShaped w = true.
Proof.
  unfold Pat.amountLoose. cbn [seqs].
  intros [w1 [r1 [-> [[c [-> Hc]] [w2 [r2 [-> [H2 [w3 [w4 [-> [H3 H4]]]]]]]]]]]].
  apply lang_comma in H3. subst w3. apply lang_two_digits in H4 as [c1 [c2 [-> [Hc1 Hc2]]]].
  assert (Hb2 : Forall (fun c => isDigit c = true \/ Str.isWhiteSpace c = true) w2).
  { apply (body_chars _ w2) in H2; [exact H2|]. cbn. intros d Hd.
    now apply orb_true_iff in Hd. }
  change ([c] ++ w2 ++ [44%N] ++ [c1; c2]) with ((c :: w2) ++ [44%N; c1; c2]).
  apply (amountShaped_intro _ c c1 c2 w2); trivial. constructor; auto.
Qed.

Lemma lang_description (g : bool) (w : jsstring) :
  lang (Quant 1 None g dot) w -> oneLine w.
Proof.
  intros H. split.
  - destruct H as [ws [-> [Hall Hlen]]]. simpl in Hlen.
    destruct Hall as [|v ws [c [-> _]] _]; [simpl in Hlen; lia | discriminate].
  - apply (lang_classes (fun c => isLineTerminator c = false)) in H; [exact H|].
    cbn. intros c Hc. now apply negb_true_iff.
Qed.

Lemma patterns_capture (pattern : regex * nat) :
  In pattern Pat.patterns -> groupsCapture (captureShape (snd pattern)) (fst pattern).
Proof.
  intros [<-|[<-|[<-|[]]]]; cbn [fst snd seqs groupsCapture captureShape Nat.eqb Nat.sub];
    repeat match goal with |- _ /\ _ => split end; trivial;
    try exact lang_dmy; try exact lang_amountStrict; try exact lang_amountLoose;
    try exact (lang_description false);
    cbv; tauto.
Qed.

End ShapeFacts.

(* ================================================================= *)
(** * Further properties: dates and the parse of one line *)

Module DateFacts.
Import Re.

Lemma run_seq_single (r1 r2 : regex) (x y : state) :
  run r1 x = [y] -> run (Seq r1 r2) x = run r2 y.
Proof. intros H. rewrite MarkerFacts.run_seq, H. simpl. apply app_nil_r. Qed.

(** [{n}] on a class takes exactly [n] code units of the class. *)
Lemma times_class_exact (p : N -> bool) (n : nat) :
  forall fuel w x s,
    n <= fuel -> rest x = w ++ s -> length w = n -> forallb p w = true ->
    repeatMatcher (run (Class p)) fuel n (Some n) true x = [advance x w].
Proof.
  induction n as [|n IH]; intros fuel w x s Hfuel Hr Hlen Hall.
  - destruct w; [|discriminate Hlen]. rewrite ReRuns.advance_nil.
    destruct fuel; reflexivity.
  - destruct fuel as [|fuel]; [lia|].
    destruct w as [|c w]; [discriminate Hlen|]. simpl in Hall.
    apply andb_true_iff in Hall as [Hc Hall].
    cbn [repeatMatcher]. rewrite ReRuns.run_class, Hr. cbn [app]. rewrite Hc.
    cbn [flat_map Nat.eqb andb negb pred option_map].
    rewrite (IH fuel w _ s); [| lia | reflexivity | now injection Hlen | exact Hall].
    rewrite app_nil_r. f_equal. apply (ReRuns.advance_cons x c (w ++ s) w Hr).
Qed.

Lemma run_times_class (p : N -> bool) (n : nat) (w s : jsstring) (x : state) :
  rest x = w ++ s -> length w = n -> forallb p w = true ->
  run (times n (Class p)) x = [advance x w].
Proof.
  intros Hr Hlen Hall. unfold times. cbn [run].
  apply (times_class_exact p n _ w x s); [lia | exact Hr | exact Hlen | exact Hall].
Qed.

Lemma run_times_exact (p : N -> bool) (n : nat) (w s : jsstring) (x : state) :
  rest x = w ++ s -> length w = n -> forallb p w = true ->
  run (times n (Class p)) x = [mkState (n + endIndex x) s (captures x)].
Proof.
  intros Hr Hlen Hall. rewrite (run_times_class p n w s x Hr Hlen Hall).
  rewrite (MarkerFacts.advance_rest x w s Hr). now rewrite Hlen.
Qed.

Lemma run_chr (c : N) (s : jsstring) (x : state) :
  rest x = c :: s -> run (chr c) x = [mkState (S (endIndex x)) s (captures x)].
Proof. intros Hr. unfold chr. rewrite ReRuns.run_class, Hr, N.eqb_refl. reflexivity. Qed.

Lemma dateShaped_parts (d : jsstring) :
  dateShaped d = true ->
  exists a b c e f g h i,
    d = [a; b; 47%N; c; e; 47%N; f; g; h; i]
    /\ forallb isDigit [a; b] = true /\ forallb isDigit [c; e] = true
    /\ forallb isDigit [f; g; h; i] = true.
Proof.
  destruct d as [|a [|b [|s1 [|c [|e [|s2 [|f [|g [|h [|i [|j d]]]]]]]]]]];
    try discriminate. unfold dateShaped. intros H.
  apply andb_true_iff in H as [H H2]. apply andb_true_iff in H as [H H1].
  apply N.eqb_eq in H1, H2. subst s1 s2.
  exists a, b, c, e, f, g, h, i. split; [reflexivity|].
  simpl in H. simpl.
  destruct (isDigit a), (isDigit b), (isDigit c), (isDigit e), (isDigit f),
    (isDigit g), (isDigit h), (isDigit i); try discriminate; auto.
Qed.

(** The date pattern has exactly one way to match a date. *)
Lemma run_dmy (d s : jsstring) (x : state) :
  dateShaped d = true -> rest x = d ++ s ->
  run Pat.dmy x = [mkState (10 + endIndex x) s (captures x)].
Proof.
  intros Hd Hr.
  destruct (dateShaped_parts d Hd) as [a [b [c [e [f [g [h [i [-> [H1 [H2 H3]]]]]]]]]]].
  set (e0 := endIndex x). set (k := captures x).
  set (x1 := mkState (2 + e0) ([47%N; c; e; 47%N; f; g; h; i] ++ s) k).
  set (x2 := mkState (S (2 + e0)) ([c; e; 47%N; f; g; h; i] ++ s) k).
  set (x3 := mkState (2 + S (2 + e0)) ([47%N; f; g; h; i] ++ s) k).
  set (x4 := mkState (S (2 + S (2 + e0))) ([f; g; h; i] ++ s) k).
  assert (E1 : run (times 2 digit) x = [x1])
    by exact (run_times_exact isDigit 2 [a; b] _ x Hr eq_refl H1).
  assert (E2 : run Pat.slash x1 = [x2]) by exact (run_chr 47 _ x1 eq_refl).
  assert (E3 : run (times 2 digit) x2 = [x3])
    by exact (run_times_exact isDigit 2 [c; e] _ x2 eq_refl eq_refl H2).
  assert (E4 : run Pat.slash x3 = [x4]) by exact (run_chr 47 _ x3 eq_refl).
  assert (E5 : run (times 4 digit) x4 = [mkState (4 + S (2 + S (2 + e0))) s k])
    by exact (run_times_exact isDigit 4 [f; g; h; i] s x4 eq_refl eq_refl H3).
  unfold Pat.dmy. cbn [seqs].
  rewrite (run_seq_single _ _ x x1 E1), (run_seq_single _ _ x1 x2 E2),
    (run_seq_single _ _ x2 x3 E3), (run_seq_single _ _ x3 x4 E4), E5.
  reflexivity.
Qed.

Lemma matchAt_dmy (d s : jsstring) (i : nat) :
  dateShaped d = true ->
  matchAt Pat.dmy i (d ++ s) = Some (mkMatch i d [] (10 + i) s).
Proof.
  intros Hd. unfold matchAt.
  rewrite (run_dmy d s (mkState i (d ++ s) []) Hd eq_refl). cbn [endIndex rest captures].
  f_equal. f_equal. replace (10 + i - i) with (length d + 0)
    by (rewrite (dateShaped_length d Hd); lia).
  rewrite firstn_app_2. simpl. apply app_nil_r.
Qed.

Lemma matchAt_group_dmy (d s : jsstring) (i : nat) :
  dateShaped d = true ->
  matchAt (Group 1 Pat.dmy) i (d ++ s) = Some (mkMatch i d [(1, d)] (10 + i) s).
Proof.
  intros Hd. unfold matchAt. rewrite MarkerFacts.run_group.
  rewrite (run_dmy d s (mkState i (d ++ s) []) Hd eq_refl). cbn [map endIndex rest captures].
  assert (E : firstn (10 + i - i) (d ++ s) = d).
  { replace (10 + i - i) with (length d + 0) by (rewrite (dateShaped_length d Hd); lia).
    rewrite firstn_app_2. simpl. apply app_nil_r. }
  now rewrite E.
Qed.

Lemma matchAt_bol_dmy (d s : jsstring) :
  dateShaped d = true ->
  matchAt (Seq Bol Pat.dmy) 0 (d ++ s) = Some (mkMatch 0 d [] 10 s).
Proof.
  intros Hd. unfold matchAt. rewrite MarkerFacts.run_seq. cbn [run endIndex Nat.eqb flat_map].
  rewrite app_nil_r.
  rewrite (run_dmy d s (mkState 0 (d ++ s) []) Hd eq_refl). cbn [endIndex rest captures].
  f_equal. f_equal. change (10 + 0 - 0) with 10. rewrite <- (dateShaped_length d Hd).
  rewrite firstn_app, Nat.sub_diag, firstn_all. simpl. apply app_nil_r.
Qed.

(** A text cut after its first ten code units, when these make a date. *)
Lemma dateShaped_split (s : jsstring) :
  dateShaped (firstn 10 s) = true -> s = firstn 10 s ++ skipn 10 s.
Proof. intros _. symmetry. apply firstn_skipn. Qed.

Lemma lang_dmy_prefix (r : regex) (s w f : jsstring) :
  (forall v, lang r v -> dateShaped v = true) ->
  lang r w -> s = w ++ f -> dateShaped (firstn 10 s) = true.
Proof.
  intros Hr Hl ->. apply Hr in Hl. rewrite <- (dateShaped_length w Hl).
  rewrite firstn_app, Nat.sub_diag, firstn_all. simpl. now rewrite app_nil_r.
Qed.

(** The searches find the leftmost position where the pattern matches. *)
Lemma search_leftmost (r : regex) (s : jsstring) :
  forall i,
    match search r i s with
    | Some m => exists pre s', s = pre ++ s' /\ matchAt r (i + length pre) s' = Some m
                  /\ forall t, In t (tails pre) ->
                       matchAt r (i + (length pre - length t)) (t ++ s') = None
    | None => forall pre s', s = pre ++ s' -> matchAt r (i + length pre) s' = None
    end.
Proof.
  induction s as [|c s IH]; intros i; cbn [search].
  - destruct (matchAt r i []) as [m|] eqn:E.
    + exists [], []. rewrite Nat.add_0_r. repeat split; trivial. intros t [].
    + intros pre s' H. destruct pre; [|discriminate H]. simpl in H. subst s'.
      now rewrite Nat.add_0_r.
  - destruct (matchAt r i (c :: s)) as [m|] eqn:E.
    + exists [], (c :: s). rewrite Nat.add_0_r. repeat split; trivial. intros t [].
    + specialize (IH (S i)). destruct (search r (S i) s) as [m|].
      * destruct IH as [pre [s' [-> [Hm Hbefore]]]]. exists (c :: pre), s'.
        split; [reflexivity|]. split; [simpl; now rewrite Nat.add_succ_r|].
        intros t [<-|Ht].
        -- rewrite Nat.sub_diag, Nat.add_0_r. exact E.
        -- assert (Hlen : length t <= length pre).
           { clear -Ht. induction pre as [|d pre IHp]; [destruct Ht|].
             destruct Ht as [<-|Ht]; [simpl; lia | simpl; apply IHp in Ht; lia]. }
           specialize (Hbefore t Ht).
           replace (i + (length (c :: pre) - length t))
             with (S i + (length pre - length t))
             by (change (length (c :: pre)) with (S (length pre)); lia).
           exact Hbefore.
      * intros pre s' H. destruct pre as [|c' pre].
        -- simpl in H. subst s'. now rewrite Nat.add_0_r.
        -- injection H as _ ->. simpl. rewrite Nat.add_succ_r. now apply IH.
Qed.

(** The first match of a scan is the match of the search. *)
Lemma scan_first (r : regex) (s : jsstring) :
  forall i,
    match search r i s with
    | Some m => exists others, scan r i s 0 = m :: others
    | None => scan r i s 0 = []
    end.
Proof.
  induction s as [|c s IH]; intros i; cbn [search scan].
  - destruct (matchAt r i []); [eauto | reflexivity].
  - destruct (matchAt r i (c :: s)); [eauto | apply IH].
Qed.

End DateFacts.

(** A date occurs in a text exactly when the date pattern is found in it. *)
Lemma exec_dmy_iff (r : Re.regex) (s : jsstring) :
  r = Pat.dmy \/ r = Re.Group 1 Pat.dmy ->
  (Re.exec r s <> None <-> hasDate s).
Proof.
  intros Hr. split.
  - destruct (Re.exec r s) as [m|] eqn:E; [intros _ | congruence].
    apply exec_word in E as [Hl Ho]. exists (Re.matched m). split; [|exact Ho].
    destruct Hr as [->| ->]; now apply lang_dmy.
  - intros [d [Hd [pre [post ->]]]] Hnone. unfold Re.exec in Hnone.
    pose proof (DateFacts.search_leftmost r (pre ++ d ++ post) 0) as H.
    rewrite Hnone in H. specialize (H pre (d ++ post) eq_refl).
    destruct Hr as [->| ->].
    + now rewrite (DateFacts.matchAt_dmy d post _ Hd) in H.
    + now rewrite (DateFacts.matchAt_group_dmy d post _ Hd) in H.
Qed.

(** X10.  [isDateLine] answers [true] exactly when the line, once
    trimmed, starts with ten characters that make a date DD/MM/YYYY. *)
Theorem isDateLine_iff (line : jsstring) :
  isDateLine line = true <-> dateShaped (firstn 10 (Str.trim line)) = true.
Proof.
  unfold isDateLine, Re.test. rewrite CleanFacts.exec_bol. split.
  - destruct (Re.matchAt (Re.Seq Re.Bol Pat.dmy) 0 (Str.trim line)) as [m|] eqn:E;
      [intros _ | discriminate].
    apply ReFacts.matchAt_sound in E as [_ [Hs [_ [Hl _]]]].
    cbn [Re.lang] in Hl. destruct Hl as [w1 [w2 [Hw [-> Hl]]]]. simpl in Hw.
    apply (DateFacts.lang_dmy_prefix Pat.dmy _ w2 (Re.following m) lang_dmy Hl).
    now rewrite <- Hw.
  - intros Hd. rewrite (DateFacts.dateShaped_split _ Hd).
    now rewrite (DateFacts.matchAt_bol_dmy _ _ Hd).
Qed.

Lemma search_firstDate (line : jsstring) (m : Re.matchResult) :
  Re.search (Re.Group 1 Pat.dmy) 0 line = Some m -> firstDate line (Re.matched m).
Proof.
  intros E. pose proof (DateFacts.search_leftmost (Re.Group 1 Pat.dmy) line 0) as H.
  rewrite E in H. destruct H as [pre [s' [Hline [Hm Hbefore]]]].
  apply ReFacts.matchAt_sound in Hm as [_ [Hs [_ [Hl _]]]].
  cbn [Re.lang] in Hl. apply lang_dmy in Hl. split; [exact Hl|].
  exists pre, (Re.following m). split; [now rewrite Hline, Hs|].
  intros before after Hpre Hne.
  destruct (dateShaped (firstn 10 (after ++ Re.matched m ++ Re.following m))) eqn:E';
    [|reflexivity].
  exfalso.
  assert (Hin : In after (tails pre)) by (rewrite Hpre; now apply tails_suffix).
  specialize (Hbefore after Hin). rewrite Hs in Hbefore.
  rewrite (DateFacts.dateShaped_split _ E') in Hbefore.
  now rewrite (DateFacts.matchAt_group_dmy _ _ _ E') in Hbefore.
Qed.

(** X11.  [startNewTransaction] gives an object whose date is the first
    date DD/MM/YYYY of the line, or the empty string when the line holds
    no date; the value date and the description are empty and both
    columns are [null]. *)
Theorem startNewTransaction_date (line : jsstring) :
  let t := startNewTransaction line in
  (hasDate line -> firstDate line t.(date))
  /\ (~ hasDate line -> t.(date) = [])
  /\ t.(valeur) = [] /\ t.(nature) = [] /\ t.(debit) = None /\ t.(credit) = None.
Proof.
  unfold startNewTransaction. cbn [date valeur nature debit credit].
  split; [|split; [|auto]].
  - intros Hdate. apply (exec_dmy_iff (Re.Group 1 Pat.dmy)) in Hdate; [|now right].
    unfold Re.exec in *.
    destruct (Re.search (Re.Group 1 Pat.dmy) 0 line) as [m|] eqn:E; [|congruence].
    now apply search_firstDate.
  - intros Hno. destruct (Re.exec (Re.Group 1 Pat.dmy) line) as [m|] eqn:E; [|reflexivity].
    exfalso. apply Hno. apply (exec_dmy_iff (Re.Group 1 Pat.dmy)); [now right | congruence].
Qed.

(** ** The parse of one line *)

Lemma matchG_dates (line : jsstring) :
  match Re.matchG (Re.Group 1 Pat.dmy) line with
  | Some dates => hasDate line
                  /\ exists d others, dates = d :: others /\ firstDate line d
                       /\ forall d', In d' others ->
                            dateShaped d' = true /\ occursIn d' line
  | None => ~ hasDate line
  end.
Proof.
  unfold Re.matchG, Re.matchAll.
  pose proof (DateFacts.scan_first (Re.Group 1 Pat.dmy) line 0) as Hfirst.
  destruct (Re.search (Re.Group 1 Pat.dmy) 0 line) as [m|] eqn:E.
  - destruct Hfirst as [others Hscan].
    assert (Hall : forall m', In m' (Re.scan (Re.Group 1 Pat.dmy) 0 line 0) ->
                     dateShaped (Re.matched m') = true /\ occursIn (Re.matched m') line).
    { intros m' Hm'. apply (matchAll_word (Re.Group 1 Pat.dmy)) in Hm' as [Hl Ho].
      split; [now apply lang_dmy | exact Ho]. }
    rewrite Hscan in *. split.
    + apply (exec_dmy_iff (Re.Group 1 Pat.dmy)); [now right|]. unfold Re.exec. congruence.
    + exists (Re.matched m), (map Re.matched others). split; [reflexivity|].
      split; [now apply search_firstDate|].
      intros d' Hd'. apply in_map_iff in Hd' as [m' [<- Hm']]. apply Hall. now right.
  - rewrite Hfirst. intros Hdate.
    apply (exec_dmy_iff (Re.Group 1 Pat.dmy)) in Hdate; [|now right]. now apply Hdate.
Qed.

Lemma run_alt (r1 r2 : Re.regex) (x : Re.state) :
  Re.run (Re.Alt r1 r2) x = Re.run r1 x ++ Re.run r2 x.
Proof. reflexivity. Qed.

Lemma matchAt_number (a : N) (s : jsstring) (i : nat) :
  Re.isDigit a = true -> Re.matchAt Pat.amountOrNumber i (a :: s) <> None.
Proof.
  intros Ha. unfold Re.matchAt. set (x := Re.mkState i (a :: s) []).
  assert (Hne : Re.run Pat.amountOrNumber x <> []).
  { unfold Pat.amountOrNumber. rewrite MarkerFacts.run_group. cbn [Re.alts].
    rewrite !run_alt. intros Hnil. apply map_eq_nil in Hnil.
    apply app_eq_nil in Hnil as [_ Hnil]. apply app_eq_nil in Hnil as [_ Hnil].
    pose proof (ReRuns.run_plus_class Re.isDigit x) as Hplus.
    cbn [Re.rest x Re.takeWhile] in Hplus. rewrite Ha in Hplus.
    destruct Hplus as [others Hplus]. unfold Re.digit in Hnil. rewrite Hplus in Hnil.
    discriminate Hnil. }
  destruct (Re.run Pat.amountOrNumber x); [congruence | discriminate].
Qed.

Lemma hasDate_number (line : jsstring) :
  hasDate line -> Re.matchG Pat.amountOrNumber line <> None.
Proof.
  intros [d [Hd [pre [post ->]]]].
  destruct (DateFacts.dateShaped_parts d Hd) as [a [b [c [e [f [g [h [i [-> [H1 _]]]]]]]]]].
  simpl in H1. apply andb_true_iff in H1 as [Ha _].
  unfold Re.matchG, Re.matchAll.
  pose proof (DateFacts.scan_first Pat.amountOrNumber
                (pre ++ [a; b; 47%N; c; e; 47%N; f; g; h; i] ++ post) 0) as Hfirst.
  pose proof (DateFacts.search_leftmost Pat.amountOrNumber
                (pre ++ [a; b; 47%N; c; e; 47%N; f; g; h; i] ++ post) 0) as Hleft.
  destruct (Re.search Pat.amountOrNumber 0 _) as [m|].
  - destruct Hfirst as [others ->]. discriminate.
  - exfalso. specialize (Hleft pre _ eq_refl). cbn [app] in Hleft.
    now apply (matchAt_number a _ _ Ha) in Hleft.
Qed.

Lemma lang_number_head (w : jsstring) :
  Re.lang Pat.amountOrNumber w -> exists c t, w = c :: t /\ Re.isDigit c = true.
Proof.
  assert (Hq : forall min max g v,
             1 <= min -> (match max with Some j => 1 <= j | None => True end) ->
             Re.lang (Re.Quant min max g Re.digit) v ->
             exists c t, v = c :: t /\ Re.isDigit c = true).
  { intros min max g v Hmin Hmax [ws [-> [Hall Hlen]]].
    destruct Hall as [|w0 ws [c [-> Hc]] Hall].
    - exfalso. unfold Re.within in Hlen. destruct max; simpl in Hlen; lia.
    - exists c, (concat ws). auto. }
  unfold Pat.amountOrNumber. cbn [Re.alts Re.seqs Re.lang].
  intros [H|[H|H]].
  - destruct H as [w1 [w2 [-> [H1 _]]]].
    apply (Hq 1 (Some 3) true) in H1 as [c [t [-> Hc]]]; [|lia|lia].
    exists c, (t ++ w2). auto.
  - destruct H as [w1 [w2 [-> [H1 _]]]].
    apply (Hq 1 None true) in H1 as [c [t [-> Hc]]]; [|lia|exact I].
    exists c, (t ++ w2). auto.
  - apply (Hq 1 None true) in H; [exact H | lia | exact I].
Qed.

Lemma last_member (l : list jsstring) (d : jsstring) : l <> [] -> In (last l d) l.
Proof.
  induction l as [|a l IH]; intros Hne; [congruence|].
  destruct l as [|b l]; [now left|].
  change (last (a :: b :: l) d) with (last (b :: l) d). right. apply IH. discriminate.
Qed.

Lemma lang_numberText (w : jsstring) : Re.lang Pat.amountOrNumber w -> numberText w.
Proof.
  intros H. split.
  - apply lang_number_head in H as [c [t [-> Hc]]]. exact Hc.
  - revert H. apply ShapeFacts.lang_classes. unfold Pat.amountOrNumber.
    cbn [Re.alts Re.seqs classesSatisfy Re.range Re.star Re.plus Re.times Re.digit Re.space
         Pat.comma Re.chr].
    repeat match goal with |- _ /\ _ => split end; intros c Hc; auto.
    all: apply N.eqb_eq in Hc; auto.
Qed.

Section LineParse.

Variable toUpperCase : jsstring -> jsstring.

(** The parts of a transaction given by [parseTransactionLine]. *)
Lemma parseTransactionLine_parts (line : jsstring) (t : transaction) :
  parseTransactionLine toUpperCase line = Some t ->
  firstDate line t.(date)
  /\ dateShaped t.(valeur) = true /\ occursIn t.(valeur) line
  /\ exists a,
       numberText a /\ occursIn a line
       /\ (isDebitTransaction toUpperCase line t.(nature) = true
           /\ t.(debit) = Some a /\ t.(credit) = None
           \/ isDebitTransaction toUpperCase line t.(nature) = false
              /\ t.(debit) = None /\ t.(credit) = Some a).
Proof.
  unfold parseTransactionLine. pose proof (matchG_dates line) as Hd.
  destruct (Re.matchG (Re.Group 1 Pat.dmy) line) as [dates|]; [|discriminate].
  destruct Hd as [_ [d [others [-> [Hfirst Hothers]]]]].
  unfold Re.matchG.
  destruct (Re.matchAll Pat.amountOrNumber line) as [|m ms] eqn:Ems; [discriminate|].
  intros H. injection H as <-. cbn [date valeur nature debit credit hd].
  split; [exact Hfirst|].
  assert (Hval : dateShaped (if truthy (nth_error (d :: others) 1)
                             then nth 1 (d :: others) [] else d) = true
                 /\ occursIn (if truthy (nth_error (d :: others) 1)
                              then nth 1 (d :: others) [] else d) line).
  { destruct Hfirst as [Hd [pre [post [Hline _]]]].
    assert (Hd' : dateShaped d = true /\ occursIn d line)
      by (split; [exact Hd | now exists pre, post]).
    destruct others as [|d2 others]; [exact Hd'|]. cbn [nth_error nth].
    destruct (truthy (Some d2)); [apply Hothers; now left | exact Hd']. }
  destruct Hval as [Hv1 Hv2]. split; [exact Hv1|]. split; [exact Hv2|].
  set (amounts := map Re.matched (m :: ms)).
  assert (Hlast : In (last amounts []) amounts).
  { apply last_member. discriminate. }
  apply in_map_iff in Hlast as [m' [Hm' Hin]]. rewrite <- Ems in Hin.
  apply matchAll_word in Hin as [Hl Ho]. apply lang_numberText in Hl.
  exists (last amounts []). split; [now rewrite <- Hm'|].
  split; [now rewrite <- Hm'|].
  destruct (isDebitTransaction toUpperCase line _); [left | right];
    repeat split; reflexivity.
Qed.

(** X12.  [parseTransactionLine] answers [null] exactly when the line
    holds no date DD/MM/YYYY: the digits of a date are numbers for its
    amount pattern, so a line with a date always gives a transaction. *)
Theorem parseTransactionLine_null_iff (line : jsstring) :
  parseTransactionLine toUpperCase line = None <-> ~ hasDate line.
Proof.
  unfold parseTransactionLine. pose proof (matchG_dates line) as Hd.
  destruct (Re.matchG (Re.Group 1 Pat.dmy) line) as [dates|].
  - destruct Hd as [Hdate _]. pose proof (hasDate_number line Hdate) as Hn.
    destruct (Re.matchG Pat.amountOrNumber line); [|congruence].
    split; [discriminate | intros H; now destruct H].
  - split; [intros _; exact Hd | reflexivity].
Qed.


End LineParse.

(* ================================================================= *)
(** * Further properties: the invariants of the parsed objects *)

Lemma amountShaped_numberText (a : jsstring) : amountShaped a = true -> numberText a.
Proof.
  unfold amountShaped, numberText. destruct (rev a) as [|c2 [|c1 [|k body]]] eqn:E; try discriminate.
  destruct (N.eqb_spec k 44) as [->|Hk].
  2:{ destruct k as [|k]; [discriminate|].
      repeat (destruct k as [k|k|]; try discriminate); exfalso; now apply Hk. }
  intros H. apply andb_true_iff in H as [H Hhd]. apply andb_true_iff in H as [H Hbody].
  apply andb_true_iff in H as [H2 H1]. split; [exact Hhd|].
  rewrite <- (rev_involutive a), E. apply Forall_rev.
  constructor; [now left|]. constructor; [now left|].
  constructor; [right; now right|].
  apply Forall_forall. intros c Hc. rewrite forallb_forall in Hbody.
  apply Hbody in Hc. apply orb_true_iff in Hc as [Hc|Hc]; auto.
Qed.

Lemma candidate_shapes (pattern : Re.regex * nat) (text : jsstring) (m : Re.matchResult)
    (d v description a : jsstring) :
  In pattern Pat.patterns -> In m (Re.matchAll (fst pattern) text) ->
  candidate (snd pattern) m = Normal (d, v, description, a) ->
  dateShaped d = true /\ dateShaped v = true /\ oneLine description /\ amountShaped a = true.
Proof.
  intros Hp Hm Hc. apply ReFacts.scan_sound in Hm as [pre [s' [_ Hm]]].
  pose proof (ShapeFacts.matchAt_captures (captureShape (snd pattern)) (fst pattern) _ _ m
                (ShapeFacts.patterns_capture pattern Hp) Hm) as Hcap.
  unfold candidate in Hc.
  destruct Hp as [<-|[<-|[<-|[]]]]; cbn [snd Nat.add Nat.eqb] in Hc, Hcap.
  - destruct (Re.group 1 m) as [g1|] eqn:E1; [|discriminate Hc].
    destruct (Re.group 2 m) as [g2|] eqn:E2; [|discriminate Hc].
    destruct (Re.group 3 m) as [g3|] eqn:E3; [|discriminate Hc].
    destruct (Re.group 4 m) as [g4|] eqn:E4; [|discriminate Hc].
    simpl in Hc. injection Hc as <- <- <- <-.
    repeat split; [exact (Hcap 1 _ E1) | exact (Hcap 2 _ E2)
                   | apply (Hcap 3 _ E3) | apply (Hcap 3 _ E3) | exact (Hcap 4 _ E4)].
  - destruct (Re.group 1 m) as [g1|] eqn:E1; [|discriminate Hc].
    destruct (Re.group 2 m) as [g2|] eqn:E2; [|discriminate Hc].
    destruct (Re.group 3 m) as [g3|] eqn:E3; [|discriminate Hc].
    destruct (Re.group 4 m) as [g4|] eqn:E4; [|discriminate Hc].
    simpl in Hc. injection Hc as <- <- <- <-.
    repeat split; [exact (Hcap 1 _ E1) | exact (Hcap 2 _ E2)
                   | apply (Hcap 3 _ E3) | apply (Hcap 3 _ E3) | exact (Hcap 4 _ E4)].
  - destruct (Re.group 1 m) as [g1|] eqn:E1; [|discriminate Hc].
    destruct (Re.group 2 m) as [g2|] eqn:E2; [|discriminate Hc].
    destruct (Re.group 3 m) as [g3|] eqn:E3; [|discriminate Hc].
    simpl in Hc. injection Hc as <- <- <- <-.
    repeat split; [exact (Hcap 1 _ E1) | exact (Hcap 1 _ E1)
                   | apply (Hcap 2 _ E2) | apply (Hcap 2 _ E2) | exact (Hcap 3 _ E3)].
Qed.

Section Invariants.

Variable toUpperCase : jsstring -> jsstring.

Lemma fromPattern_wellFormed (text : jsstring) (t : transaction) (line description : jsstring) :
  fromPattern toUpperCase text t line description -> wellFormed t.
Proof.
  intros [pattern [m [d [v [a [Hp [Hm [Hc [_ ->]]]]]]]]].
  destruct (candidate_shapes pattern text m d v description a Hp Hm Hc)
    as [Hd [Hv [[_ Hline] Ha]]].
  unfold wellFormed. cbn [date valeur nature debit credit].
  split; [exact Hd|]. split; [exact Hv|]. split; [apply trim_edgesTrimmed|].
  split; [exact (Forall_part _ _ _ (trim_occursIn description) Hline)|].
  exists a. split; [exact Ha|].
  destruct (isDebitTransaction toUpperCase _ description); auto.
Qed.

Lemma debitOnly_shapes (text : jsstring) (t : transaction) :
  debitOnly toUpperCase text t ->
  dateShaped t.(date) = true /\ dateShaped t.(valeur) = true
  /\ exists a, t.(debit) = Some a /\ numberText a.
Proof.
  intros [[a0 [Ha0 _]] [Hcredit [line [description [[Hfrom|Hfrom] _]]]]].
  - apply fromPattern_wellFormed in Hfrom as [Hd [Hv [_ [_ [a [Ha Hcol]]]]]].
    split; [exact Hd|]. split; [exact Hv|]. exists a.
    destruct Hcol as [[Hdebit _]|[Hdebit _]]; [|congruence].
    split; [exact Hdebit | now apply amountShaped_numberText].
  - destruct Hfrom as [before [ls [after [_ [_ [_ [_ [Hparse _]]]]]]]].
    apply parseTransactionLine_parts in Hparse as [[Hd _] [Hv [_ [a [Ha [_ Hcol]]]]]].
    split; [exact Hd|]. split; [exact Hv|]. exists a.
    destruct Hcol as [[_ [Hdebit _]]|[_ [Hdebit _]]]; [auto | congruence].
Qed.

(** X14.  The pattern loop always returns, and every object it holds is
    well formed: its date and its value date are written DD/MM/YYYY, its
    description has no white space at its ends and no line terminator,
    and exactly one of its two columns holds a text, which is a digit,
    then digits and white space, then a comma and two digits. *)
Theorem patternLoop_wellFormed (text : jsstring) :
  exists found,
    patternLoop toUpperCase text = Normal found /\ Forall wellFormed found.
Proof.
  destruct (patternLoop_built toUpperCase text) as [found [E H]].
  exists found. split; [exact E|].
  unfold patternBuilt in H. revert H. apply Forall_impl.
  intros t [line [description Hfrom]]. now apply (fromPattern_wellFormed text t line description).
Qed.

(** X15.  [parseTransactions] always returns, and every transaction it
    returns has a date and a value date written DD/MM/YYYY and a debit
    text that starts with a digit and is made of digits, white space and
    commas. *)
Theorem parseTransactions_shapes (text : jsstring) :
  exists transactions,
    parseTransactions toUpperCase text = Normal transactions
    /\ forall t, In t transactions ->
         dateShaped t.(date) = true /\ dateShaped t.(valeur) = true
         /\ exists a, t.(debit) = Some a /\ numberText a.
Proof.
  destruct (parseTransactions_returns toUpperCase text) as [ts [E H]].
  exists ts. split; [exact E|]. intros t Hin. rewrite Forall_forall in H.
  apply (debitOnly_shapes text). now apply H.
Qed.

(** X16.  Every record of the pipeline has a date written DD/MM/YYYY and
    an amount made of a digit, then digits and commas, then the euro
    sign. *)
Theorem pipeline_record_shapes (text : jsstring) (records : list expense) (e : expense) :
  pipeline toUpperCase text = Normal records -> In e records ->
  dateShaped e.(expDate) = true
  /\ exists c digits,
       e.(amountWithTaxes) = c :: digits ++ [8364%N]
       /\ Re.isDigit c = true
       /\ Forall (fun k => Re.isDigit k = true \/ k = 44%N) digits.
Proof.
  unfold pipeline. destruct (parseTransactions_returns toUpperCase text) as [ts [E H]].
  rewrite E. cbn [bind]. intros Hrec Hin.
  apply In_nth_error in Hin as [k Hk].
  destruct (mapM_nth _ _ _ ts 0 records Hrec) as [Hlen Hnth].
  assert (Hlt : k < length ts).
  { rewrite <- Hlen. apply nth_error_Some. congruence. }
  destruct (nth_error ts k) as [t|] eqn:Et; [|apply nth_error_None in Et; lia].
  destruct (Hnth k t Et) as [y [Hy Hf]]. rewrite Hk in Hy. injection Hy as <-.
  rewrite Forall_forall in H. apply nth_error_In in Et.
  destruct (debitOnly_shapes text t (H t Et)) as [Hd [_ [a [Ha [Hhd Hall]]]]].
  unfold processTransaction in Hf.
  destruct (extractClientName (nature t)) as [name|]; [|discriminate Hf].
  cbn [bind] in Hf. rewrite Ha in Hf. cbn [defined bind] in Hf.
  injection Hf as <-. cbn [expDate amountWithTaxes]. split; [exact Hd|].
  unfold Re.space. rewrite ReRuns.replaceG_class, replaceEach_filter.
  destruct a as [|c rest]; [discriminate Hhd|]. cbn [hd] in Hhd.
  assert (Hws : Str.isWhiteSpace c = false).
  { unfold Re.isDigit in Hhd. apply andb_true_iff in Hhd as [H1 H2].
    apply N.leb_le in H1, H2. unfold Str.isWhiteSpace.
    repeat match goal with
           | |- context [(?x <=? c)%N] => destruct (N.leb_spec x c); try lia
           | |- context [(c <=? ?x)%N] => destruct (N.leb_spec c x); try lia
           | |- context [(c =? ?x)%N] => destruct (N.eqb_spec c x); try lia
           end; reflexivity. }
  cbn [filter]. rewrite Hws. cbn [negb app].
  exists c, (filter (fun c0 => negb (Str.isWhiteSpace c0)) rest).
  split; [reflexivity|]. split; [exact Hhd|].
  apply Forall_forall. intros k0 Hk0. apply filter_In in Hk0 as [Hk0 Hnws].
  apply negb_true_iff in Hnws. inversion Hall as [|? ? _ Hrest]; subst.
  rewrite Forall_forall in Hrest. destruct (Hrest k0 Hk0) as [?|[?|?]]; auto; congruence.
Qed.

End Invariants.

(* ================================================================= *)
(** * Further properties: [addToTransaction] *)

(** The amount pattern of the line scan finds nothing exactly in the
    lines without a digit. *)
Lemma matchG_number_None (line : jsstring) :
  existsb Re.isDigit line = false -> Re.matchG Pat.amountOrNumber line = None.
Proof.
  intros Hno. unfold Re.matchG.
  destruct (Re.matchAll Pat.amountOrNumber line) as [|m ms] eqn:E; [reflexivity|].
  exfalso. assert (Hin : In m (Re.matchAll Pat.amountOrNumber line)) by (rewrite E; now left).
  apply matchAll_word in Hin as [Hl [pre [post Ho]]].
  apply lang_number_head in Hl as [c [t [Hm Hc]]].
  assert (Hyes : existsb Re.isDigit line = true).
  { apply existsb_exists. exists c. split; [|exact Hc].
    rewrite Ho, Hm. apply in_or_app. right. now left. }
  congruence.
Qed.

Lemma matchG_number_Some (line : jsstring) :
  existsb Re.isDigit line = true ->
  exists amounts, Re.matchG Pat.amountOrNumber line = Some amounts
    /\ numberText (last amounts []) /\ occursIn (last amounts []) line.
Proof.
  intros Hyes. apply existsb_exists in Hyes as [a [Hin Ha]].
  apply in_split in Hin as [pre [post ->]].
  unfold Re.matchG.
  destruct (Re.matchAll Pat.amountOrNumber (pre ++ a :: post)) as [|m ms] eqn:E.
  - exfalso. unfold Re.matchAll in E.
    pose proof (DateFacts.scan_first Pat.amountOrNumber (pre ++ a :: post) 0) as Hfirst.
    pose proof (DateFacts.search_leftmost Pat.amountOrNumber (pre ++ a :: post) 0) as Hleft.
    destruct (Re.search Pat.amountOrNumber 0 _) as [m|].
    + destruct Hfirst as [others Hfirst]. congruence.
    + specialize (Hleft pre _ eq_refl). now apply (matchAt_number a _ _ Ha) in Hleft.
  - eexists. split; [reflexivity|].
    set (amounts := map Re.matched (m :: ms)).
    assert (Hlast : In (last amounts []) amounts) by (apply last_member; discriminate).
    apply in_map_iff in Hlast as [m' [Hm' Hin]]. rewrite <- E in Hin.
    apply matchAll_word in Hin as [Hl Ho]. rewrite <- Hm'.
    split; [now apply lang_numberText | exact Ho].
Qed.

Section AddToTransaction.

Variable toUpperCase : jsstring -> jsstring.

(** X17.  [addToTransaction] leaves the date as it is; it sets the value
    date only when it is empty and the line holds a date, to the first
    date of the line; a line without a digit leaves both columns as they
    are, and a line with a digit overwrites one column with a number of
    the line, the debit when the classifier answers DEBIT for the line
    and the description so far, and leaves the other column as it is;
    the description is kept, or extended by a space and a text that is
    trimmed, not empty and not yet part of it. *)
Theorem addToTransaction_fields (tx : transaction) (line : jsstring) :
  let tx' := addToTransaction toUpperCase tx line in
  tx'.(date) = tx.(date)
  /\ (tx.(valeur) <> [] -> tx'.(valeur) = tx.(valeur))
  /\ (~ hasDate line -> tx'.(valeur) = tx.(valeur))
  /\ (tx.(valeur) = [] -> hasDate line -> firstDate line tx'.(valeur))
  /\ (existsb Re.isDigit line = false ->
        tx'.(debit) = tx.(debit) /\ tx'.(credit) = tx.(credit))
  /\ (existsb Re.isDigit line = true ->
        exists a, numberText a /\ occursIn a line
          /\ (isDebitTransaction toUpperCase line tx.(nature) = true
              /\ tx'.(debit) = Some a /\ tx'.(credit) = tx.(credit)
              \/ isDebitTransaction toUpperCase line tx.(nature) = false
                 /\ tx'.(debit) = tx.(debit) /\ tx'.(credit) = Some a))
  /\ (tx'.(nature) = tx.(nature)
      \/ exists clean, clean <> [] /\ edgesTrimmed clean = true
           /\ ~ occursIn clean tx.(nature)
           /\ tx'.(nature) = tx.(nature) ++ js " " ++ clean).
Proof.
  unfold addToTransaction. cbn [date valeur nature debit credit].
  split; [reflexivity|].
  assert (Hdates : match Re.exec (Re.Group 1 Pat.dmy) line with
                   | Some m => hasDate line /\ firstDate line (Re.matched m)
                   | None => ~ hasDate line
                   end).
  { destruct (Re.exec (Re.Group 1 Pat.dmy) line) as [m|] eqn:E.
    - split; [|now apply search_firstDate].
      apply (exec_dmy_iff (Re.Group 1 Pat.dmy)); [now right | congruence].
    - intros Hd. apply (exec_dmy_iff (Re.Group 1 Pat.dmy)) in Hd; [|now right]. congruence. }
  split; [|split; [|split]].
  - intros Hne. destruct (Re.exec (Re.Group 1 Pat.dmy) line); [|reflexivity].
    destruct (valeur tx); [congruence | reflexivity].
  - intros Hno. destruct (Re.exec (Re.Group 1 Pat.dmy) line); [|reflexivity].
    now destruct Hdates.
  - intros Hempty Hdate. destruct (Re.exec (Re.Group 1 Pat.dmy) line); [|contradiction].
    rewrite Hempty. cbn [truthy negb]. now destruct Hdates.
  - split; [|split].
    + intros Hno. now rewrite (matchG_number_None line Hno).
    + intros Hyes. destruct (matchG_number_Some line Hyes) as [amounts [-> [Hn Ho]]].
      exists (last amounts []). split; [exact Hn|]. split; [exact Ho|].
      destruct (isDebitTransaction toUpperCase line (nature tx)); [left | right];
        repeat split; reflexivity.
    + match goal with
      | |- context [Str.includes (nature tx) ?c] => set (clean := c)
      end.
      destruct (truthy (Some clean)) eqn:Et; [|now left]. cbn [andb].
      destruct (Str.includes (nature tx) clean) eqn:Ei; [now left|]. cbn [negb].
      right. exists clean. split; [destruct clean; [discriminate Et | discriminate]|].
      split; [apply trim_edgesTrimmed|]. split; [now apply includes_false | reflexivity].
Qed.

End AddToTransaction.

(* ================================================================= *)
(** * Further properties: how much the two parsers can find *)

Lemma amountShaped_comma (a : jsstring) : amountShaped a = true -> In 44%N a.
Proof.
  intros H. apply amountShaped_numberText in H as Hn. unfold amountShaped in H.
  destruct (rev a) as [|c2 [|c1 [|k body]]] eqn:E; try discriminate.
  destruct (N.eqb_spec k 44) as [->|Hk].
  - apply in_rev. rewrite E. right. right. now left.
  - destruct k as [|k]; [discriminate|].
    repeat (destruct k as [k|k|]; try discriminate); exfalso; now apply Hk.
Qed.

Lemma patterns_hold_comma (pattern : Re.regex * nat) (w : jsstring) :
  In pattern Pat.patterns -> Re.lang (fst pattern) w -> In 44%N w.
Proof.
  intros [<-|[<-|[<-|[]]]]; cbn [fst Re.seqs]; intros H; cbn [Re.lang] in H;
    repeat match goal with
           | H : exists _, _ |- _ => destruct H
           | H : _ /\ _ |- _ => destruct H
           end; subst;
    repeat (apply in_or_app; right); apply amountShaped_comma;
    first [now apply ShapeFacts.lang_amountStrict | now apply ShapeFacts.lang_amountLoose].
Qed.

Lemma filter_length_cons (A : Type) (f : A -> bool) (x : A) (l : list A) :
  length (filter f l) <= length (filter f (x :: l)).
Proof. simpl. destruct (f x); simpl; lia. Qed.

Section Reach.

Variable toUpperCase : jsstring -> jsstring.

Lemma parsedDebit_length (line : jsstring) : length (parsedDebit toUpperCase line) <= 1.
Proof.
  unfold parsedDebit. destruct (parseTransactionLine toUpperCase line) as [t|]; [|simpl; lia].
  destruct (truthy (debit t)); simpl; lia.
Qed.

Lemma hasDateb_trim (l : jsstring) : hasDate (Str.trim l) -> hasDateb l = true.
Proof.
  intros H. apply hasDateb_spec. apply (hasDate_occursIn (Str.trim l)); [|exact H].
  apply trim_occursIn.
Qed.

Lemma lineByLineFrom_length (n : nat) :
  forall lines inOperationsSection,
    length lines <= n ->
    length (lineByLineFrom toUpperCase inOperationsSection lines)
    <= length (filter hasDateb lines).
Proof.
  induction n as [|n IH]; intros lines b Hlen.
  - destruct lines; [simpl; lia | simpl in Hlen; lia].
  - destruct lines as [|l ls]; [simpl; lia|]. simpl in Hlen.
    assert (Hrest : forall b', length (lineByLineFrom toUpperCase b' ls)
                               <= length (filter hasDateb ls)).
    { intros b'. apply IH. lia. }
    pose proof (filter_length_cons _ hasDateb l ls) as Hcons.
    cbn [lineByLineFrom]. cbv zeta.
    destruct (isSectionHeader (Str.trim l)); [specialize (Hrest true); lia|].
    destruct (negb b || (length (Str.trim l) =? 0)); [specialize (Hrest b); lia|].
    set (direct := if Re.test Pat.amountLine (Str.trim l) && Re.test Pat.dmy (Str.trim l)
                   then parsedDebit toUpperCase (Str.trim l) else []).
    assert (Hpush : forall full,
               length direct
               + length (if negb (Re.test Pat.amountLine (Str.trim l))
                         then parsedDebit toUpperCase full else []) <= 1).
    { intros full. unfold direct. destruct (Re.test Pat.amountLine (Str.trim l)); cbn [andb negb].
      - destruct (Re.test Pat.dmy (Str.trim l)); simpl;
          [pose proof (parsedDebit_length (Str.trim l)); lia | lia].
      - simpl. apply parsedDebit_length. }
    assert (Hdirect : length direct <= if hasDateb l then 1 else 0).
    { unfold direct. destruct (Re.test Pat.amountLine (Str.trim l)); cbn [andb];
        [|simpl; lia].
      destruct (Re.test Pat.dmy (Str.trim l)) eqn:Ed; [|simpl; lia].
      rewrite (hasDateb_trim l (test_dmy_hasDate _ Ed)). apply parsedDebit_length. }
    destruct (startsWithDate (Str.trim l)) eqn:Es.
    + assert (Hl : hasDateb l = true) by (apply hasDateb_trim; now apply startsWithDate_hasDate).
      assert (Hhere : length (filter hasDateb (l :: ls)) = S (length (filter hasDateb ls))).
      { simpl. now rewrite Hl. }
      assert (Hone : forall full b',
                 length (direct
                         ++ (if negb (Re.test Pat.amountLine (Str.trim l))
                             then parsedDebit toUpperCase full else [])
                         ++ lineByLineFrom toUpperCase b' ls)
                 <= length (filter hasDateb (l :: ls))).
      { intros full b'. rewrite !length_app. specialize (Hpush full). specialize (Hrest b'). lia. }
      destruct ls as [|n1 ls1]; [apply Hone|].
      destruct (continues (Str.trim n1)); [|apply Hone].
      assert (Hrest1 : length (lineByLineFrom toUpperCase b ls1)
                       <= length (filter hasDateb (n1 :: ls1))).
      { pose proof (filter_length_cons _ hasDateb n1 ls1).
        assert (length (lineByLineFrom toUpperCase b ls1) <= length (filter hasDateb ls1))
          by (apply IH; simpl in Hlen; lia). lia. }
      assert (Htwo : forall full,
                 length (direct
                         ++ (if negb (Re.test Pat.amountLine (Str.trim l))
                             then parsedDebit toUpperCase full else [])
                         ++ lineByLineFrom toUpperCase b ls1)
                 <= length (filter hasDateb (l :: n1 :: ls1))).
      { intros full. rewrite !length_app. specialize (Hpush full). lia. }
      destruct ls1 as [|n2 ls2]; [apply Htwo|].
      destruct (continues (Str.trim n2)); [|apply Htwo].
      specialize (Hpush ((Str.trim l ++ js " " ++ Str.trim n1) ++ js " " ++ Str.trim n2)).
      rewrite !length_app.
      assert (length (lineByLineFrom toUpperCase b ls2) <= length (filter hasDateb ls2))
        by (apply IH; simpl in Hlen; lia).
      pose proof (filter_length_cons _ hasDateb n2 ls2).
      pose proof (filter_length_cons _ hasDateb n1 (n2 :: ls2)).
      lia.
    + rewrite length_app. specialize (Hrest b). simpl. destruct (hasDateb l); simpl; lia.
Qed.

(** X18.  The line scan finds at most one transaction for each line that
    holds a date: the direct parse of a line and the parse of the line
    joined with its followers exclude each other, and the followers are
    not looked at again. *)
Theorem parseTransactionsLineByLine_at_most (lines : list jsstring) :
  length (parseTransactionsLineByLine toUpperCase lines)
  <= length (filter hasDateb lines) <= length lines.
Proof.
  split.
  - unfold parseTransactionsLineByLine. now apply (lineByLineFrom_length (length lines)).
  - apply filter_length_le.
Qed.

(** X19.  The three patterns need an amount with a decimal comma: on a
    text without a comma the pattern loop finds nothing. *)
Theorem patternLoop_needs_comma (text : jsstring) :
  ~ In 44%N text -> patternLoop toUpperCase text = Normal [].
Proof.
  intros Hno.
  assert (Hnone : forall pattern, In pattern Pat.patterns ->
                    Re.matchAll (fst pattern) text = []).
  { intros pattern Hp. destruct (Re.matchAll (fst pattern) text) as [|m ms] eqn:E; [reflexivity|].
    exfalso. apply Hno.
    destruct (matchAll_word (fst pattern) text m) as [Hl [pre [post ->]]]; [rewrite E; now left|].
    apply in_or_app. right. apply in_or_app. left.
    now apply (patterns_hold_comma pattern). }
  unfold patternLoop.
  assert (Hfold : forall ps, incl ps Pat.patterns ->
            foldM (fun transactions pattern =>
                     foldM (addCandidate toUpperCase (snd pattern))
                           (Re.matchAll (fst pattern) text) transactions) ps []
            = Normal []).
  { induction ps as [|p ps IH]; intros Hincl; simpl; [reflexivity|].
    rewrite (Hnone p) by (apply Hincl; now left). simpl.
    apply IH. intros q Hq. apply Hincl. now right. }
  apply Hfold. apply incl_refl.
Qed.

End Reach.

(* ================================================================= *)
(** * The further properties at concrete inputs *)

(** The projection at the transaction of Scenario 1. *)
Lemma processTransactions_projection_witness :
  processTransactions Str.toUpperCaseLatin1 [salaryTransfer]
  = Normal [salaryRecord 1 salaryTransfer]
  /\ length [salaryRecord 1 salaryTransfer] = length [salaryTransfer].
Proof.
  assert (E : processTransactions Str.toUpperCaseLatin1 [salaryTransfer]
              = Normal [salaryRecord 1 salaryTransfer]) by (vm_compute; reflexivity).
  split; [exact E|].
  exact (proj1 (processTransactions_projection Str.toUpperCaseLatin1
                  [salaryTransfer] [salaryRecord 1 salaryTransfer] E)).
Defined.

(** The amount of the record of Scenario 1. *)
Lemma processTransaction_amountWithTaxes_witness :
  exists d, salaryTransfer.(debit) = Some d
    /\ (salaryRecord 1 salaryTransfer).(amountWithTaxes)
       = filter (fun c => negb (Str.isWhiteSpace c)) d ++ [8364%N]
    /\ Forall (fun c => Str.isWhiteSpace c = false)
              (salaryRecord 1 salaryTransfer).(amountWithTaxes).
Proof.
  apply (processTransaction_amountWithTaxes Str.toUpperCaseLatin1 0 salaryTransfer).
  vm_compute. reflexivity.
Defined.

(** The line of Scenario 1, which stands under no header. *)
Lemma parseTransactions_without_header_witness :
  parseTransactionsLineByLine Str.toUpperCaseLatin1 (Str.splitChar 10 scenario1) = []
  /\ parseTransactions Str.toUpperCaseLatin1 scenario1
     = (transactions <- patternLoop Str.toUpperCaseLatin1 scenario1 ;;
        Normal (filter (fun t => truthy t.(debit)) transactions)).
Proof.
  apply (parseTransactions_without_header Str.toUpperCaseLatin1 scenario1).
  vm_compute. reflexivity.
Defined.

(** A card payment, which goes through the general rule. *)
Lemma extractClientName_general_form_witness :
  exists name,
    extractClientName (js "CARTE X2148 CARREFOUR CITY") = Normal name
    /\ name <> []
    /\ edgesTrimmed name = true
    /\ Forall (fun c => Pat.outsideName c = false) name.
Proof.
  apply (extractClientName_general_form (js "CARTE X2148 CARREFOUR CITY")).
  - apply includes_false. vm_compute. reflexivity.
  - apply includes_false. vm_compute. reflexivity.
Defined.

(** A salary transfer without the name of its payee. *)
Lemma extractClientName_salary_payment_witness :
  extractClientName (js "VIR INSTANTANE EMIS NET") = Normal (js "Salary Payment").
Proof.
  apply (extractClientName_salary_payment (js "VIR INSTANTANE EMIS NET")).
  - exists [], []. reflexivity.
  - vm_compute. reflexivity.
Defined.


(** The second record of Scenario 1. *)
Lemma pipeline_record_shapes_witness :
  dateShaped (salaryRecord 2 salaryTransferAgain).(expDate) = true
  /\ exists c digits,
       (salaryRecord 2 salaryTransferAgain).(amountWithTaxes) = c :: digits ++ [8364%N]
       /\ Re.isDigit c = true
       /\ Forall (fun k => Re.isDigit k = true \/ k = 44%N) digits.
Proof.
  apply (pipeline_record_shapes Str.toUpperCaseLatin1 scenario1
           [salaryRecord 1 salaryTransfer; salaryRecord 2 salaryTransferAgain]).
  - vm_compute. reflexivity.
  - right. left. reflexivity.
Defined.

(** A dated line whose amount has no decimals. *)
Lemma patternLoop_needs_comma_witness :
  patternLoop Str.toUpperCaseLatin1 (js "02/01/2025 02/01/2025 CARTE X2148 45") = Normal [].
Proof.
  apply (patternLoop_needs_comma Str.toUpperCaseLatin1).
  intros H. vm_compute in H.
  repeat (destruct H as [H|H]; [discriminate H|]). exact H.
Defined.
